(** * ms-runloop RPC core: ring buffer, frame codec, client and service

    A shallow embedding of the transport runtime
    (include/rpc/RingBuffer.h, rpc/Types.h, src/FrameCodec.cpp,
    src/Service.cpp, src/Client.cpp, src/EventDispatcher.cpp) together
    with the properties the design document states about it and further
    properties of the code.

    Conventions.
    - A [uint16_t]/[uint32_t] is a [Z] in range; wrap-around is written
      out with [u32].  An [int] obtained from a [uint32_t] by
      [static_cast] is [s32].
    - A byte is a [Z] in [0, 256); a byte buffer is a [list Z].
    - The host is little-endian (the code includes <endian.h> and copies
      structs with memcpy), so a header struct copied from raw bytes has the
      little-endian reading of those bytes in each field.
    - Results of system calls are inputs of the functions that make them. *)

From stdpp Require Import base numbers list option gmap.

Local Open Scope Z_scope.

(* ===================================================================== *)
(** * Machine integers *)

Definition u32 (x : Z) : Z := x mod 2 ^ 32.

(** [static_cast<int>] of a 32-bit unsigned value (two's complement). *)
Definition s32 (x : Z) : Z :=
  let y := u32 x in if y <? 2 ^ 31 then y else y - 2 ^ 32.

Definition is_u16 (x : Z) : Prop := 0 ≤ x < 2 ^ 16.
Definition is_u32 (x : Z) : Prop := 0 ≤ x < 2 ^ 32.
Definition is_int (x : Z) : Prop := - 2 ^ 31 ≤ x < 2 ^ 31.

(* ===================================================================== *)
(** * rpc/Types.h *)

Definition RPC_SUCCESS : Z := 0.
Definition RPC_ERR_DISCONNECTED : Z := -1.
Definition RPC_ERR_TIMEOUT : Z := -2.
Definition RPC_ERR_INVALID_SERVICE : Z := -3.
Definition RPC_ERR_INVALID_METHOD : Z := -4.
Definition RPC_ERR_VERSION_MISMATCH : Z := -5.
Definition RPC_ERR_RING_FULL : Z := -6.
Definition RPC_ERR_STOPPED : Z := -7.

Definition FRAME_REQUEST : Z := 1.
Definition FRAME_RESPONSE : Z := 2.
Definition FRAME_NOTIFY : Z := 4.

Record FrameHeader : Type := mkFrameHeader {
  version : Z;       (* uint16_t *)
  flags : Z;         (* uint16_t *)
  serviceId : Z;     (* uint32_t *)
  messageId : Z;     (* uint32_t *)
  seq : Z;           (* uint32_t *)
  payloadBytes : Z;  (* uint32_t *)
  aux : Z            (* uint32_t *)
}.

(** [FrameHeader header{};] *)
Definition zeroHeader : FrameHeader := mkFrameHeader 0 0 0 0 0 0 0.

Definition sizeof_FrameHeader : Z := 24.
Definition PROTOCOL_VERSION : Z := 1.
Definition RING_BUFFER_SIZE : Z := 256 * 1024.

(** The values a [FrameHeader] object can hold. *)
Record header_ok (h : FrameHeader) : Prop := mkHeaderOk {
  ok_version : is_u16 (version h);
  ok_flags : is_u16 (flags h);
  ok_serviceId : is_u32 (serviceId h);
  ok_messageId : is_u32 (messageId h);
  ok_seq : is_u32 (seq h);
  ok_payloadBytes : is_u32 (payloadBytes h);
  ok_aux : is_u32 (aux h)
}.

(* ===================================================================== *)
(** * include/rpc/RingBuffer.h *)

(** [memcpy(dst + off, src, n)] on a destination array held as a list. *)
Definition memcpy (dst : list Z) (off : Z) (src : list Z) (n : Z) : list Z :=
  take (Z.to_nat off) dst ++ take (Z.to_nat n) src
    ++ drop (Z.to_nat (off + n)) dst.

(** The [n] bytes a [memcpy(dest, src + off, n)] copies out. *)
Definition slice (src : list Z) (off n : Z) : list Z :=
  take (Z.to_nat n) (drop (Z.to_nat off) src).

Record RingBuffer : Type := mkRing {
  ctrl_head : Z;      (* ctrl_.head, written by the producer *)
  ctrl_tail : Z;      (* ctrl_.tail, written by the consumer *)
  data_ : list Z      (* uint8_t data_[Size] *)
}.

Section Ring.

(** The template parameter. *)
Variable Size : Z.

Definition reset (rb : RingBuffer) : RingBuffer :=
  mkRing 0 0 (data_ rb).

Definition writeAvailable (rb : RingBuffer) : Z :=
  let head := ctrl_head rb in
  let tail := ctrl_tail rb in
  u32 (Size - u32 (head - tail)).

Definition write (rb : RingBuffer) (data : list Z) (len : Z)
  : bool * RingBuffer :=
  let head := ctrl_head rb in
  let tail := ctrl_tail rb in
  if u32 (Size - u32 (head - tail)) <? len then (false, rb)
  else
    let offset := Z.land head (Size - 1) in
    let firstChunk := u32 (Size - offset) in
    let data' :=
      if firstChunk >=? len then memcpy (data_ rb) offset data len
      else
        memcpy (memcpy (data_ rb) offset data firstChunk)
               0 (drop (Z.to_nat firstChunk) data) (u32 (len - firstChunk)) in
    (true, mkRing (u32 (head + len)) tail data').

Definition readAvailable (rb : RingBuffer) : Z :=
  let head := ctrl_head rb in
  let tail := ctrl_tail rb in
  u32 (head - tail).

(** [None] is the [false] return: [dest] is not written. *)
Definition peek (rb : RingBuffer) (len : Z) : option (list Z) :=
  let head := ctrl_head rb in
  let tail := ctrl_tail rb in
  if u32 (head - tail) <? len then None
  else
    let offset := Z.land tail (Size - 1) in
    let firstChunk := u32 (Size - offset) in
    if firstChunk >=? len then Some (slice (data_ rb) offset len)
    else Some (slice (data_ rb) offset firstChunk
                 ++ slice (data_ rb) 0 (u32 (len - firstChunk))).

Definition read (rb : RingBuffer) (len : Z)
  : option (list Z) * RingBuffer :=
  let head := ctrl_head rb in
  let tail := ctrl_tail rb in
  if u32 (head - tail) <? len then (None, rb)
  else
    let offset := Z.land tail (Size - 1) in
    let firstChunk := u32 (Size - offset) in
    let dest :=
      if firstChunk >=? len then slice (data_ rb) offset len
      else slice (data_ rb) offset firstChunk
             ++ slice (data_ rb) 0 (u32 (len - firstChunk)) in
    (Some dest, mkRing head (u32 (tail + len)) (data_ rb)).

Definition skip (rb : RingBuffer) (len : Z) : bool * RingBuffer :=
  let head := ctrl_head rb in
  let tail := ctrl_tail rb in
  if u32 (head - tail) <? len then (false, rb)
  else (true, mkRing head (u32 (tail + len)) (data_ rb)).

Definition capacity : Z := Size.

Definition empty (rb : RingBuffer) : bool := readAvailable rb =? 0.
Definition full (rb : RingBuffer) : bool := writeAvailable rb =? 0.

(** The committed bytes not yet consumed, oldest first: what the
    consumer gets if it takes all that [readAvailable] reports. *)
Definition contents (rb : RingBuffer) : list Z :=
  default [] (peek rb (readAvailable rb)).

(** The public interface as a datatype, to talk about call sequences. *)
Inductive RingOp : Type :=
| OpReset
| OpWrite (data : list Z) (len : Z)
| OpRead (len : Z)
| OpPeek (len : Z)
| OpSkip (len : Z).

(** A call the C++ types admit: lengths are [uint32_t], and the source
    buffer of a write holds at least [len] bytes. *)
Definition op_ok (o : RingOp) : Prop :=
  match o with
  | OpReset => True
  | OpWrite data len => is_u32 len ∧ len ≤ Z.of_nat (length data)
  | OpRead len | OpPeek len | OpSkip len => is_u32 len
  end.

Definition run_op (o : RingOp) (rb : RingBuffer) : RingBuffer :=
  match o with
  | OpReset => reset rb
  | OpWrite data len => snd (write rb data len)
  | OpRead len => snd (read rb len)
  | OpPeek len => rb
  | OpSkip len => snd (skip rb len)
  end.

(** A default-constructed ring: both offsets 0, [Size] bytes of storage. *)
Definition initial (rb : RingBuffer) : Prop :=
  ctrl_head rb = 0 ∧ ctrl_tail rb = 0 ∧ Z.of_nat (length (data_ rb)) = Size.

Inductive reachable : RingBuffer → Prop :=
| reach_init rb : initial rb → reachable rb
| reach_step o rb : reachable rb → op_ok o → reachable (run_op o rb).

(** What every state reached through the interface satisfies. *)
Record ring_ok (rb : RingBuffer) : Prop := mkRingOk {
  ok_head : is_u32 (ctrl_head rb);
  ok_tail : is_u32 (ctrl_tail rb);
  ok_data : Z.of_nat (length (data_ rb)) = Size;
  ok_used : u32 (ctrl_head rb - ctrl_tail rb) ≤ Size
}.

End Ring.

(* ===================================================================== *)
(** * src/FrameCodec.cpp *)

(** The little-endian bytes of a 16-bit and of a 32-bit field
    ([htole16]/[htole32] followed by the struct copy). *)
Definition le16 (x : Z) : list Z := Z_to_little_endian 2 8 x.
Definition le32 (x : Z) : list Z := Z_to_little_endian 4 8 x.

(** The field read back from [n] bytes at offset [off]
    (the struct copy followed by [le16toh]/[le32toh]). *)
Definition le_field (bytes : list Z) (off n : Z) : Z :=
  little_endian_to_Z 8 (slice bytes off n).

Definition encodeFrameHeader (header : FrameHeader) : list Z :=
  le16 (version header) ++ le16 (flags header)
    ++ le32 (serviceId header) ++ le32 (messageId header)
    ++ le32 (seq header) ++ le32 (payloadBytes header)
    ++ le32 (aux header).

(** [memcpy(&wire, bytes, sizeof(wire))] with each field converted from
    little-endian: the header a 24-byte buffer denotes. *)
Definition header_of_bytes (bytes : list Z) : FrameHeader :=
  mkFrameHeader (le_field bytes 0 2) (le_field bytes 2 2)
    (le_field bytes 4 4) (le_field bytes 8 4) (le_field bytes 12 4)
    (le_field bytes 16 4) (le_field bytes 20 4).

(** [out] is [None] for a null pointer and [Some h] for a pointer to a
    header currently holding [h]; the second component is [*out] after the
    call. *)
Definition decodeFrameHeader (bytes : list Z) (len : Z)
    (out : option FrameHeader) : bool * option FrameHeader :=
  match out with
  | None => (false, None)
  | Some _ =>
      if len <? sizeof_FrameHeader then (false, out)
      else (true, Some (header_of_bytes bytes))
  end.

(* ===================================================================== *)
(** * Shared region and system calls *)

Record SharedRegion : Type := mkRegion {
  clientToServer : RingBuffer;
  serverToClient : RingBuffer
}.

Definition set_clientToServer (r : SharedRegion) (rb : RingBuffer) :=
  mkRegion rb (serverToClient r).
Definition set_serverToClient (r : SharedRegion) (rb : RingBuffer) :=
  mkRegion (clientToServer r) rb.

Definition ring_write := write RING_BUFFER_SIZE.
Definition ring_peek := peek RING_BUFFER_SIZE.
Definition ring_read := read RING_BUFFER_SIZE.
Definition ring_skip := skip.
Definition ring_readAvailable := readAvailable.
Definition ring_writeAvailable := writeAvailable RING_BUFFER_SIZE.

(** The system calls the runtime makes, in the order it makes them. *)
Inductive Sys : Type :=
| SysSend (fd : Z) (bytes : list Z)        (* send(fd, bytes) *)
| SysSignal (fd : Z) (ret : Z)             (* sendSignalByte(fd) = ret *)
| SysClose (fd : Z)
| SysShutdown (fd : Z)
| SysMunmap
| SysSendFd (fd : Z) (ver : Z) (shm : Z)   (* sendFdWithVersion *)
| SysSpawn.                                (* std::thread started *)

(** One iteration of a receiver's inner [while (true)] loop up to the
    dispatch: the frame taken off [ring], or [None] where the loop breaks.
    The sum [sizeof(FrameHeader) + header.payloadBytes] is a [size_t] and
    does not wrap. *)
Definition take_frame (ring : RingBuffer)
    : option (FrameHeader * list Z * RingBuffer) :=
  match ring_peek ring sizeof_FrameHeader with
  | None => None
  | Some wireBytes =>
      let wire := header_of_bytes wireBytes in
      let raw := encodeFrameHeader wire in
      match decodeFrameHeader raw (u32 (Z.of_nat (length raw)))
                              (Some zeroHeader) with
      | (true, Some header) =>
          if ring_readAvailable ring <? sizeof_FrameHeader + payloadBytes header
          then None
          else
            let ring1 := snd (ring_skip ring sizeof_FrameHeader) in
            let zeros := replicate (Z.to_nat (payloadBytes header)) 0 in
            if payloadBytes header >? 0 then
              match ring_read ring1 (payloadBytes header) with
              | (Some dest, ring2) => Some (header, dest, ring2)
              | (None, ring2) => Some (header, zeros, ring2)
              end
            else Some (header, zeros, ring1)
      | _ => None
      end
  end.

(** A torn frame: the consumer sees a committed header whose declared
    payload is not all committed. *)
Definition torn_frame (ring : RingBuffer) : bool :=
  match ring_peek ring sizeof_FrameHeader with
  | Some wireBytes =>
      ring_readAvailable ring
        <? sizeof_FrameHeader + payloadBytes (header_of_bytes wireBytes)
  | None => false
  end.

(* ===================================================================== *)
(** * src/Client.cpp *)

Module Client.

(** [struct PendingCall]; the condition variable has no data. *)
Record PendingCall : Type := mkPending {
  done : bool;
  status : Z;          (* int *)
  response : list Z
}.

(** [PendingCall] objects live on the heap and are shared between the
    table [m_pending] and the local [pending] of the call that made
    them: [objects] is that heap, a table entry is an address in it. *)
Record t : Type := mk {
  m_socketFd : Z;
  m_shmFd : Z;
  m_region : option SharedRegion;     (* None: nullptr *)
  m_running : bool;
  m_nextSeq : Z;                      (* std::atomic<uint32_t> *)
  m_pending : gmap Z nat;
  objects : gmap nat PendingCall;
  m_notifyHandler : option nat;       (* the installed callable, if any *)
  notified : list (nat * Z * list Z)  (* handler invocations so far *)
}.

Definition set_fds (c : t) (sock shm : Z) : t :=
  mk sock shm (m_region c) (m_running c) (m_nextSeq c) (m_pending c)
     (objects c) (m_notifyHandler c) (notified c).
Definition set_region (c : t) (r : option SharedRegion) : t :=
  mk (m_socketFd c) (m_shmFd c) r (m_running c) (m_nextSeq c) (m_pending c)
     (objects c) (m_notifyHandler c) (notified c).
Definition set_running (c : t) (b : bool) : t :=
  mk (m_socketFd c) (m_shmFd c) (m_region c) b (m_nextSeq c) (m_pending c)
     (objects c) (m_notifyHandler c) (notified c).
Definition set_nextSeq (c : t) (n : Z) : t :=
  mk (m_socketFd c) (m_shmFd c) (m_region c) (m_running c) n (m_pending c)
     (objects c) (m_notifyHandler c) (notified c).
Definition set_pending (c : t) (m : gmap Z nat) : t :=
  mk (m_socketFd c) (m_shmFd c) (m_region c) (m_running c) (m_nextSeq c) m
     (objects c) (m_notifyHandler c) (notified c).
Definition set_objects (c : t) (o : gmap nat PendingCall) : t :=
  mk (m_socketFd c) (m_shmFd c) (m_region c) (m_running c) (m_nextSeq c)
     (m_pending c) o (m_notifyHandler c) (notified c).
Definition set_notified (c : t) (l : list (nat * Z * list Z)) : t :=
  mk (m_socketFd c) (m_shmFd c) (m_region c) (m_running c) (m_nextSeq c)
     (m_pending c) (objects c) (m_notifyHandler c) l.

(** A default-constructed client. *)
Definition fresh_client : t := mk (-1) (-1) None false 1 ∅ ∅ None [].

Definition setNotifyHandler (c : t) (handler : option nat) : t :=
  mk (m_socketFd c) (m_shmFd c) (m_region c) (m_running c) (m_nextSeq c)
     (m_pending c) (objects c) handler (notified c).

(** [for (auto& [_, pending] : m_pending) { pending->status = st;
    pending->done = true; }] *)
Definition fail_pending (st : Z) (c : t) : t :=
  set_objects c
    (map_fold (λ _ p o, alter (λ pc, mkPending true st (response pc)) p o)
              (objects c) (m_pending c)).

(** The release of region and descriptors that ends both branches of
    [disconnect]. *)
Definition release (c : t) : t * list Sys :=
  let tr :=
    (if m_region c is Some _ then [SysMunmap] else [])
      ++ (if m_shmFd c >=? 0 then [SysClose (m_shmFd c)] else [])
      ++ (if m_socketFd c >=? 0 then [SysClose (m_socketFd c)] else []) in
  (set_fds (set_region c None) (-1) (-1), tr).

(** In the running branch the receiver thread is joined; its exit marks
    every pending call disconnected before the marking with
    [RPC_ERR_STOPPED].  This is [disconnect] with no thread waiting in
    [call] taking [m_pendingMutex] between the return of [join] and the
    lock of [disconnect]; [disconnect_racing], below, has the schedules
    in which some do. *)
Definition disconnect (c : t) : t * list Sys :=
  if negb (m_running c) then release c
  else
    let c0 := set_running c false in
    let tr0 :=
      if m_socketFd c0 >=? 0 then [SysShutdown (m_socketFd c0)] else [] in
    let c1 := fail_pending RPC_ERR_DISCONNECTED c0 in
    let c2 := set_pending (fail_pending RPC_ERR_STOPPED c1) ∅ in
    let '(c3, tr1) := release c2 in
    (c3, tr0 ++ tr1).

(** What the system answers during one [connect]. *)
Record ConnectEnv : Type := mkConnectEnv {
  env_sock : nat → Z;               (* connectClientSocket, by attempt *)
  env_shm : Z;                      (* createSharedMemory *)
  env_mmap : option SharedRegion;   (* None: MAP_FAILED *)
  env_sendfd : Z;                   (* sendFdWithVersion *)
  env_recv : Z;                     (* recv of the ACK *)
  env_ack : Z                       (* the byte received, if any *)
}.

(** The retry loop: [n] attempts left, attempt number [i]. *)
Fixpoint connect_attempts (sock : nat → Z) (fd : Z) (i n : nat) : Z :=
  match n with
  | O => fd
  | S n' =>
      let fd' := sock i in
      if fd' >=? 0 then fd' else connect_attempts sock fd' (S i) n'
  end.

(** [connect] of a client that is not running.  (On a running client
    the last step assigns to [m_receiverThread] while it is joinable,
    which ends the program; what is said of a [connect] that succeeds
    assumes [m_running c = false].) *)
Definition connect (c : t) (ver : Z) (maxAttempts : Z) (env : ConnectEnv)
    : bool * t * list Sys :=
  let fd :=
    connect_attempts (env_sock env) (m_socketFd c) 0 (Z.to_nat maxAttempts) in
  if fd <? 0 then (false, set_fds c fd (m_shmFd c), [])
  else
    let shm := env_shm env in
    if shm <? 0 then (false, set_fds c (-1) shm, [SysClose fd])
    else
      match env_mmap env with
      | None => (false, set_fds c (-1) (-1), [SysClose shm; SysClose fd])
      | Some mem =>
          let region := mkRegion (reset (clientToServer mem))
                                 (reset (serverToClient mem)) in
          let c1 := set_region (set_fds c fd shm) (Some region) in
          let sent := SysSendFd fd ver shm in
          if env_sendfd env <=? 0 then
            let '(c2, tr) := disconnect c1 in (false, c2, sent :: tr)
          else
            let ack := if env_recv env <=? 0 then 0 else env_ack env in
            if (env_recv env <=? 0) || (ack =? 0) then
              let '(c2, tr) := disconnect c1 in (false, c2, sent :: tr)
            else (true, set_running c1 true, [sent; SysSpawn])
      end.

(** [call] up to the wait on the condition variable: either it has
    returned, or it blocks holding [pending] for [seq]. *)
Inductive CallPhase : Type :=
| Returned (st : Z)
| Waiting (seq : Z) (pending : nat).

Definition request_header (serviceId methodId seq : Z) (request : list Z)
    : FrameHeader :=
  mkFrameHeader PROTOCOL_VERSION FRAME_REQUEST serviceId methodId seq
                (u32 (Z.of_nat (length request))) 0.

(** [sendSig] is what [sendSignalByte] returns if it is reached. *)
Definition call_begin (c : t) (serviceId methodId : Z) (request : list Z)
    (sendSig : Z) : CallPhase * t * list Sys :=
  match m_region c with
  | Some region =>
      if negb (m_running c) then (Returned RPC_ERR_DISCONNECTED, c, [])
      else
        let seq := m_nextSeq c in
        let c := set_nextSeq c (u32 (seq + 1)) in
        let header := request_header serviceId methodId seq request in
        let encoded := encodeFrameHeader header in
        let '(ok1, ring1) :=
          ring_write (clientToServer region) encoded
                     (u32 (Z.of_nat (length encoded))) in
        let c := set_region c (Some (set_clientToServer region ring1)) in
        if negb ok1 then (Returned RPC_ERR_RING_FULL, c, [])
        else
          let '(ok2, ring2) :=
            ring_write ring1 request (payloadBytes header) in
          let c := set_region c (Some (set_clientToServer region ring2)) in
          if negb ok2 then (Returned RPC_ERR_RING_FULL, c, [])
          else
            let pending := fresh (dom (objects c)) in
            let c := set_objects c
                       (<[pending := mkPending false RPC_SUCCESS []]>
                          (objects c)) in
            let c := set_pending c (<[seq := pending]> (m_pending c)) in
            let tr := [SysSignal (m_socketFd c) sendSig] in
            if sendSig <=? 0 then (Returned RPC_ERR_DISCONNECTED, c, tr)
            else (Waiting seq pending, c, tr)
  | None => (Returned RPC_ERR_DISCONNECTED, c, [])
  end.

(** [call] from the return of [wait_for]: [response] is the caller's
    vector ([None]: null pointer), returned as it is afterwards.
    [wait_for] returns the value of [pending->done]. *)
Definition call_finish (c : t) (seq : Z) (pending : nat)
    (response : option (list Z)) : Z * t * option (list Z) :=
  let pc := default (mkPending false RPC_SUCCESS []) (objects c !! pending) in
  if negb (done pc) then
    (RPC_ERR_TIMEOUT, set_pending c (delete seq (m_pending c)), response)
  else
    let st := status pc in
    let response' :=
      match response with
      | Some old => if st =? RPC_SUCCESS then Some (Client.response pc)
                    else Some old
      | None => None
      end in
    (st, set_pending c (delete seq (m_pending c)), response').

Definition notify_header (serviceId notifyId : Z) (payload : list Z)
    : FrameHeader :=
  mkFrameHeader PROTOCOL_VERSION FRAME_NOTIFY serviceId notifyId 0
                (u32 (Z.of_nat (length payload))) 0.

Definition notify (c : t) (serviceId notifyId : Z) (payload : list Z)
    (sendSig : Z) : Z * t * list Sys :=
  match m_region c with
  | Some region =>
      if negb (m_running c) then (RPC_ERR_DISCONNECTED, c, [])
      else
        let header := notify_header serviceId notifyId payload in
        let encoded := encodeFrameHeader header in
        let '(ok1, ring1) :=
          ring_write (clientToServer region) encoded
                     (u32 (Z.of_nat (length encoded))) in
        let c := set_region c (Some (set_clientToServer region ring1)) in
        if negb ok1 then (RPC_ERR_RING_FULL, c, [])
        else
          let '(ok2, ring2) :=
            ring_write ring1 payload (payloadBytes header) in
          let c := set_region c (Some (set_clientToServer region ring2)) in
          if negb ok2 then (RPC_ERR_RING_FULL, c, [])
          else
            (if sendSig >? 0 then RPC_SUCCESS else RPC_ERR_DISCONNECTED,
             c, [SysSignal (m_socketFd c) sendSig])
  | None => (RPC_ERR_DISCONNECTED, c, [])
  end.

(** The dispatch at the end of one receiver iteration. *)
Definition on_frame (c : t) (header : FrameHeader) (payload : list Z) : t :=
  if negb (Z.land (flags header) FRAME_RESPONSE =? 0) then
    match m_pending c !! seq header with
    | Some p =>
        set_objects c
          (alter (λ _, mkPending true (s32 (aux header)) payload) p
                 (objects c))
    | None => c
    end
  else if negb (Z.land (flags header) FRAME_NOTIFY =? 0) then
    match m_notifyHandler c with
    | Some handler =>
        set_notified c (notified c ++ [(handler, messageId header, payload)])
    | None => c
    end
  else c.

(** One iteration of the inner loop of [receiverLoop]; [None]: break. *)
Definition receiver_iter (c : t) : option t :=
  match m_region c with
  | Some region =>
      match take_frame (serverToClient region) with
      | Some (header, payload, ring') =>
          Some (on_frame
                  (set_region c (Some (set_serverToClient region ring')))
                  header payload)
      | None => None
      end
  | None => None
  end.

(** The end of [receiverLoop]. *)
Definition receiver_exit (c : t) : t := fail_pending RPC_ERR_DISCONNECTED c.

(** The inner [while (true)] loop of [receiverLoop], at most [n]
    iterations of it. *)
Fixpoint drain_n (n : nat) (c : t) : t :=
  match n with
  | O => c
  | S n' =>
      match receiver_iter c with
      | Some c' => drain_n n' c'
      | None => c
      end
  end.

(** The inner loop: an iteration that does not break takes at least a
    header off the ring, so it breaks within this many iterations. *)
Definition drain (c : t) : t :=
  match m_region c with
  | Some region =>
      drain_n (S (Z.to_nat (ring_readAvailable (serverToClient region)
                            / sizeof_FrameHeader))) c
  | None => c
  end.

(** The dispatch of a list of frames, first to last. *)
Definition dispatch_all (c : t) (frames : list (FrameHeader * list Z)) : t :=
  foldl (λ c f, on_frame c f.1 f.2) c frames.

(** [disconnect] of a running client, seen by the threads that wait in
    [call].  Up to the return of [join]: the flag is cleared, the socket
    shut down, and the receiver, on its way out, has marked every pending
    call. *)
Definition disconnect_join (c : t) : t * list Sys :=
  let c0 := set_running c false in
  (fail_pending RPC_ERR_DISCONNECTED c0,
   if m_socketFd c0 >=? 0 then [SysShutdown (m_socketFd c0)] else []).

(** The callers woken by the receiver's exit that take [m_pendingMutex]
    before [disconnect] does: each returns from [call].  [woken] has
    their [seq], [PendingCall] and vector, in the order in which they
    take the lock. *)
Definition callers_return (c : t)
    (woken : list (Z * nat * option (list Z))) : t :=
  foldl (λ c w, (call_finish c w.1.1 w.1.2 w.2).1.2) c woken.

(** From the lock on: what is still in the table is marked, the table is
    cleared, region and descriptors are released. *)
Definition disconnect_finish (c : t) : t * list Sys :=
  release (set_pending (fail_pending RPC_ERR_STOPPED c) ∅).

Definition disconnect_racing (c : t)
    (woken : list (Z * nat * option (list Z))) : t * list Sys :=
  let '(c1, tr0) := disconnect_join c in
  let '(c3, tr1) := disconnect_finish (callers_return c1 woken) in
  (c3, tr0 ++ tr1).

End Client.

(* ===================================================================== *)
(** * src/Service.cpp *)

Module Service.

(** [RequestHandler]: from the message id and the request to the status
    and the bytes left in [*response]. *)
Definition RequestHandler : Type := Z → list Z → Z * list Z.

(** [struct Connection], without its thread. *)
Record Connection : Type := mkConnection {
  socketFd : Z;
  shmFd : Z;
  region : option SharedRegion        (* None: nullptr *)
}.

Record t : Type := mk {
  m_listenFd : Z;
  m_running : bool;
  m_connections : list Connection;
  m_handler : option RequestHandler
}.

Definition set_region (c : Connection) (r : SharedRegion) : Connection :=
  mkConnection (socketFd c) (shmFd c) (Some r).

Definition set_connections (s : t) (l : list Connection) : t :=
  mk (m_listenFd s) (m_running s) l (m_handler s).

Definition setRequestHandler (s : t) (handler : option RequestHandler) : t :=
  mk (m_listenFd s) (m_running s) (m_connections s) handler.

Definition notify_header (serviceId notifyId : Z) (payload : list Z)
    : FrameHeader :=
  mkFrameHeader PROTOCOL_VERSION FRAME_NOTIFY serviceId notifyId 0
                (u32 (Z.of_nat (length payload))) 0.

(** The body of the [for] loop of [notify] on one connection:
    [inl st] is [return st], [inr] falls through to the next connection.
    [sendSignal fd] is what [sendSignalByte(fd)] returns. *)
Definition notify_one (sendSignal : Z → Z) (header : FrameHeader)
    (payload : list Z) (c : Connection)
    : (Z + unit) * Connection * list Sys :=
  match region c with
  | None => (inr (), c, [])
  | Some r =>
      let encoded := encodeFrameHeader header in
      let '(ok1, ring1) :=
        ring_write (serverToClient r) encoded
                   (u32 (Z.of_nat (length encoded))) in
      let c1 := set_region c (set_serverToClient r ring1) in
      if negb ok1 then (inl RPC_ERR_RING_FULL, c1, [])
      else
        let '(ok2, ring2) :=
          ring_write ring1 payload (payloadBytes header) in
        let c2 := set_region c (set_serverToClient r ring2) in
        if negb ok2 then (inl RPC_ERR_RING_FULL, c2, [])
        else
          let ret := sendSignal (socketFd c) in
          if ret <=? 0
          then (inl RPC_ERR_DISCONNECTED, c2, [SysSignal (socketFd c) ret])
          else (inr (), c2, [SysSignal (socketFd c) ret])
  end.

Fixpoint notify_loop (sendSignal : Z → Z) (header : FrameHeader)
    (payload : list Z) (conns : list Connection)
    : Z * list Connection * list Sys :=
  match conns with
  | [] => (RPC_SUCCESS, [], [])
  | c :: rest =>
      match notify_one sendSignal header payload c with
      | (inl st, c', tr) => (st, c' :: rest, tr)
      | (inr _, c', tr) =>
          let '(st, rest', tr') :=
            notify_loop sendSignal header payload rest in
          (st, c' :: rest', tr ++ tr')
      end
  end.

Definition notify (s : t) (serviceId notifyId : Z) (payload : list Z)
    (sendSignal : Z → Z) : Z * t * list Sys :=
  let header := notify_header serviceId notifyId payload in
  let '(st, conns, tr) :=
    notify_loop sendSignal header payload (m_connections s) in
  (st, set_connections s conns, tr).

(** What the system answers during one iteration of [acceptLoop]. *)
Record AcceptEnv : Type := mkAcceptEnv {
  acc_clientFd : Z;               (* accept4 *)
  acc_recv : Z;                   (* recvFdWithVersion *)
  acc_version : Z;                (* the version received, if any *)
  acc_fd : Z;                     (* the descriptor received, -1 if none *)
  acc_mmap : option SharedRegion  (* None: MAP_FAILED *)
}.

(** One iteration of [acceptLoop] after [accept4] has returned. *)
Definition accept_one (s : t) (env : AcceptEnv) : t * list Sys :=
  let clientFd := acc_clientFd env in
  if clientFd <? 0 then (s, [])
  else
    let version := if acc_recv env <=? 0 then 0 else acc_version env in
    let shmFd := if acc_recv env <=? 0 then -1 else acc_fd env in
    if (acc_recv env <=? 0) || (shmFd <? 0) then (s, [SysClose clientFd])
    else
      let ack := if version =? PROTOCOL_VERSION then 1 else 0 in
      let sent := SysSend clientFd [ack] in
      if ack =? 0 then (s, [sent; SysClose shmFd; SysClose clientFd])
      else
        match acc_mmap env with
        | None => (s, [sent; SysClose shmFd; SysClose clientFd])
        | Some mem =>
            let connection := mkConnection clientFd shmFd (Some mem) in
            (set_connections s (m_connections s ++ [connection]),
             [sent; SysSpawn])
        end.

Definition response_header (header : FrameHeader) (st : Z)
    (responsePayload : list Z) : FrameHeader :=
  mkFrameHeader PROTOCOL_VERSION FRAME_RESPONSE (serviceId header)
                (messageId header) (seq header)
                (u32 (Z.of_nat (length responsePayload))) (u32 st).

(** The status and response bytes computed for a request: the handler is
    called if one is installed. *)
Definition run_handler (handler : option RequestHandler)
    (header : FrameHeader) (payload : list Z) : Z * list Z :=
  match handler with
  | Some h => h (messageId header) payload
  | None => (RPC_ERR_INVALID_METHOD, [])
  end.

(** The dispatch at the end of one iteration of the inner loop of
    [connectionLoop], on the region of the connection. *)
Definition on_frame (handler : option RequestHandler) (sendSig : Z)
    (c : Connection) (r : SharedRegion) (header : FrameHeader)
    (payload : list Z) : Connection * list Sys :=
  if negb (Z.land (flags header) FRAME_REQUEST =? 0) then
    let '(st, responsePayload) := run_handler handler header payload in
    let response := response_header header st responsePayload in
    let encoded := encodeFrameHeader response in
    let '(ok1, ring1) :=
      ring_write (serverToClient r) encoded
                 (u32 (Z.of_nat (length encoded))) in
    if negb ok1 then (set_region c (set_serverToClient r ring1), [])
    else
      let '(ok2, ring2) :=
        ring_write ring1 responsePayload (payloadBytes response) in
      let c2 := set_region c (set_serverToClient r ring2) in
      if negb ok2 then (c2, [])
      else (c2, [SysSignal (socketFd c) sendSig])
  else (set_region c r, []).

(** One iteration of the inner loop of [connectionLoop]; [None]: break. *)
Definition connection_iter (s : t) (sendSig : Z) (c : Connection)
    : option (Connection * list Sys) :=
  match region c with
  | Some r =>
      match take_frame (clientToServer r) with
      | Some (header, payload, ring') =>
          Some (on_frame (m_handler s) sendSig c
                         (set_clientToServer r ring') header payload)
      | None => None
      end
  | None => None
  end.

Definition start (s : t) (listenFd : Z) : bool * t * list Sys :=
  if listenFd <? 0 then
    (false, mk listenFd (m_running s) (m_connections s) (m_handler s), [])
  else (true, mk listenFd true (m_connections s) (m_handler s), [SysSpawn]).

Definition closeConnection (c : Connection) : Connection * list Sys :=
  ((mkConnection (-1) (-1) None),
   (if region c is Some _ then [SysMunmap] else [])
     ++ (if shmFd c >=? 0 then [SysClose (shmFd c)] else [])
     ++ (if socketFd c >=? 0 then [SysClose (socketFd c)] else [])).

(** [stop]: the acceptor and the connection threads are joined where the
    code joins them; they make no further system call once their sockets
    are shut down. *)
Definition stop (s : t) : t * list Sys :=
  if negb (m_running s) then (s, [])
  else
    let tr_listen :=
      if m_listenFd s >=? 0
      then [SysShutdown (m_listenFd s); SysClose (m_listenFd s)] else [] in
    let listenFd := if m_listenFd s >=? 0 then -1 else m_listenFd s in
    let tr_shutdown :=
      flat_map (λ c, if socketFd c >=? 0 then [SysShutdown (socketFd c)]
                     else [])
               (m_connections s) in
    let tr_close := flat_map (λ c, snd (closeConnection c)) (m_connections s) in
    (mk listenFd false [] (m_handler s),
     tr_listen ++ tr_shutdown ++ tr_close).

(** Header and payload were both written to the [serverToClient] ring of
    [r], which became [ring2]. *)
Definition frame_written (header : FrameHeader) (payload : list Z)
    (r : SharedRegion) (ring2 : RingBuffer) : Prop :=
  ∃ ring1,
    ring_write (serverToClient r) (encodeFrameHeader header)
               (u32 (Z.of_nat (length (encodeFrameHeader header))))
      = (true, ring1)
    ∧ ring_write ring1 payload (payloadBytes header) = (true, ring2).

(** [notify] went past connection [a], leaving it as [a'] with the system
    calls [tr]: a connection without region is skipped, any other got
    the frame and a signal byte that was sent. *)
Definition delivered (sendSignal : Z → Z) (header : FrameHeader)
    (payload : list Z) (a a' : Connection) (tr : list Sys) : Prop :=
  match region a with
  | None => a' = a ∧ tr = []
  | Some r =>
      ∃ ring2,
        frame_written header payload r ring2
        ∧ a' = set_region a (set_serverToClient r ring2)
        ∧ 0 < sendSignal (socketFd a)
        ∧ tr = [SysSignal (socketFd a) (sendSignal (socketFd a))]
  end.

(** [notify] returned [st] at connection [c]: a ring write failed, or
    the frame was written and the signal send failed. *)
Definition failed (sendSignal : Z → Z) (header : FrameHeader)
    (payload : list Z) (c : Connection) (st : Z) (c' : Connection)
    (tr : list Sys) : Prop :=
  ∃ r,
    region c = Some r
    ∧ ((st = RPC_ERR_RING_FULL ∧ tr = []
        ∧ ¬ ∃ ring2, frame_written header payload r ring2)
       ∨ (st = RPC_ERR_DISCONNECTED
          ∧ sendSignal (socketFd c) ≤ 0
          ∧ tr = [SysSignal (socketFd c) (sendSignal (socketFd c))]
          ∧ ∃ ring2,
              frame_written header payload r ring2
              ∧ c' = set_region c (set_serverToClient r ring2))).

End Service.

(* ===================================================================== *)
(** * src/EventDispatcher.cpp *)

Module EventDispatcher.

(** What a posted callable or a callback does, as far as the dispatcher
    is concerned: work of the user's own, recorded under a number, or a
    call back into the dispatcher. *)
Inductive Action : Type :=
| Note (id : nat)
| DoStop                      (* stop() *)
| DoPost (id : nat)           (* post([] { Note id }) *)
| DoRemoveFd (fd : Z).        (* removeFd(fd) *)

Definition Callable : Type := list Action.

(** An entry of the log: the work done, and for a callback the [fd] and
    event mask it was invoked with. *)
Definition LogEntry : Type := nat * option (Z * Z).

(** [FdEntry] holds a [std::function], which may be empty ([None]).
    [pipe] is the number of bytes waiting in the wakeup pipe. *)
Record t : Type := mk {
  m_running : bool;
  m_stopRequested : bool;
  m_fdEntries : list (Z * option Callable);
  m_postQueue : list Callable;
  pipe : Z;
  log : list LogEntry
}.

(** [reinterpret_cast<void*>(uintptr_t(1))], compared with the [data] of
    an event, which for a descriptor entry holds the descriptor. *)
Definition WAKEUP_TAG : Z := 1.

(** The capacity of the (non-blocking) wakeup pipe. *)
Definition PIPE_CAPACITY : Z := 65536.

(** A dispatcher after its constructor. *)
Definition fresh : t := mk false false [] [] 0 [].

Definition set_entries (d : t) (l : list (Z * option Callable)) : t :=
  mk (m_running d) (m_stopRequested d) l (m_postQueue d) (pipe d) (log d).
Definition set_queue (d : t) (q : list Callable) : t :=
  mk (m_running d) (m_stopRequested d) (m_fdEntries d) q (pipe d) (log d).
Definition set_pipe (d : t) (n : Z) : t :=
  mk (m_running d) (m_stopRequested d) (m_fdEntries d) (m_postQueue d) n
     (log d).
Definition set_log (d : t) (l : list LogEntry) : t :=
  mk (m_running d) (m_stopRequested d) (m_fdEntries d) (m_postQueue d)
     (pipe d) l.
Definition set_flags (d : t) (running stopRequested : bool) : t :=
  mk running stopRequested (m_fdEntries d) (m_postQueue d) (pipe d) (log d).

(** One byte written to the pipe; the write fails, unnoticed, when the
    pipe is full. *)
Definition wakeup (d : t) : t :=
  if pipe d <? PIPE_CAPACITY then set_pipe d (pipe d + 1) else d.

Definition stop (d : t) : t :=
  wakeup (set_flags d (m_running d) true).

Definition post (d : t) (fn : Callable) : t :=
  wakeup (set_queue d (m_postQueue d ++ [fn])).

(** [ctl] is what [epoll_ctl(EPOLL_CTL_ADD)] returns. *)
Definition addFd (d : t) (fd : Z) (callback : option Callable) (ctl : Z)
    : Z * t :=
  if ctl <? 0 then (-1, d)
  else (0, set_entries d (m_fdEntries d ++ [(fd, callback)])).

Definition removeFd (d : t) (fd : Z) : Z * t :=
  match list_find (λ e, e.1 = fd) (m_fdEntries d) with
  | Some (i, _) => (0, set_entries d (delete i (m_fdEntries d)))
  | None => (-1, d)
  end.

(** The callback found for [fd] during dispatch: that of the first entry
    for [fd], if it is not empty. *)
Definition find_callback (d : t) (fd : Z) : option Callable :=
  match list_find (λ e, e.1 = fd) (m_fdEntries d) with
  | Some (_, (_, cb)) => cb
  | None => None
  end.

Definition exec_action (ctx : option (Z * Z)) (d : t) (a : Action) : t :=
  match a with
  | Note id => set_log d (log d ++ [(id, ctx)])
  | DoStop => stop d
  | DoPost id => post d [Note id]
  | DoRemoveFd fd => snd (removeFd d fd)
  end.

Definition exec (ctx : option (Z * Z)) (d : t) (fn : Callable) : t :=
  foldl (exec_action ctx) d fn.

(** The start of a loop iteration: the queue is swapped out and its
    callables run in order. *)
Definition exec_batch (d : t) : t :=
  foldl (exec None) (set_queue d []) (m_postQueue d).

(** One event returned by [epoll_wait]: its [data] and its mask. *)
Definition dispatch_event (d : t) (ev : Z * Z) : t :=
  if ev.1 =? WAKEUP_TAG then set_pipe d 0
  else
    match find_callback d ev.1 with
    | Some cb => exec (Some (ev.1, ev.2)) d cb
    | None => d
    end.

Definition dispatch (d : t) (events : list (Z * Z)) : t :=
  foldl dispatch_event d events.

(** The two stores that end [run]. *)
Definition run_exit (d : t) : t := set_flags d false false.

(** The loop of [run] against the successive results of [epoll_wait];
    the flag says whether [run] returned, or is blocked in an
    [epoll_wait] for which no result is given. *)
Fixpoint run_loop (waits : list (list (Z * Z))) (d : t) : t * bool :=
  if m_stopRequested d then (run_exit d, true)
  else
    match waits with
    | [] => (exec_batch d, false)
    | events :: waits' => run_loop waits' (dispatch (exec_batch d) events)
    end.

Definition run (waits : list (list (Z * Z))) (d : t) : t * bool :=
  run_loop waits (set_flags d true (m_stopRequested d)).

End EventDispatcher.

(* ===================================================================== *)
(** * Bytes, frames and queues *)

(** Every element is a [uint8_t]. *)
Definition bytes_ok (l : list Z) : Prop := Forall (λ b, 0 ≤ b < 2 ^ 8) l.

(** A frame as it lies in a ring, and a frame whose header can be held
    in a [FrameHeader] and declares the length of its payload. *)
Definition frame_bytes (f : FrameHeader * list Z) : list Z :=
  encodeFrameHeader f.1 ++ f.2.
Definition frame_ok (f : FrameHeader * list Z) : Prop :=
  header_ok f.1 ∧ payloadBytes f.1 = Z.of_nat (length f.2).

(** The ring as a bounded queue of bytes: what each operation does to the
    unread contents. *)
Definition queue_op (Size : Z) (o : RingOp) (q : list Z) : list Z :=
  match o with
  | OpReset => []
  | OpWrite data len =>
      if Size - Z.of_nat (length q) <? len then q
      else q ++ take (Z.to_nat len) data
  | OpRead len | OpSkip len =>
      if Z.of_nat (length q) <? len then q else drop (Z.to_nat len) q
  | OpPeek len => q
  end.

Definition run_ops (Size : Z) (ops : list RingOp) (rb : RingBuffer)
    : RingBuffer :=
  foldl (λ rb o, run_op Size o rb) rb ops.

Definition queue_ops (Size : Z) (ops : list RingOp) (q : list Z) : list Z :=
  foldl (λ q o, queue_op Size o q) q ops.

(** The descriptors a trace closes, in order. *)
Definition closed_fds (tr : list Sys) : list Z :=
  omap (λ e, match e with SysClose fd => Some fd | _ => None end) tr.

(** A connection [notify] can serve: without region it is skipped,
    otherwise its [serverToClient] ring has room for the frame and the
    signal byte can be sent. *)
Definition notify_ready (sendSignal : Z → Z) (payload : list Z)
    (c : Service.Connection) : Prop :=
  match Service.region c with
  | None => True
  | Some r =>
      ring_ok RING_BUFFER_SIZE (serverToClient r)
      ∧ 24 + Z.of_nat (length payload)
          ≤ ring_writeAvailable (serverToClient r)
      ∧ 0 < sendSignal (Service.socketFd c)
  end.

(** Connection [c] became [c'] by getting frame [f] at the end of its
    [serverToClient] ring, if it has a region, and nothing else. *)
Definition got_frame (f : FrameHeader * list Z)
    (c c' : Service.Connection) : Prop :=
  Service.socketFd c' = Service.socketFd c
  ∧ Service.shmFd c' = Service.shmFd c
  ∧ match Service.region c with
    | None => Service.region c' = None
    | Some r =>
        ∃ ring',
          Service.region c' = Some (set_serverToClient r ring')
          ∧ ring_ok RING_BUFFER_SIZE ring'
          ∧ contents RING_BUFFER_SIZE ring'
              = contents RING_BUFFER_SIZE (serverToClient r) ++ frame_bytes f
    end.

(** One signal byte to every connection that has a region, in order. *)
Definition signals_sent (sendSignal : Z → Z)
    (conns : list Service.Connection) : list Sys :=
  flat_map (λ c, if Service.region c is Some _
                 then [SysSignal (Service.socketFd c)
                                 (sendSignal (Service.socketFd c))]
                 else []) conns.

(** A callable that only does work of its own, and the log entries that
    work leaves when run with [ctx]. *)
Definition work (ids : list nat) : EventDispatcher.Callable :=
  EventDispatcher.Note <$> ids.
Definition logged (ctx : option (Z * Z)) (ids : list nat)
    : list EventDispatcher.LogEntry :=
  (λ id, (id, ctx)) <$> ids.

(* ===================================================================== *)
(** * Sample states *)

(** The header of the codec unit test. *)
Definition sample_header : FrameHeader := mkFrameHeader 1 1 3 8 11 17 55.

(** A ring of 4096 bytes whose next write of more than 6 bytes wraps. *)
Definition small_ring : RingBuffer :=
  mkRing 4090 4000 (replicate 4096 0).

(** A ring in freshly mapped (zeroed) shared memory, and one that the
    consumer has not drained since the producer filled it. *)
Definition zero_ring : RingBuffer :=
  mkRing 0 0 (replicate (Z.to_nat RING_BUFFER_SIZE) 0).
Definition full_ring : RingBuffer :=
  mkRing RING_BUFFER_SIZE 0 (replicate (Z.to_nat RING_BUFFER_SIZE) 0).

Definition zero_region : SharedRegion := mkRegion zero_ring zero_ring.

(** A client after a successful [connect] on socket 3 with shared memory
    descriptor 4. *)
Definition good_env : Client.ConnectEnv :=
  Client.mkConnectEnv (λ _, 3) 4 (Some zero_region) 2 1 1.
Definition connected_client : Client.t :=
  (Client.connect Client.fresh_client PROTOCOL_VERSION 200 good_env).1.2.

(** The request of the round-trip scenario, [u32_le(41)], and a request as
    large as the ring. *)
Definition small_request : list Z := [41; 0; 0; 0].
Definition huge_request : list Z := replicate (Z.to_nat RING_BUFFER_SIZE) 7.

(** The client blocked in its first call. *)
Definition waiting_client : Client.t :=
  (Client.call_begin connected_client 1 7 small_request 1).1.2.

(** A client asking for version 2, and what the server sees of it. *)
Definition nack_env : Client.ConnectEnv :=
  Client.mkConnectEnv (λ _, 3) 4 (Some zero_region) 2 1 0.
Definition mismatch_env : Service.AcceptEnv :=
  Service.mkAcceptEnv 7 2 2 8 (Some zero_region).

Definition idle_service : Service.t := Service.mk 5 true [] None.

(** The first request of [connected_client], and two responses to it: the
    one of the round-trip scenario, and one with a status of the handler's
    own and a payload. *)
Definition sample_request : FrameHeader :=
  Client.request_header 1 7 1 small_request.
Definition sample_response : FrameHeader :=
  Service.response_header sample_request RPC_SUCCESS [42; 0; 0; 0].
Definition status5_response : FrameHeader :=
  Service.response_header sample_request 5 [9].

Definition sample_connection : Service.Connection :=
  Service.mkConnection 10 20 (Some zero_region).

(** The region of [waiting_client], and the server's connection to it. *)
Definition waiting_region : SharedRegion :=
  default zero_region (Client.m_region waiting_client).
Definition waiting_connection : Service.Connection :=
  Service.mkConnection 10 20 (Some waiting_region).

(** The handler of the round-trip scenario: method 7 answers the request
    plus one, every other method is invalid. *)
Definition add_one_handler : Service.RequestHandler :=
  λ messageId request,
    if messageId =? 7 then (RPC_SUCCESS, le32 (u32 (le_field request 0 4 + 1)))
    else (RPC_ERR_INVALID_METHOD, []).

(** The round trip of the first call of [connected_client] against a
    service with [handler]: the request is written, the connection's
    receiver dispatches it, the client's receiver takes the response, and
    [call] returns with the caller's vector initially empty. *)
Definition round_trip (handler : option Service.RequestHandler)
    (request : list Z) : option (Z * option (list Z)) :=
  match Client.call_begin connected_client 1 7 request 1 with
  | (Client.Waiting seq pending, c1, _) =>
      let s := Service.mk 5 true [] handler in
      match Service.connection_iter s 1
              (Service.mkConnection 10 20 (Client.m_region c1)) with
      | Some (conn', _) =>
          match Client.receiver_iter
                  (Client.set_region c1 (Service.region conn')) with
          | Some c2 =>
              let res := Client.call_finish c2 seq pending (Some []) in
              Some (res.1.1, res.2)
          | None => None
          end
      | None => None
      end
  | _ => None
  end.

(** A handler whose response is as large as the ring. *)
Definition huge_handler : Service.RequestHandler :=
  λ _ _, (RPC_SUCCESS, huge_request).

(** The [head] of the ring a client, or a connection, writes to. *)
Definition client_head (c : Client.t) : option Z :=
  ctrl_head ∘ clientToServer <$> Client.m_region c.
Definition server_head (c : Service.Connection) : option Z :=
  ctrl_head ∘ serverToClient <$> Service.region c.
Definition client_torn (c : Client.t) : option bool :=
  torn_frame ∘ clientToServer <$> Client.m_region c.
Definition server_torn (c : Service.Connection) : option bool :=
  torn_frame ∘ serverToClient <$> Service.region c.

(** Sixteen bytes to write, and an empty ring of 4096 bytes. *)
Definition sixteen : list Z := seqZ 1 16.
Definition fresh_small_ring : RingBuffer := mkRing 0 0 (replicate 4096 0).

(** A service with two connections, the second of which has a full
    [serverToClient] ring. *)
Definition two_clients : Service.t :=
  Service.mk 5 true
    [Service.mkConnection 10 20 (Some zero_region);
     Service.mkConnection 11 21 (Some (mkRegion zero_ring full_ring))]
    None.

(** A [serverToClient] ring holding the response of the round-trip
    scenario and the first ten bytes of another frame, and the waiting
    client in front of it. *)
Definition partial_ring : RingBuffer :=
  (ring_write
     (ring_write zero_ring (frame_bytes (sample_response, [42; 0; 0; 0]))
                 28).2
     (take 10 (encodeFrameHeader sample_request)) 10).2.
Definition draining_client : Client.t :=
  Client.set_region waiting_client (Some (mkRegion zero_ring partial_ring)).

(** A service with the handler of the round-trip scenario; a connection
    holding the first request whose [serverToClient] ring is full; a
    service with a connection that has no region. *)
Definition adding_service : Service.t :=
  Service.setRequestHandler idle_service (Some add_one_handler).
Definition full_region : SharedRegion :=
  mkRegion (clientToServer waiting_region) full_ring.
Definition full_connection : Service.Connection :=
  Service.mkConnection 10 20 (Some full_region).
Definition mixed_service : Service.t :=
  Service.mk 5 true [sample_connection; Service.mkConnection 11 (-1) None]
             None.

(** Operations on [small_ring], and 24 bytes to decode. *)
Definition sample_ops : list RingOp :=
  [OpWrite sixteen 16; OpRead 2; OpPeek 4; OpSkip 3; OpWrite sixteen 16].
Definition sample_bytes : list Z :=
  [1; 2; 3; 4; 5; 6; 7; 8; 9; 10; 11; 12; 13; 14; 15; 16; 17; 18; 19; 20;
   255; 255; 255; 255].

(** A service without handler that has just sent its one client a
    notification leaving 10 bytes free in the [serverToClient] ring; the
    connection's receiver then takes the client's first request, and the
    client's receiver runs on what that left. *)
Definition big_notification : list Z :=
  replicate (Z.to_nat (RING_BUFFER_SIZE - 34)) 7.
Definition busy_service : Service.t :=
  (Service.notify (Service.mk 5 true [waiting_connection] None) 1 99
                  big_notification (λ _, 1)).1.2.
Definition busy_connection : Service.Connection :=
  default waiting_connection (head (Service.m_connections busy_service)).
Definition unanswered : option (Service.Connection * list Sys) :=
  Service.connection_iter busy_service 1 busy_connection.
Definition starved_client : Client.t :=
  Client.drain
    (Client.set_region waiting_client
       (unanswered ≫= (Service.region ∘ fst))).

(** The waiting client blocked in a second call as well. *)
Definition two_waiting : Client.t :=
  (Client.call_begin waiting_client 1 8 small_request 1).1.2.

(** A dispatcher watching descriptors 6 and 5; the callback of 6 removes
    5.  The same with a second registration of 5. *)
Definition watching : EventDispatcher.t :=
  (EventDispatcher.addFd
     (EventDispatcher.addFd EventDispatcher.fresh 6
        (Some (EventDispatcher.DoRemoveFd 5 :: work [9%nat])) 0).2
     5 (Some (work [1%nat])) 0).2.
Definition watching_twice : EventDispatcher.t :=
  (EventDispatcher.addFd watching 5 (Some (work [2%nat])) 0).2.

(* ===================================================================== *)
(** * Arithmetic of the offsets *)

(** [Size] is a [uint32_t] and passes the [static_assert]. *)
Definition size_ok (Size : Z) : Prop := ∃ k, 0 ≤ k ≤ 31 ∧ Size = 2 ^ k.

(** Powers of two as numerals, for [lia]. *)
Ltac norm_pow :=
  change (2 ^ 16) with 65536 in *;
  change (2 ^ 31) with 2147483648 in *;
  change (2 ^ 32) with 4294967296 in *.

Ltac zlia := unfold is_u32, is_u16, is_int in *; norm_pow; lia.

Lemma size_ok_bounds Size : size_ok Size → 0 < Size ≤ 2 ^ 31.
Proof.
  intros (k & Hk & ->). split.
  - apply Z.pow_pos_nonneg; lia.
  - apply Z.pow_le_mono_r; lia.
Qed.

Lemma ring_buffer_size_ok : size_ok RING_BUFFER_SIZE.
Proof. exists 18. split; [lia | reflexivity]. Qed.

Lemma land_mask Size x :
  size_ok Size → Z.land x (Size - 1) = x mod Size.
Proof.
  intros (k & Hk & ->).
  replace (2 ^ k - 1) with (Z.ones k) by (rewrite Z.ones_equiv; lia).
  apply Z.land_ones. lia.
Qed.

Lemma u32_small x : is_u32 x → u32 x = x.
Proof. intros H. apply Z.mod_small. exact H. Qed.

Lemma u32_range x : is_u32 (u32 x).
Proof. apply Z.mod_pos_bound. reflexivity. Qed.

Lemma s32_u32_int x : is_int x → s32 (u32 x) = x.
Proof.
  unfold is_int, s32, u32. intros Hx.
  rewrite Z.mod_mod by lia.
  change (2 ^ 31) with 2147483648 in *.
  change (2 ^ 32) with 4294967296 in *.
  destruct (Z.ltb_spec (x mod 4294967296) 2147483648);
    Z.div_mod_to_equations; lia.
Qed.

(** The used bytes after the producer advanced [head] by [len]. *)
Lemma used_after_write h t len :
  0 ≤ len → u32 (h - t) + len < 2 ^ 32 →
  u32 (u32 (h + len) - t) = u32 (h - t) + len.
Proof.
  unfold u32. change (2 ^ 32) with 4294967296. intros.
  Z.div_mod_to_equations. lia.
Qed.

(** The used bytes after the consumer advanced [tail] by [len]. *)
Lemma used_after_read h t len :
  0 ≤ len ≤ u32 (h - t) →
  u32 (h - u32 (t + len)) = u32 (h - t) - len.
Proof.
  unfold u32. change (2 ^ 32) with 4294967296. intros.
  Z.div_mod_to_equations. lia.
Qed.

(** Free space is the complement of the used bytes when these fit. *)
Lemma free_of_used Size used :
  0 ≤ used ≤ Size → Size < 2 ^ 32 → u32 (Size - used) = Size - used.
Proof. intros. apply Z.mod_small. lia. Qed.

(** The equality of the size queries says that the used bytes fit. *)
Lemma avail_sum_iff Size rb :
  0 < Size < 2 ^ 32 →
  readAvailable rb + writeAvailable Size rb = capacity Size
  ↔ u32 (ctrl_head rb - ctrl_tail rb) ≤ Size.
Proof.
  unfold readAvailable, writeAvailable, capacity. intros HS.
  pose proof (u32_range (ctrl_head rb - ctrl_tail rb)) as Hu.
  set (d := u32 (ctrl_head rb - ctrl_tail rb)) in *.
  unfold is_u32 in Hu. split.
  - intros Heq.
    pose proof (u32_range (Size - d)) as Hf. unfold is_u32 in Hf.
    destruct (Z.le_gt_cases d Size) as [|Hgt]; [done|].
    assert (u32 (Size - d) = Size - d + 2 ^ 32) as Hw.
    { unfold u32. symmetry. apply (Z.mod_unique _ _ (-1)); lia. }
    lia.
  - intros Hle. rewrite free_of_used by lia. lia.
Qed.

Lemma mod_wrap Size o i :
  0 ≤ o < Size → 0 ≤ i ≤ Size →
  (o + i) mod Size = if o + i <? Size then o + i else o + i - Size.
Proof.
  intros Ho Hi. destruct (Z.ltb_spec (o + i) Size).
  - apply Z.mod_small. lia.
  - symmetry. apply (Z.mod_unique _ _ 1); lia.
Qed.

Lemma index_wrap Size h i :
  0 < Size → 0 ≤ i ≤ Size →
  (h + i) mod Size =
    if h mod Size + i <? Size then h mod Size + i else h mod Size + i - Size.
Proof.
  intros HS Hi. rewrite <- Z.add_mod_idemp_l by lia.
  apply mod_wrap; [apply Z.mod_pos_bound; lia | lia].
Qed.

(* ===================================================================== *)
(** * Copies in and out of the data array *)

Lemma memcpy_length dst off src n :
  0 ≤ off → 0 ≤ n → off + n ≤ Z.of_nat (length dst) →
  n ≤ Z.of_nat (length src) →
  length (memcpy dst off src n) = length dst.
Proof.
  intros. unfold memcpy.
  rewrite !length_app, !length_take, length_drop. lia.
Qed.

Lemma memcpy_lookup dst off src n (j : nat) :
  0 ≤ off → 0 ≤ n → off + n ≤ Z.of_nat (length dst) →
  n ≤ Z.of_nat (length src) →
  memcpy dst off src n !! j =
    if decide (off ≤ Z.of_nat j < off + n)
    then src !! Z.to_nat (Z.of_nat j - off) else dst !! j.
Proof.
  intros Hoff Hn Hdst Hsrc. unfold memcpy.
  destruct (decide (Z.of_nat j < off)) as [Hlt|Hge].
  - rewrite lookup_app_l by (rewrite length_take; lia).
    rewrite lookup_take_lt by lia.
    destruct (decide _); [lia | done].
  - rewrite lookup_app_r by (rewrite length_take; lia).
    rewrite length_take.
    destruct (decide (Z.of_nat j < off + n)) as [Hin|Hout].
    + rewrite lookup_app_l by (rewrite length_take; lia).
      rewrite lookup_take_lt by lia.
      destruct (decide _); [|lia]. f_equal. lia.
    + rewrite lookup_app_r by (rewrite length_take; lia).
      rewrite length_take, lookup_drop.
      destruct (decide _); [lia|]. f_equal. lia.
Qed.

Lemma slice_length src off n :
  0 ≤ off → 0 ≤ n → off + n ≤ Z.of_nat (length src) →
  Z.of_nat (length (slice src off n)) = n.
Proof.
  intros. unfold slice. rewrite length_take, length_drop. lia.
Qed.

Lemma slice_lookup src off n (j : nat) :
  0 ≤ off → Z.of_nat j < n →
  slice src off n !! j = src !! Z.to_nat (off + Z.of_nat j).
Proof.
  intros. unfold slice. rewrite lookup_take_lt by lia.
  rewrite lookup_drop. f_equal. lia.
Qed.

Lemma list_eq_upto (l1 l2 : list Z) (n : nat) :
  length l1 = n → length l2 = n →
  (∀ i : nat, (i < n)%nat → l1 !! i = l2 !! i) → l1 = l2.
Proof.
  intros H1 H2 H. apply list_eq. intros i.
  destruct (decide (i < n)%nat); [by apply H|].
  rewrite !lookup_ge_None_2; [done|lia|lia].
Qed.

Lemma mod_eq_window Size a b :
  0 < Size → a mod Size = b mod Size → 0 ≤ b - a < Size → a = b.
Proof.
  intros HS Heq Hw.
  pose proof (Z.div_mod a Size ltac:(lia)).
  pose proof (Z.div_mod b Size ltac:(lia)).
  assert (Size * (b / Size - a / Size) = b - a) as Hd by lia.
  assert (b / Size - a / Size = 0) by nia. lia.
Qed.

(* ===================================================================== *)
(** * RingBuffer: the size queries and [write] *)

Section RingFacts.

Variable Size : Z.
Hypothesis HSize : size_ok Size.

Lemma ring_ok_avail rb :
  ring_ok Size rb →
  readAvailable rb + writeAvailable Size rb = capacity Size.
Proof.
  intros [_ _ _ Hused]. pose proof (size_ok_bounds _ HSize).
  apply avail_sum_iff; [zlia | done].
Qed.

Lemma ring_ok_writeAvailable rb :
  ring_ok Size rb →
  writeAvailable Size rb = Size - readAvailable rb
  ∧ 0 ≤ readAvailable rb ≤ Size.
Proof.
  intros Hok. pose proof (ring_ok_avail rb Hok) as Hsum.
  unfold capacity in Hsum. destruct Hok as [_ _ _ Hused].
  pose proof (u32_range (ctrl_head rb - ctrl_tail rb)) as Hr.
  unfold is_u32 in Hr. unfold readAvailable in *. zlia.
Qed.

(** The used bytes fit after every operation if they fitted before. *)
Lemma used_run_op o rb :
  op_ok o →
  u32 (ctrl_head rb - ctrl_tail rb) ≤ Size →
  u32 (ctrl_head (run_op Size o rb) - ctrl_tail (run_op Size o rb)) ≤ Size.
Proof.
  intros Hop Hused. pose proof (size_ok_bounds _ HSize) as HS.
  pose proof (u32_range (ctrl_head rb - ctrl_tail rb)) as Hr.
  unfold is_u32 in Hr.
  destruct o as [|data len|len|len|len];
    cbn [run_op op_ok reset ctrl_head ctrl_tail] in *.
  - change (u32 (0 - 0)) with 0. zlia.
  - destruct Hop as [[Hlen _] _]. unfold write.
    rewrite (free_of_used Size (u32 (ctrl_head rb - ctrl_tail rb))) by zlia.
    destruct (Z.ltb_spec (Size - u32 (ctrl_head rb - ctrl_tail rb)) len);
      simpl; [done|].
    rewrite used_after_write; zlia.
  - destruct Hop as [Hlen _]. unfold read.
    destruct (Z.ltb_spec (u32 (ctrl_head rb - ctrl_tail rb)) len);
      simpl; [done|].
    rewrite used_after_read; zlia.
  - done.
  - destruct Hop as [Hlen _]. unfold skip.
    destruct (Z.ltb_spec (u32 (ctrl_head rb - ctrl_tail rb)) len);
      simpl; [done|].
    rewrite used_after_read; zlia.
Qed.

Lemma write_length rb data len :
  ring_ok Size rb → is_u32 len → len ≤ Z.of_nat (length data) →
  length (data_ (snd (write Size rb data len))) = length (data_ rb).
Proof.
  intros Hok Hlen Hsrc. pose proof (size_ok_bounds _ HSize) as HS.
  destruct (ring_ok_writeAvailable rb Hok) as [Hfree Hused].
  destruct Hok as [Hh Ht Hd _]. unfold is_u32 in *.
  unfold writeAvailable, readAvailable in *. unfold write.
  rewrite Hfree.
  destruct (Z.ltb_spec (Size - u32 (ctrl_head rb - ctrl_tail rb)) len);
    simpl; [done|].
  rewrite land_mask by done.
  pose proof (Z.mod_pos_bound (ctrl_head rb) Size ltac:(zlia)) as Ho.
  rewrite (u32_small (Size - _)) by (unfold is_u32; zlia).
  destruct (Z.geb_spec (Size - ctrl_head rb mod Size) len).
  - apply memcpy_length; zlia.
  - rewrite (u32_small (len - _)) by (unfold is_u32; zlia).
    rewrite memcpy_length.
    + apply memcpy_length; zlia.
    + zlia.
    + zlia.
    + rewrite memcpy_length; zlia.
    + rewrite length_drop. zlia.
Qed.

Lemma ring_ok_run_op o rb :
  op_ok o → ring_ok Size rb → ring_ok Size (run_op Size o rb).
Proof.
  intros Hop Hok.
  pose proof (used_run_op o rb Hop (ok_used _ _ Hok)) as Hused.
  destruct Hok as [Hh Ht Hd Hu].
  destruct o as [|data len|len|len|len].
  - split; simpl; try done; unfold is_u32; zlia.
  - destruct Hop as [Hlen Hsrc].
    pose proof (write_length rb data len (mkRingOk _ _ Hh Ht Hd Hu) Hlen Hsrc)
      as Hl.
    split; try done.
    + simpl. unfold write. destruct (_ <? _); simpl; [done|apply u32_range].
    + simpl. unfold write. destruct (_ <? _); done.
    + simpl in *. zlia.
  - split; try done; simpl; unfold read; destruct (_ <? _); simpl;
      try done; apply u32_range.
  - done.
  - split; try done; simpl; unfold skip; destruct (_ <? _); simpl;
      try done; apply u32_range.
Qed.

Lemma reachable_ring_ok rb : reachable Size rb → ring_ok Size rb.
Proof.
  induction 1 as [rb (Hh & Ht & Hd)|o rb _ IH Hop].
  - split; rewrite ?Hh, ?Ht; try done; unfold is_u32; try zlia.
    pose proof (size_ok_bounds _ HSize). change (u32 (0 - 0)) with 0. zlia.
  - by apply ring_ok_run_op.
Qed.

(** C5. In every state reached from the initial one by [reset], [write],
    [read], [peek] and [skip], [readAvailable() + writeAvailable()] is
    [capacity()]; and each of these operations keeps the equality
    wherever it holds. *)
Theorem avail_sum_is_capacity :
  (∀ rb, reachable Size rb →
     readAvailable rb + writeAvailable Size rb = capacity Size)
  ∧ (∀ o rb, op_ok o →
       readAvailable rb + writeAvailable Size rb = capacity Size →
       readAvailable (run_op Size o rb)
         + writeAvailable Size (run_op Size o rb) = capacity Size).
Proof.
  pose proof (size_ok_bounds _ HSize) as HS. split.
  - intros rb Hr. apply ring_ok_avail. by apply reachable_ring_ok.
  - intros o rb Hop Hsum.
    apply avail_sum_iff; [zlia|]. apply used_run_op; [done|].
    apply avail_sum_iff in Hsum; [done | zlia].
Qed.

(** A [write] that fits. *)
Lemma write_success rb data len :
  ring_ok Size rb → 0 ≤ len ≤ writeAvailable Size rb →
  len ≤ Z.of_nat (length data) →
  ∃ data',
    write Size rb data len
      = (true, mkRing (u32 (ctrl_head rb + len)) (ctrl_tail rb) data')
    ∧ length data' = length (data_ rb)
    ∧ (∀ i, 0 ≤ i < len →
         data' !! Z.to_nat ((ctrl_head rb + i) mod Size)
           = data !! Z.to_nat i)
    ∧ (∀ j, 0 ≤ j < Size →
         (∀ i, 0 ≤ i < len → (ctrl_head rb + i) mod Size ≠ j) →
         data' !! Z.to_nat j = data_ rb !! Z.to_nat j).
Proof.
  pose proof (size_ok_bounds _ HSize) as HS.
  intros Hok Hlen Hsrc.
  destruct (ring_ok_writeAvailable rb Hok) as [Hfree Hused].
  pose proof (write_length rb data len Hok) as Hwl.
  destruct Hok as [Hh Ht Hd _]. unfold is_u32 in *.
  unfold writeAvailable, readAvailable in *. unfold write in *.
  rewrite Hfree in *.
  destruct (Z.ltb_spec (Size - u32 (ctrl_head rb - ctrl_tail rb)) len);
    [zlia|].
  eexists. split; [reflexivity|].
  split; [apply Hwl; zlia|]. clear Hwl.
  rewrite land_mask by done.
  pose proof (Z.mod_pos_bound (ctrl_head rb) Size ltac:(zlia)) as Ho.
  set (offset := ctrl_head rb mod Size) in *.
  rewrite (u32_small (Size - _)) by (unfold is_u32; zlia).
  assert (∀ i, 0 ≤ i < len →
            (ctrl_head rb + i) mod Size
              = if offset + i <? Size then offset + i
                else offset + i - Size) as Hidx.
  { intros i Hi. apply index_wrap; zlia. }
  destruct (Z.geb_spec (Size - offset) len) as [Hfit|Hwrap].
  + split.
    * intros i Hi. rewrite Hidx by done.
      destruct (Z.ltb_spec (offset + i) Size); [|zlia].
      rewrite memcpy_lookup by zlia.
      destruct (decide _); [|zlia]. f_equal. zlia.
    * intros j Hj Hfree'. rewrite memcpy_lookup by zlia.
      destruct (decide _) as [Hin|]; [|done].
      exfalso. apply (Hfree' (j - offset)); [zlia|].
      rewrite Hidx by zlia.
      destruct (Z.ltb_spec (offset + (j - offset)) Size); zlia.
  + rewrite (u32_small (len - _)) by (unfold is_u32; zlia).
    assert (length (memcpy (data_ rb) offset data (Size - offset))
            = length (data_ rb)) as Hl1 by (apply memcpy_length; zlia).
    split.
    * intros i Hi. rewrite Hidx by done.
      rewrite memcpy_lookup; [|zlia|zlia|zlia|rewrite length_drop; zlia].
      destruct (Z.ltb_spec (offset + i) Size).
      -- destruct (decide _); [zlia|].
         rewrite memcpy_lookup by zlia.
         destruct (decide _); [|zlia]. f_equal. zlia.
      -- destruct (decide _); [|zlia].
         rewrite lookup_drop. f_equal. zlia.
    * intros j Hj Hfree'.
      rewrite memcpy_lookup; [|zlia|zlia|zlia|rewrite length_drop; zlia].
      destruct (decide _) as [Hin|Hout].
      -- exfalso. apply (Hfree' (j + (Size - offset))); [zlia|].
         rewrite Hidx by zlia.
         destruct (Z.ltb_spec (offset + (j + (Size - offset))) Size); zlia.
      -- rewrite memcpy_lookup by zlia.
         destruct (decide _) as [Hin|]; [|done].
         exfalso. apply (Hfree' (j - offset)); [zlia|].
         rewrite Hidx by zlia.
         destruct (Z.ltb_spec (offset + (j - offset)) Size); zlia.
Qed.

(** A [write] that does not fit. *)
Lemma write_failure rb data len :
  writeAvailable Size rb < len → write Size rb data len = (false, rb).
Proof.
  unfold writeAvailable, write. intros Hlt.
  destruct (Z.ltb_spec (u32 (Size - u32 (ctrl_head rb - ctrl_tail rb))) len);
    [done | zlia].
Qed.

(** C4. A [write] of more than [writeAvailable()] bytes returns false and
    changes neither offset nor the data; a write of at most that many
    returns true, advances [head] by [len], keeps [tail], and leaves the
    [len] bytes at the positions [head + i] modulo [Size], the rest of
    the array being as before. *)
Theorem write_all_or_nothing rb data len :
  (writeAvailable Size rb < len → write Size rb data len = (false, rb))
  ∧ (ring_ok Size rb → 0 ≤ len ≤ writeAvailable Size rb →
     len ≤ Z.of_nat (length data) →
     ∃ data',
       write Size rb data len
         = (true, mkRing (u32 (ctrl_head rb + len)) (ctrl_tail rb) data')
       ∧ length data' = length (data_ rb)
       ∧ (∀ i, 0 ≤ i < len →
            data' !! Z.to_nat ((ctrl_head rb + i) mod Size)
              = data !! Z.to_nat i)
       ∧ (∀ j, 0 ≤ j < Size →
            (∀ i, 0 ≤ i < len → (ctrl_head rb + i) mod Size ≠ j) →
            data' !! Z.to_nat j = data_ rb !! Z.to_nat j)).
Proof.
  split; [apply write_failure | apply write_success].
Qed.

(** ** The ring as a queue of bytes *)

Lemma u32_mod_Size x : u32 x mod Size = x mod Size.
Proof.
  unfold u32. apply Z.mod_mod_divide.
  destruct HSize as (k & Hk & ->).
  exists (2 ^ (32 - k)). rewrite <- Z.pow_add_r by lia. f_equal. lia.
Qed.

(** The position in the array of the [i]-th unread byte. *)
Lemma head_position rb i :
  (ctrl_head rb + i) mod Size
    = (ctrl_tail rb + (readAvailable rb + i)) mod Size.
Proof.
  pose proof (size_ok_bounds _ HSize) as HS.
  unfold readAvailable.
  replace (ctrl_tail rb + (u32 (ctrl_head rb - ctrl_tail rb) + i))
    with (u32 (ctrl_head rb - ctrl_tail rb) + (ctrl_tail rb + i)) by lia.
  rewrite <- (Z.add_mod_idemp_l (u32 _)) by lia.
  rewrite u32_mod_Size, Z.add_mod_idemp_l by lia.
  f_equal. lia.
Qed.

Lemma peek_spec rb len :
  ring_ok Size rb → 0 ≤ len ≤ readAvailable rb →
  ∃ l, peek Size rb len = Some l
       ∧ Z.of_nat (length l) = len
       ∧ ∀ i : nat, Z.of_nat i < len →
           l !! i = data_ rb !! Z.to_nat ((ctrl_tail rb + Z.of_nat i) mod Size).
Proof.
  pose proof (size_ok_bounds _ HSize) as HS.
  intros Hok Hlen.
  destruct (ring_ok_writeAvailable rb Hok) as [_ Hused].
  destruct Hok as [Hh Ht Hd _].
  unfold readAvailable in *. unfold peek.
  destruct (Z.ltb_spec (u32 (ctrl_head rb - ctrl_tail rb)) len); [lia|].
  rewrite land_mask by done.
  pose proof (Z.mod_pos_bound (ctrl_tail rb) Size ltac:(lia)) as Ho.
  assert (∀ i, 0 ≤ i < len →
            (ctrl_tail rb + i) mod Size
              = if ctrl_tail rb mod Size + i <? Size
                then ctrl_tail rb mod Size + i
                else ctrl_tail rb mod Size + i - Size) as Hidx.
  { intros i Hi. apply index_wrap; lia. }
  set (offset := ctrl_tail rb mod Size) in *.
  rewrite (u32_small (Size - _)) by zlia.
  destruct (Z.geb_spec (Size - offset) len) as [Hfit|Hwrap].
  - eexists. split; [reflexivity|]. split.
    + apply slice_length; lia.
    + intros i Hi. rewrite slice_lookup by lia.
      rewrite Hidx by lia.
      destruct (Z.ltb_spec (offset + Z.of_nat i) Size); [done|lia].
  - rewrite (u32_small (len - _)) by zlia.
    eexists. split; [reflexivity|]. split.
    + rewrite length_app.
      pose proof (slice_length (data_ rb) offset (Size - offset)).
      pose proof (slice_length (data_ rb) 0 (len - (Size - offset))).
      lia.
    + intros i Hi. rewrite Hidx by lia.
      pose proof (slice_length (data_ rb) offset (Size - offset)
                    ltac:(lia) ltac:(lia) ltac:(lia)) as Hl1.
      destruct (Z.ltb_spec (offset + Z.of_nat i) Size).
      * rewrite lookup_app_l by lia.
        by rewrite slice_lookup by lia.
      * rewrite lookup_app_r by lia.
        rewrite slice_lookup by lia. f_equal. lia.
Qed.

Lemma contents_spec rb :
  ring_ok Size rb →
  Z.of_nat (length (contents Size rb)) = readAvailable rb
  ∧ ∀ i : nat, Z.of_nat i < readAvailable rb →
      contents Size rb !! i
        = data_ rb !! Z.to_nat ((ctrl_tail rb + Z.of_nat i) mod Size).
Proof.
  intros Hok.
  destruct (ring_ok_writeAvailable rb Hok) as [_ Hused].
  destruct (peek_spec rb (readAvailable rb) Hok ltac:(lia))
    as (l & Hl & Hlen & Hlk).
  unfold contents. rewrite Hl. done.
Qed.

Lemma peek_contents rb len :
  ring_ok Size rb → 0 ≤ len ≤ readAvailable rb →
  peek Size rb len = Some (take (Z.to_nat len) (contents Size rb)).
Proof.
  intros Hok Hlen.
  destruct (peek_spec rb len Hok Hlen) as (l & -> & Hl & Hlk).
  destruct (contents_spec rb Hok) as [Hcl Hclk].
  f_equal. apply (list_eq_upto _ _ (Z.to_nat len)).
  - lia.
  - rewrite length_take. lia.
  - intros i Hi. rewrite lookup_take_lt by lia.
    rewrite Hlk, Hclk by lia. done.
Qed.

Lemma write_contents rb data len :
  ring_ok Size rb → 0 ≤ len ≤ writeAvailable Size rb →
  len ≤ Z.of_nat (length data) →
  ∃ rb', write Size rb data len = (true, rb')
         ∧ ring_ok Size rb'
         ∧ contents Size rb' = contents Size rb ++ take (Z.to_nat len) data.
Proof.
  pose proof (size_ok_bounds _ HSize) as HS.
  intros Hok Hlen Hsrc.
  destruct (ring_ok_writeAvailable rb Hok) as [Hfree Hused].
  destruct (write_success rb data len Hok Hlen Hsrc)
    as (data' & Hw & Hl & Hnew & Hold).
  pose proof (ring_ok_run_op (OpWrite data len) rb
                ltac:(split; zlia) Hok) as Hok'.
  simpl in Hok'. rewrite Hw in *. simpl in Hok'.
  eexists. split; [reflexivity|]. split; [done|].
  destruct (contents_spec rb Hok) as [Hcl Hclk].
  destruct (contents_spec _ Hok') as [Hcl' Hclk'].
  assert (readAvailable
            (mkRing (u32 (ctrl_head rb + len)) (ctrl_tail rb) data')
          = readAvailable rb + len) as Hused'.
  { unfold readAvailable in *. simpl. apply used_after_write; zlia. }
  rewrite Hused' in *. simpl in Hclk'.
  apply (list_eq_upto _ _ (Z.to_nat (readAvailable rb + len))).
  - lia.
  - rewrite length_app, length_take. lia.
  - intros i Hi. rewrite Hclk' by lia.
    destruct (decide (Z.of_nat i < readAvailable rb)) as [Hlt|Hge].
    + rewrite lookup_app_l by lia. rewrite Hclk by lia.
      apply Hold; [apply Z.mod_pos_bound; lia|].
      intros k Hk Heq. rewrite head_position in Heq.
      symmetry in Heq. apply mod_eq_window in Heq; lia.
    + rewrite lookup_app_r by lia.
      rewrite lookup_take_lt by lia.
      replace (ctrl_tail rb + Z.of_nat i)
        with (ctrl_tail rb
              + (readAvailable rb + (Z.of_nat i - readAvailable rb)))
        by lia.
      rewrite <- head_position, Hnew by lia. f_equal. lia.
Qed.

Lemma read_is_peek rb len :
  read Size rb len
    = (peek Size rb len,
       if readAvailable rb <? len then rb
       else mkRing (ctrl_head rb) (u32 (ctrl_tail rb + len)) (data_ rb)).
Proof.
  unfold read, peek, readAvailable.
  destruct (_ <? len); [done|]. by destruct (_ >=? len).
Qed.

Lemma skip_result rb len :
  skip rb len
    = (negb (readAvailable rb <? len),
       if readAvailable rb <? len then rb
       else mkRing (ctrl_head rb) (u32 (ctrl_tail rb + len)) (data_ rb)).
Proof. unfold skip, readAvailable. by destruct (_ <? len). Qed.

(** The ring after the consumer advanced [tail] by [len]. *)
Lemma consume_contents rb len :
  ring_ok Size rb → 0 ≤ len ≤ readAvailable rb →
  let rb' := mkRing (ctrl_head rb) (u32 (ctrl_tail rb + len)) (data_ rb) in
  ring_ok Size rb'
  ∧ readAvailable rb' = readAvailable rb - len
  ∧ contents Size rb' = drop (Z.to_nat len) (contents Size rb).
Proof.
  pose proof (size_ok_bounds _ HSize) as HS.
  intros Hok Hlen rb'.
  destruct (ring_ok_writeAvailable rb Hok) as [Hfree Hused].
  assert (readAvailable rb' = readAvailable rb - len) as Hused'.
  { unfold readAvailable, rb' in *. cbn [ctrl_head ctrl_tail].
    apply used_after_read. lia. }
  assert (ring_ok Size rb') as Hok'.
  { destruct Hok as [Hh Ht Hd Hu]. split; try done.
    - apply u32_range.
    - fold (readAvailable rb'). lia. }
  split; [done|]. split; [done|].
  destruct (contents_spec rb Hok) as [Hcl Hclk].
  destruct (contents_spec rb' Hok') as [Hcl' Hclk'].
  rewrite Hused' in *. simpl in Hclk'.
  apply (list_eq_upto _ _ (Z.to_nat (readAvailable rb - len))).
  - lia.
  - rewrite length_drop. lia.
  - intros i Hi. rewrite Hclk' by lia.
    rewrite lookup_drop, Hclk by lia. do 2 f_equal.
    rewrite <- Z.add_mod_idemp_l, u32_mod_Size, Z.add_mod_idemp_l by lia.
    f_equal. lia.
Qed.

End RingFacts.

(* ===================================================================== *)
(** * Frame codec *)

Lemma le16_length x : length (le16 x) = 2%nat.
Proof.
  pose proof (length_Z_to_little_endian 2 8 x ltac:(lia)). unfold le16. lia.
Qed.

Lemma le32_length x : length (le32 x) = 4%nat.
Proof.
  pose proof (length_Z_to_little_endian 4 8 x ltac:(lia)). unfold le32. lia.
Qed.

Lemma encodeFrameHeader_length h : length (encodeFrameHeader h) = 24%nat.
Proof.
  unfold encodeFrameHeader.
  rewrite !length_app, !le16_length, !le32_length. reflexivity.
Qed.

Lemma le16_decode x : is_u16 x → little_endian_to_Z 8 (le16 x) = x.
Proof.
  intros Hx. unfold le16.
  rewrite little_endian_to_Z_to_little_endian by lia.
  apply Z.mod_small. exact Hx.
Qed.

Lemma le32_decode x : is_u32 x → little_endian_to_Z 8 (le32 x) = x.
Proof.
  intros Hx. unfold le32.
  rewrite little_endian_to_Z_to_little_endian by lia.
  apply Z.mod_small. exact Hx.
Qed.

(** A field that starts the buffer, and one that lies behind a prefix. *)
Lemma slice_here a rest n :
  Z.of_nat (length a) = n → slice (a ++ rest) 0 n = a.
Proof.
  intros <-. unfold slice. rewrite Nat2Z.id.
  change (Z.to_nat 0) with 0%nat. rewrite drop_0.
  by rewrite take_app_length.
Qed.

Lemma slice_behind a rest off n :
  Z.of_nat (length a) ≤ off →
  slice (a ++ rest) off n = slice rest (off - Z.of_nat (length a)) n.
Proof.
  intros Hoff. unfold slice. f_equal.
  replace (Z.to_nat off)
    with (length a + Z.to_nat (off - Z.of_nat (length a)))%nat by lia.
  by rewrite drop_app_add.
Qed.

Lemma slice_all a n : Z.of_nat (length a) = n → slice a 0 n = a.
Proof.
  intros <-. unfold slice. rewrite Nat2Z.id.
  change (Z.to_nat 0) with 0%nat. rewrite drop_0. by rewrite take_ge.
Qed.

(** Step over a field of known length in front of the one looked for. *)
Ltac skip_field H :=
  rewrite slice_behind by (rewrite H; lia); rewrite H;
  match goal with
  | |- context [slice _ (?o - Z.of_nat ?k) _] =>
      let v := eval compute in (o - Z.of_nat k) in
      change (o - Z.of_nat k) with v
  end.

(** The seven fields of a header laid out back to back. *)
Lemma slice_fields (a b c d e f g : list Z) :
  length a = 2%nat → length b = 2%nat → length c = 4%nat →
  length d = 4%nat → length e = 4%nat → length f = 4%nat →
  length g = 4%nat →
  let l := a ++ b ++ c ++ d ++ e ++ f ++ g in
  slice l 0 2 = a ∧ slice l 2 2 = b ∧ slice l 4 4 = c ∧ slice l 8 4 = d
  ∧ slice l 12 4 = e ∧ slice l 16 4 = f ∧ slice l 20 4 = g.
Proof.
  intros Ha Hb Hc Hd He Hf Hg l. subst l. repeat split.
  - apply slice_here. lia.
  - skip_field Ha. apply slice_here. lia.
  - skip_field Ha. skip_field Hb. apply slice_here. lia.
  - skip_field Ha. skip_field Hb. skip_field Hc. apply slice_here. lia.
  - skip_field Ha. skip_field Hb. skip_field Hc. skip_field Hd.
    apply slice_here. lia.
  - skip_field Ha. skip_field Hb. skip_field Hc. skip_field Hd.
    skip_field He. apply slice_here. lia.
  - skip_field Ha. skip_field Hb. skip_field Hc. skip_field Hd.
    skip_field He. skip_field Hf. apply slice_all. lia.
Qed.

Lemma header_of_bytes_encode h :
  header_ok h → header_of_bytes (encodeFrameHeader h) = h.
Proof.
  intros [Hv Hf Hs Hm Hq Hp Ha]. destruct h as [v f s m q p a].
  cbn [version flags serviceId messageId seq payloadBytes aux] in *.
  unfold header_of_bytes, encodeFrameHeader, le_field.
  cbn [version flags serviceId messageId seq payloadBytes aux].
  destruct (slice_fields (le16 v) (le16 f) (le32 s) (le32 m) (le32 q)
              (le32 p) (le32 a))
    as (-> & -> & -> & -> & -> & -> & ->);
    try apply le16_length; try apply le32_length.
  by rewrite !le16_decode, !le32_decode.
Qed.

(** C3. Decoding the 24 bytes [encodeFrameHeader] gives for a header
    returns true and gives back the header, field by field; decoding with
    a length below 24 returns false (and leaves [*out] alone). *)
Theorem decode_encode_roundtrip :
  (∀ h out, header_ok h →
     length (encodeFrameHeader h) = 24%nat
     ∧ decodeFrameHeader (encodeFrameHeader h)
         (Z.of_nat (length (encodeFrameHeader h))) (Some out)
       = (true, Some h))
  ∧ (∀ bytes len out, len < 24 →
       decodeFrameHeader bytes len out = (false, out)).
Proof.
  split.
  - intros h out Hok. split; [apply encodeFrameHeader_length|].
    rewrite encodeFrameHeader_length. unfold decodeFrameHeader. simpl.
    by rewrite header_of_bytes_encode.
  - intros bytes len out Hlen. unfold decodeFrameHeader, sizeof_FrameHeader.
    destruct out; [|done].
    destruct (Z.ltb_spec len 24); [done | lia].
Qed.

(* ===================================================================== *)
(** * Frames in a ring *)

Lemma write_true_fits Size rb data len rb' :
  write Size rb data len = (true, rb') → len ≤ writeAvailable Size rb.
Proof.
  unfold write, writeAvailable.
  destruct (Z.ltb_spec (u32 (Size - u32 (ctrl_head rb - ctrl_tail rb))) len);
    [intros [=] | done].
Qed.

(** Header and payload written one after the other extend the contents by
    the frame. *)
Lemma frame_write_contents ring h payload ring1 ring2 :
  ring_ok RING_BUFFER_SIZE ring →
  payloadBytes h = Z.of_nat (length payload) →
  ring_write ring (encodeFrameHeader h)
             (u32 (Z.of_nat (length (encodeFrameHeader h)))) = (true, ring1) →
  ring_write ring1 payload (payloadBytes h) = (true, ring2) →
  ring_ok RING_BUFFER_SIZE ring2
  ∧ contents RING_BUFFER_SIZE ring2
      = contents RING_BUFFER_SIZE ring ++ encodeFrameHeader h ++ payload.
Proof.
  unfold ring_write. rewrite encodeFrameHeader_length.
  change (u32 (Z.of_nat 24)) with 24.
  intros Hok Hp H1 H2.
  destruct (write_contents _ ring_buffer_size_ok ring (encodeFrameHeader h) 24
              Hok) as (rb1 & H1' & Hok1 & Hc1).
  { split; [lia|]. by apply write_true_fits in H1. }
  { rewrite encodeFrameHeader_length. lia. }
  rewrite H1 in H1'. injection H1' as <-.
  destruct (write_contents _ ring_buffer_size_ok ring1 payload (payloadBytes h)
              Hok1) as (rb2 & H2' & Hok2 & Hc2).
  { split; [lia|]. by apply write_true_fits in H2. }
  { lia. }
  rewrite H2 in H2'. injection H2' as <-.
  split; [done|]. rewrite Hc2, Hc1, <- app_assoc.
  rewrite !take_ge by (rewrite ?encodeFrameHeader_length; lia). done.
Qed.

(** A receiver takes the frame at the front of the contents. *)
Lemma take_frame_contents ring h payload rest :
  ring_ok RING_BUFFER_SIZE ring → header_ok h →
  payloadBytes h = Z.of_nat (length payload) →
  contents RING_BUFFER_SIZE ring = encodeFrameHeader h ++ payload ++ rest →
  ∃ ring', take_frame ring = Some (h, payload, ring')
           ∧ ring_ok RING_BUFFER_SIZE ring'
           ∧ contents RING_BUFFER_SIZE ring' = rest.
Proof.
  intros Hok Hh Hp Hc.
  destruct (contents_spec _ ring_buffer_size_ok ring Hok) as [Hlen _].
  rewrite Hc, !length_app, encodeFrameHeader_length in Hlen.
  unfold take_frame, ring_peek, ring_readAvailable, ring_skip, ring_read,
    sizeof_FrameHeader.
  rewrite (peek_contents _ ring_buffer_size_ok) by (done || lia).
  rewrite Hc.
  replace (Z.to_nat 24) with (length (encodeFrameHeader h))
    by (rewrite encodeFrameHeader_length; lia).
  rewrite take_app_length, header_of_bytes_encode by done.
  rewrite encodeFrameHeader_length. change (u32 (Z.of_nat 24)) with 24.
  unfold decodeFrameHeader, sizeof_FrameHeader.
  change (24 <? 24) with false. cbn iota.
  rewrite header_of_bytes_encode by done.
  destruct (Z.ltb_spec (readAvailable ring) (24 + payloadBytes h)); [lia|].
  rewrite skip_result.
  destruct (Z.ltb_spec (readAvailable ring) 24); [lia|]. cbn [snd].
  destruct (consume_contents _ ring_buffer_size_ok ring 24 Hok ltac:(lia))
    as (Hok1 & Hused1 & Hc1).
  set (ring1 := mkRing _ _ _) in *.
  rewrite Hc in Hc1.
  replace (Z.to_nat 24) with (length (encodeFrameHeader h)) in Hc1
    by (rewrite encodeFrameHeader_length; lia).
  rewrite drop_app_length in Hc1.
  destruct (Z.gtb_spec (payloadBytes h) 0) as [Hpos|Hzero].
  - rewrite (read_is_peek RING_BUFFER_SIZE).
    rewrite (peek_contents _ ring_buffer_size_ok) by (done || lia).
    destruct (Z.ltb_spec (readAvailable ring1) (payloadBytes h)); [lia|].
    destruct (consume_contents _ ring_buffer_size_ok ring1 (payloadBytes h)
                Hok1 ltac:(lia)) as (Hok2 & _ & Hc2).
    rewrite Hc1 in *. rewrite Hp in *. rewrite Nat2Z.id in *.
    rewrite take_app_length. rewrite drop_app_length in Hc2.
    eexists. split; [reflexivity|]. done.
  - assert (payload = []) as ->.
    { apply length_zero_iff_nil. pose proof (ok_payloadBytes _ Hh). zlia. }
    simpl in Hp. rewrite Hp. simpl.
    eexists. split; [reflexivity|]. done.
Qed.

(* ===================================================================== *)
(** * Client: the pending-call table *)

(** C6. When [call] returns [RPC_ERR_RING_FULL], the pending-call table
    (and the [PendingCall] objects behind it) are as before the call, and
    no signal byte was sent. *)
Theorem call_ring_full_no_pending c serviceId methodId request sendSig :
  let res := Client.call_begin c serviceId methodId request sendSig in
  res.1.1 = Client.Returned RPC_ERR_RING_FULL →
  Client.m_pending res.1.2 = Client.m_pending c
  ∧ Client.objects res.1.2 = Client.objects c
  ∧ res.2 = [].
Proof.
  intros res. subst res. unfold Client.call_begin.
  destruct (Client.m_region c) as [region|]; [|intros [=]].
  destruct (Client.m_running c); cbn [negb]; [|intros [=]].
  destruct (ring_write _ _ _) as [[] ring1]; cbn [negb].
  - destruct (ring_write _ _ _) as [[] ring2]; cbn [negb].
    + destruct (sendSig <=? 0); intros [=].
    + done.
  - done.
Qed.

(** What [call] leaves behind when [sendSignalByte] is reached and fails:
    [RPC_ERR_DISCONNECTED] is returned and the entry made for the
    allocated [seq] is in the table. *)
Lemma call_signal_failure c serviceId methodId request sendSig r c' tr :
  sendSig ≤ 0 →
  Client.call_begin c serviceId methodId request sendSig = (r, c', tr) →
  tr = [SysSignal (Client.m_socketFd c) sendSig] →
  r = Client.Returned RPC_ERR_DISCONNECTED
  ∧ ∃ pending,
      Client.objects c !! pending = None
      ∧ Client.m_pending c'
          = <[Client.m_nextSeq c := pending]> (Client.m_pending c)
      ∧ Client.objects c'
          = <[pending := Client.mkPending false RPC_SUCCESS []]>
              (Client.objects c).
Proof.
  intros Hsig. unfold Client.call_begin.
  destruct (Client.m_region c) as [region|]; [|intros [= <- <- <-]; done].
  destruct (Client.m_running c); simpl; [|intros [= <- <- <-]; done].
  destruct (ring_write _ _ _) as [[] ring1]; simpl;
    [|intros [= <- <- <-]; done].
  destruct (ring_write _ _ _) as [[] ring2]; simpl;
    [|intros [= <- <- <-]; done].
  destruct (Z.leb_spec sendSig 0); [|lia].
  intros [= <- <- <-] _. split; [done|].
  exists (fresh (dom (Client.objects c))). split; [|done].
  apply not_elem_of_dom, is_fresh.
Qed.

(** The end of the receiver loop marks the objects and keeps the table. *)
Lemma receiver_exit_pending c :
  Client.m_pending (Client.receiver_exit c) = Client.m_pending c.
Proof. reflexivity. Qed.

Lemma fail_pending_running st c :
  Client.m_running (Client.fail_pending st c) = Client.m_running c.
Proof. reflexivity. Qed.

Lemma release_pending c :
  Client.m_pending (fst (Client.release c)) = Client.m_pending c.
Proof. reflexivity. Qed.

(** [disconnect] of a running client empties the table. *)
Lemma disconnect_clears c :
  Client.m_running c = true →
  Client.m_pending (Client.disconnect c).1 = ∅.
Proof.
  intros Hrun. unfold Client.disconnect. rewrite Hrun. simpl.
  reflexivity.
Qed.

(** C10, as the code has it. When the signal-byte send of [call] fails,
    [call] returns [RPC_ERR_DISCONNECTED] and the entry inserted for the
    allocated [seq] stays in the pending table.  The exit of the receiver
    loop does not remove it (it only fails the calls); [disconnect] of the
    running client does. *)
Theorem call_signal_failure_keeps_entry
    c serviceId methodId request sendSig :
  let res := Client.call_begin c serviceId methodId request sendSig in
  sendSig ≤ 0 →
  res.2 = [SysSignal (Client.m_socketFd c) sendSig] →
  res.1.1 = Client.Returned RPC_ERR_DISCONNECTED
  ∧ is_Some (Client.m_pending res.1.2 !! Client.m_nextSeq c)
  ∧ Client.m_pending (Client.receiver_exit res.1.2) = Client.m_pending res.1.2
  ∧ Client.m_pending (Client.disconnect res.1.2).1 = ∅.
Proof.
  intros res Hsig Htr.
  destruct res as [[r c'] tr] eqn:Hcall. subst res. simpl in Htr.
  destruct (call_signal_failure _ _ _ _ _ _ _ _ Hsig Hcall Htr)
    as (-> & pending & _ & Hp & _).
  cbn [fst snd]. split; [done|]. split; [|split].
  - rewrite Hp, lookup_insert_eq. by eexists.
  - apply receiver_exit_pending.
  - apply disconnect_clears.
    revert Hcall. unfold Client.call_begin.
    destruct (Client.m_region c) as [region|]; [|intros [= <-]; by subst].
    destruct (Client.m_running c) eqn:Hrun; cbn [negb];
      [|intros [= <-]; by subst].
    destruct (ring_write _ _ _) as [[] ring1]; cbn [negb];
      [|intros [= <-]; by subst].
    destruct (ring_write _ _ _) as [[] ring2]; cbn [negb];
      [|intros [= <-]; by subst].
    destruct (sendSig <=? 0); intros [= <-]; done.
Qed.

(* ===================================================================== *)
(** * Client: the response to a call *)

(** The receiver completes the call waiting for the [seq] of a RESPONSE
    frame: its object gets the status from [aux] and the payload. *)
Lemma on_frame_response c h payload p :
  Z.land (flags h) FRAME_RESPONSE ≠ 0 →
  Client.m_pending c !! seq h = Some p →
  is_Some (Client.objects c !! p) →
  Client.objects (Client.on_frame c h payload) !! p
    = Some (Client.mkPending true (s32 (aux h)) payload)
  ∧ Client.m_pending (Client.on_frame c h payload) = Client.m_pending c.
Proof.
  intros Hflag Hp [pc Hpc]. unfold Client.on_frame.
  destruct (Z.eqb_spec (Z.land (flags h) FRAME_RESPONSE) 0); [done|].
  simpl. rewrite Hp. simpl. split; [|done].
  by rewrite lookup_alter_eq, Hpc.
Qed.

(** The response header the server builds carries the handler's status. *)
Lemma response_header_status request st responsePayload :
  is_int st →
  let h := Service.response_header request st responsePayload in
  Z.land (flags h) FRAME_RESPONSE ≠ 0
  ∧ seq h = seq request
  ∧ s32 (aux h) = st.
Proof.
  intros Hst. simpl. split; [done|]. split; [done|].
  by apply s32_u32_int.
Qed.

(** C2, as the code has it. When the receiver processes the RESPONSE frame
    for the [seq] of a waiting call, [call] removes the pending entry and
    returns the status carried in [aux] read as a signed integer, which
    for a frame built by the server is the status the handler returned,
    whatever its sign.  The payload of the frame is stored into
    [*response] when [response] is not null and the status is
    [RPC_SUCCESS]; for every other status [*response] is left as it was. *)
Theorem call_returns_response_status c p h payload response :
  Z.land (flags h) FRAME_RESPONSE ≠ 0 →
  Client.m_pending c !! seq h = Some p →
  is_Some (Client.objects c !! p) →
  let c1 := Client.on_frame c h payload in
  Client.call_finish c1 (seq h) p response
    = (s32 (aux h),
       Client.set_pending c1 (delete (seq h) (Client.m_pending c)),
       match response with
       | Some old =>
           if s32 (aux h) =? RPC_SUCCESS then Some payload else Some old
       | None => None
       end)
  ∧ ∀ request st responsePayload,
      is_int st →
      h = Service.response_header request st responsePayload →
      s32 (aux h) = st.
Proof.
  intros Hflag Hp Hobj c1. split.
  - destruct (on_frame_response c h payload p Hflag Hp Hobj) as [Ho Hm].
    unfold Client.call_finish. fold c1 in Ho, Hm. rewrite Ho, Hm. simpl.
    reflexivity.
  - intros request st responsePayload Hst ->.
    by apply response_header_status.
Qed.

(* ===================================================================== *)
(** * Service: broadcast of a notification *)

Lemma notify_one_inr sendSignal header payload a a' tr :
  Service.notify_one sendSignal header payload a = (inr (), a', tr) →
  Service.delivered sendSignal header payload a a' tr.
Proof.
  unfold Service.notify_one, Service.delivered.
  destruct (Service.region a) as [r|]; [|intros [= <- <-]; done].
  destruct (ring_write (serverToClient r) _ _) as [[] ring1] eqn:H1; simpl;
    [|intros [=]].
  destruct (ring_write ring1 _ _) as [[] ring2] eqn:H2; simpl; [|intros [=]].
  destruct (Z.leb_spec (sendSignal (Service.socketFd a)) 0);
    intros [= <- <-].
  exists ring2. split; [by exists ring1|]. done.
Qed.

Lemma notify_one_inl sendSignal header payload c st c' tr :
  Service.notify_one sendSignal header payload c = (inl st, c', tr) →
  Service.failed sendSignal header payload c st c' tr.
Proof.
  unfold Service.notify_one, Service.failed.
  destruct (Service.region c) as [r|]; [|intros [=]].
  intros H. exists r. split; [done|]. revert H.
  destruct (ring_write (serverToClient r) _ _) as [[] ring1] eqn:H1; simpl.
  - destruct (ring_write ring1 _ _) as [[] ring2] eqn:H2; simpl.
    + destruct (Z.leb_spec (sendSignal (Service.socketFd c)) 0);
        intros [= <- <- <-].
      right. split; [done|]. split; [done|]. split; [done|].
      exists ring2. split; [by exists ring1|done].
    + intros [= <- <- <-]. left. split; [done|]. split; [done|].
      intros (ring2' & ring1' & Hw1 & Hw2). congruence.
  - intros [= <- <- <-]. left. split; [done|]. split; [done|].
    intros (ring2' & ring1' & Hw1 & _). congruence.
Qed.

Lemma notify_loop_failure sendSignal header payload conns :
  let res := Service.notify_loop sendSignal header payload conns in
  res.1.1 ≠ RPC_SUCCESS →
  ∃ pre c post pre' c' trs trc,
    conns = pre ++ c :: post
    ∧ res.1.2 = pre' ++ c' :: post
    ∧ Forall3 (Service.delivered sendSignal header payload) pre pre' trs
    ∧ Service.failed sendSignal header payload c res.1.1 c' trc
    ∧ res.2 = concat trs ++ trc.
Proof.
  induction conns as [|a rest IH]; simpl; [done|].
  destruct (Service.notify_one sendSignal header payload a)
    as [[[st|[]] a'] tr] eqn:Hone.
  - simpl. intros _.
    exists [], a, rest, [], a', [], tr. simpl.
    split; [done|]. split; [done|]. split; [constructor|].
    split; [by apply notify_one_inl | done].
  - destruct (Service.notify_loop sendSignal header payload rest)
      as [[st rest'] tr'] eqn:Hrest.
    simpl in *. intros Hst.
    destruct (IH Hst) as (pre & c & post & pre' & c' & trs & trc
                          & -> & -> & Hpre & Hfail & ->).
    exists (a :: pre), c, post, (a' :: pre'), c', (tr :: trs), trc.
    simpl. split; [done|]. split; [done|].
    split; [constructor; [by apply notify_one_inr | done]|].
    split; [done|]. by rewrite app_assoc.
Qed.

(** C9. A [notify] that returns an error stopped at the first connection,
    in list order, at which a ring write failed ([RPC_ERR_RING_FULL]) or
    the signal send failed ([RPC_ERR_DISCONNECTED]).  The connections
    before it keep the frame written to their ring, and the signal bytes
    sent to them are in the trace; the connections after it are
    untouched. *)
Theorem notify_delivers_to_prefix s serviceId notifyId payload sendSignal :
  let header := Service.notify_header serviceId notifyId payload in
  let res := Service.notify s serviceId notifyId payload sendSignal in
  res.1.1 ≠ RPC_SUCCESS →
  ∃ pre c post pre' c' trs trc,
    Service.m_connections s = pre ++ c :: post
    ∧ Service.m_connections res.1.2 = pre' ++ c' :: post
    ∧ Forall3 (Service.delivered sendSignal header payload) pre pre' trs
    ∧ Service.failed sendSignal header payload c res.1.1 c' trc
    ∧ res.2 = concat trs ++ trc.
Proof.
  intros header res. subst res. unfold Service.notify. fold header.
  pose proof (notify_loop_failure sendSignal header payload
                (Service.m_connections s)) as H.
  destruct (Service.notify_loop sendSignal header payload
              (Service.m_connections s)) as [[st conns'] tr].
  simpl in *. exact H.
Qed.

(* ===================================================================== *)
(** * Handshake: version mismatch *)

Lemma release_torn_down c :
  let c' := fst (Client.release c) in
  Client.m_region c' = None ∧ Client.m_socketFd c' = -1
  ∧ Client.m_shmFd c' = -1 ∧ Client.m_running c' = Client.m_running c.
Proof. done. Qed.

Lemma release_trace c mem :
  Client.m_region c = Some mem → 0 ≤ Client.m_shmFd c →
  0 ≤ Client.m_socketFd c →
  snd (Client.release c)
    = [SysMunmap; SysClose (Client.m_shmFd c); SysClose (Client.m_socketFd c)].
Proof.
  intros Hr Hs Hf. unfold Client.release. rewrite Hr. simpl.
  destruct (Z.geb_spec (Client.m_shmFd c) 0); [|lia].
  destruct (Z.geb_spec (Client.m_socketFd c) 0); [|lia]. done.
Qed.

(** [disconnect] leaves the client without region, descriptors or
    receiver, and unmaps and closes what it held. *)
Lemma disconnect_torn_down c mem :
  Client.m_region c = Some mem → 0 ≤ Client.m_shmFd c →
  0 ≤ Client.m_socketFd c →
  let c' := fst (Client.disconnect c) in
  let tr := snd (Client.disconnect c) in
  Client.m_region c' = None ∧ Client.m_socketFd c' = -1
  ∧ Client.m_shmFd c' = -1 ∧ Client.m_running c' = false
  ∧ ∃ tr0,
      tr = tr0 ++ [SysMunmap; SysClose (Client.m_shmFd c);
                   SysClose (Client.m_socketFd c)].
Proof.
  intros Hr Hs Hf. unfold Client.disconnect.
  destruct (Client.m_running c) eqn:Hrun; cbn [negb].
  - set (c2 := Client.set_pending _ _).
    pose proof (release_torn_down c2) as Ht.
    pose proof (release_trace c2 mem Hr Hs Hf) as Htr.
    destruct (Client.release c2) as [c3 tr1]. simpl in *.
    destruct Ht as (? & ? & ? & ?). repeat split; try done.
    eexists. by rewrite Htr.
  - pose proof (release_torn_down c) as Ht.
    pose proof (release_trace c mem Hr Hs Hf) as Htr.
    destruct (Client.release c) as [c3 tr1]. simpl in *.
    destruct Ht as (? & ? & ? & ?). repeat split; try done; [congruence|].
    exists []. by rewrite Htr.
Qed.

(** C7. A handshake whose version differs from [PROTOCOL_VERSION]: the
    server sends the single byte 0, closes the received shared-memory
    descriptor and the accepted socket, and its connection list is as
    before; the client that reads this byte unmaps its region, closes its
    descriptors, and [connect] returns false. *)
Theorem version_mismatch_rejected s aenv c ver maxAttempts cenv mem :
  let fd := Client.connect_attempts (Client.env_sock cenv)
              (Client.m_socketFd c) 0 (Z.to_nat maxAttempts) in
  (* the client got as far as sending its version and descriptor *)
  0 ≤ fd → 0 ≤ Client.env_shm cenv →
  Client.env_mmap cenv = Some mem → 0 < Client.env_sendfd cenv →
  (* the server accepted the connection and received them *)
  0 ≤ Service.acc_clientFd aenv → 0 < Service.acc_recv aenv →
  0 ≤ Service.acc_fd aenv → Service.acc_version aenv = ver →
  ver ≠ PROTOCOL_VERSION →
  (* the client reads the byte the server sent *)
  0 < Client.env_recv cenv →
  (∀ b, SysSend (Service.acc_clientFd aenv) [b]
          ∈ snd (Service.accept_one s aenv) →
        Client.env_ack cenv = b) →
  Service.accept_one s aenv
    = (s, [SysSend (Service.acc_clientFd aenv) [0];
           SysClose (Service.acc_fd aenv);
           SysClose (Service.acc_clientFd aenv)])
  ∧ ∃ c' tr0,
      Client.connect c ver maxAttempts cenv
        = (false, c',
           SysSendFd fd ver (Client.env_shm cenv)
             :: tr0 ++ [SysMunmap; SysClose (Client.env_shm cenv);
                        SysClose fd])
      ∧ Client.m_region c' = None ∧ Client.m_socketFd c' = -1
      ∧ Client.m_shmFd c' = -1 ∧ Client.m_running c' = false.
Proof.
  intros fd Hfd Hshm Hmap Hsend Hcfd Hrecv Hafd Hver Hne Hcrecv Hack.
  assert (Service.accept_one s aenv
          = (s, [SysSend (Service.acc_clientFd aenv) [0];
                 SysClose (Service.acc_fd aenv);
                 SysClose (Service.acc_clientFd aenv)])) as Hsrv.
  { unfold Service.accept_one.
    destruct (Z.ltb_spec (Service.acc_clientFd aenv) 0); [lia|].
    destruct (Z.leb_spec (Service.acc_recv aenv) 0); [lia|]. simpl.
    destruct (Z.ltb_spec (Service.acc_fd aenv) 0); [lia|].
    rewrite Hver.
    destruct (Z.eqb_spec ver PROTOCOL_VERSION); [done|]. done. }
  split; [done|].
  assert (Client.env_ack cenv = 0) as Hack0.
  { apply Hack. rewrite Hsrv. simpl. apply list_elem_of_here. }
  unfold Client.connect. fold fd.
  destruct (Z.ltb_spec fd 0); [lia|].
  destruct (Z.ltb_spec (Client.env_shm cenv) 0); [lia|].
  rewrite Hmap.
  destruct (Z.leb_spec (Client.env_sendfd cenv) 0); [lia|].
  destruct (Z.leb_spec (Client.env_recv cenv) 0); [lia|].
  rewrite Hack0. simpl.
  set (c1 := Client.set_region _ _).
  destruct (disconnect_torn_down c1
              (mkRegion (reset (clientToServer mem))
                        (reset (serverToClient mem))))
    as (Hr & Hs & Hm & Hrun & tr0 & Htr); [done..|].
  destruct (Client.disconnect c1) as [c2 tr]. simpl in *.
  exists c2, tr0. rewrite Htr. done.
Qed.

(* ===================================================================== *)
(** * A request without handler *)

Lemma response_header_ok request st responsePayload :
  header_ok request →
  header_ok (Service.response_header request st responsePayload).
Proof.
  intros [Hv Hf Hs Hm Hq Hp Ha]. split; simpl; try done;
    try apply u32_range; unfold is_u16, PROTOCOL_VERSION, FRAME_RESPONSE; lia.
Qed.

(** C8. With no request handler installed, the connection's receiver
    that takes a REQUEST frame off the [clientToServer] ring builds a
    RESPONSE header with the [seq] of the request and
    [RPC_ERR_INVALID_METHOD] cast to unsigned (4294967292) in [aux], and,
    the [serverToClient] ring having room for a header, appends its
    encoding to that ring and signals the peer.  A client that finds this
    frame at the front of the ring while a call waits for that [seq]
    completes the call, which returns [RPC_ERR_INVALID_METHOD]. *)
Theorem no_handler_invalid_method s sendSig conn r request payload rest :
  Service.m_handler s = None →
  Z.land (flags request) FRAME_REQUEST ≠ 0 →
  header_ok request →
  payloadBytes request = Z.of_nat (length payload) →
  let resp := Service.response_header request RPC_ERR_INVALID_METHOD [] in
  (seq resp = seq request ∧ flags resp = FRAME_RESPONSE
   ∧ aux resp = u32 RPC_ERR_INVALID_METHOD ∧ aux resp = 4294967292)
  ∧ (Service.region conn = Some r →
     ring_ok RING_BUFFER_SIZE (clientToServer r) →
     contents RING_BUFFER_SIZE (clientToServer r)
       = encodeFrameHeader request ++ payload ++ rest →
     ring_ok RING_BUFFER_SIZE (serverToClient r) →
     24 ≤ ring_writeAvailable (serverToClient r) →
     ∃ conn' r',
       Service.connection_iter s sendSig conn
         = Some (conn', [SysSignal (Service.socketFd conn) sendSig])
       ∧ Service.region conn' = Some r'
       ∧ contents RING_BUFFER_SIZE (clientToServer r') = rest
       ∧ ring_ok RING_BUFFER_SIZE (serverToClient r')
       ∧ contents RING_BUFFER_SIZE (serverToClient r')
           = contents RING_BUFFER_SIZE (serverToClient r)
               ++ encodeFrameHeader resp)
  ∧ (∀ cl r' rest' p response,
       Client.m_region cl = Some r' →
       ring_ok RING_BUFFER_SIZE (serverToClient r') →
       contents RING_BUFFER_SIZE (serverToClient r')
         = encodeFrameHeader resp ++ rest' →
       Client.m_pending cl !! seq request = Some p →
       is_Some (Client.objects cl !! p) →
       ∃ cl1,
         Client.receiver_iter cl = Some cl1
         ∧ (Client.call_finish cl1 (seq request) p response).1.1
             = RPC_ERR_INVALID_METHOD
         ∧ (Client.call_finish cl1 (seq request) p response).2 = response).
Proof.
  intros Hnone Hreq Hok Hlen resp.
  pose proof (response_header_ok request RPC_ERR_INVALID_METHOD [] Hok)
    as Hrok. fold resp in Hrok.
  split; [done|]. split.
  - intros Hregion Hin Hcin Hring Hroom.
    destruct (take_frame_contents (clientToServer r) request payload rest
                Hin Hok Hlen Hcin) as (ring' & Htake & Hin' & Hcin').
    unfold Service.connection_iter. rewrite Hregion, Htake, Hnone.
    unfold Service.on_frame.
    destruct (Z.eqb_spec (Z.land (flags request) FRAME_REQUEST) 0); [done|].
    cbn [negb Service.run_handler]. fold resp.
    cbn [serverToClient set_clientToServer].
    destruct (write_contents _ ring_buffer_size_ok (serverToClient r)
                (encodeFrameHeader resp) 24 Hring)
      as (ring1 & H1 & Hok1 & Hc1).
    { split; [lia | exact Hroom]. }
    { rewrite encodeFrameHeader_length. lia. }
    destruct (write_contents _ ring_buffer_size_ok ring1 [] 0 Hok1)
      as (ring2 & H2 & Hok2 & Hc2).
    { split; [lia|].
      destruct (ring_ok_writeAvailable _ ring_buffer_size_ok ring1 Hok1).
      lia. }
    { simpl. lia. }
    unfold ring_write. rewrite encodeFrameHeader_length.
    change (u32 (Z.of_nat 24)) with 24. rewrite H1. cbn [negb].
    change (payloadBytes resp) with 0. rewrite H2. cbn [negb].
    eexists _, _. split; [reflexivity|].
    cbn [Service.region Service.set_region serverToClient clientToServer
         set_serverToClient].
    split; [reflexivity|].
    cbn [serverToClient clientToServer set_serverToClient set_clientToServer].
    split; [done|]. split; [done|].
    rewrite Hc2, Hc1. rewrite take_ge
      by (rewrite encodeFrameHeader_length; lia).
    by rewrite app_nil_r.
  - intros cl r' rest' p response Hreg Hring Hc Hp Hobj.
    destruct (take_frame_contents (serverToClient r') resp [] rest'
                Hring Hrok eq_refl Hc) as (ring' & Htake & _ & _).
    unfold Client.receiver_iter. rewrite Hreg, Htake.
    eexists. split; [reflexivity|].
    set (cl0 := Client.set_region cl _).
    destruct (on_frame_response cl0 resp [] p) as [Ho Hm]; [done..|].
    unfold Client.call_finish. rewrite Ho. cbn [default Client.done negb].
    cbn [Client.status fst snd]. split; [done|].
    destruct response; done.
Qed.

(* ===================================================================== *)
(** * The request that does not fit *)

(** Where [call] returns [RPC_ERR_RING_FULL], either the header did not
    fit and the region is as before, or the header fitted, the payload did
    not, and the header stays written. *)
Lemma call_ring_full_region c serviceId methodId request sendSig :
  let res := Client.call_begin c serviceId methodId request sendSig in
  let encoded :=
    encodeFrameHeader
      (Client.request_header serviceId methodId (Client.m_nextSeq c) request) in
  res.1.1 = Client.Returned RPC_ERR_RING_FULL →
  ∃ region ok1 ring1,
    Client.m_region c = Some region
    ∧ ring_write (clientToServer region) encoded
                 (u32 (Z.of_nat (length encoded))) = (ok1, ring1)
    ∧ Client.m_region res.1.2 = Some (set_clientToServer region ring1)
    ∧ (ok1 = false → ring1 = clientToServer region).
Proof.
  intros res encoded. subst res encoded. unfold Client.call_begin.
  destruct (Client.m_region c) as [region|]; [|intros [=]].
  destruct (Client.m_running c); cbn [negb]; [|intros [=]].
  destruct (ring_write (clientToServer region) _ _) as [ok1 ring1] eqn:H1.
  destruct ok1; cbn [negb].
  - destruct (ring_write ring1 _ _) as [[] ring2] eqn:H2; cbn [negb].
    + destruct (sendSig <=? 0); intros [=].
    + intros _. exists region, true, ring1. split; [done|]. split; [done|].
      split; [|done]. cbn [fst snd Client.m_region Client.set_region].
      revert H2. unfold ring_write, write.
      destruct (_ <? _); [|intros [=]]. by intros [= <-].
  - intros _. exists region, false, ring1. split; [done|]. split; [done|].
    split; [done|]. intros _. revert H1. unfold ring_write, write.
    destruct (_ <? _); [|intros [=]]. by intros [= <-].
Qed.

(** C1, at the inputs where the code departs from it. On a connection
    with empty rings, a frame whose payload is as large as the ring is
    placed by each of the four operations.  The header fits and is
    committed, the payload does not fit: the operation reports the failure
    ([RPC_ERR_RING_FULL], or for the response no signal byte) after [head]
    moved from 0 to 24, and the consumer sees a header whose payload is
    not in the ring. *)
Theorem ring_full_tears_frame :
  (* Client::call *)
  ((Client.call_begin connected_client 1 7 huge_request 1).1.1
     = Client.Returned RPC_ERR_RING_FULL
   ∧ client_head connected_client = Some 0
   ∧ client_head (Client.call_begin connected_client 1 7 huge_request 1).1.2
     = Some 24
   ∧ client_torn (Client.call_begin connected_client 1 7 huge_request 1).1.2
     = Some true)
  (* Client::notify *)
  ∧ ((Client.notify connected_client 1 99 huge_request 1).1.1
       = RPC_ERR_RING_FULL
     ∧ client_head (Client.notify connected_client 1 99 huge_request 1).1.2
       = Some 24
     ∧ client_torn (Client.notify connected_client 1 99 huge_request 1).1.2
       = Some true)
  (* Service::notify *)
  ∧ ((Service.notify (Service.mk 5 true [sample_connection] None)
        1 99 huge_request (λ _, 1)).1.1 = RPC_ERR_RING_FULL
     ∧ server_head sample_connection = Some 0
     ∧ server_head
         <$> Service.m_connections
               (Service.notify (Service.mk 5 true [sample_connection] None)
                  1 99 huge_request (λ _, 1)).1.2
       = [Some 24]
     ∧ server_torn
         <$> Service.m_connections
               (Service.notify (Service.mk 5 true [sample_connection] None)
                  1 99 huge_request (λ _, 1)).1.2
       = [Some true])
  (* the response write of Service::connectionLoop *)
  ∧ ((Service.on_frame (Some huge_handler) 1 sample_connection zero_region
        sample_request small_request).2 = []
     ∧ server_head
         (Service.on_frame (Some huge_handler) 1 sample_connection zero_region
            sample_request small_request).1 = Some 24
     ∧ server_torn
         (Service.on_frame (Some huge_handler) 1 sample_connection zero_region
            sample_request small_request).1 = Some true).
Proof. vm_compute. repeat split; reflexivity. Qed.

(* ===================================================================== *)
(** * Sample runs *)

Lemma size_4096 : size_ok 4096.
Proof. exists 12. split; [lia | reflexivity]. Qed.

Lemma small_ring_ok : ring_ok 4096 small_ring.
Proof. split; vm_compute; try split; discriminate || reflexivity. Qed.

Lemma zero_ring_ok : ring_ok RING_BUFFER_SIZE zero_ring.
Proof. split; vm_compute; try split; discriminate || reflexivity. Qed.

Lemma sample_request_ok : header_ok sample_request.
Proof. split; vm_compute; split; discriminate || reflexivity. Qed.

Lemma decode_encode_roundtrip_run :
  (length (encodeFrameHeader sample_header) = 24%nat
   ∧ decodeFrameHeader (encodeFrameHeader sample_header)
       (Z.of_nat (length (encodeFrameHeader sample_header))) (Some zeroHeader)
     = (true, Some sample_header))
  ∧ decodeFrameHeader [1; 0; 1] 3 (Some zeroHeader) = (false, Some zeroHeader).
Proof.
  split.
  - apply (proj1 decode_encode_roundtrip sample_header zeroHeader).
    split; vm_compute; split; discriminate || reflexivity.
  - apply (proj2 decode_encode_roundtrip [1; 0; 1] 3 (Some zeroHeader)). lia.
Defined.

Lemma write_all_or_nothing_run :
  write 4096 small_ring (replicate 5000 1) 5000 = (false, small_ring)
  ∧ ∃ data',
      write 4096 small_ring sixteen 16
        = (true, mkRing (u32 (ctrl_head small_ring + 16))
                        (ctrl_tail small_ring) data')
      ∧ length data' = length (data_ small_ring)
      ∧ (∀ i, 0 ≤ i < 16 →
           data' !! Z.to_nat ((ctrl_head small_ring + i) mod 4096)
             = sixteen !! Z.to_nat i)
      ∧ (∀ j, 0 ≤ j < 4096 →
           (∀ i, 0 ≤ i < 16 → (ctrl_head small_ring + i) mod 4096 ≠ j) →
           data' !! Z.to_nat j = data_ small_ring !! Z.to_nat j).
Proof.
  split.
  - apply (proj1 (write_all_or_nothing 4096 size_4096 small_ring
                    (replicate 5000 1) 5000)).
    vm_compute. reflexivity.
  - apply (proj2 (write_all_or_nothing 4096 size_4096 small_ring sixteen 16)).
    + exact small_ring_ok.
    + vm_compute. split; discriminate.
    + vm_compute. discriminate.
Defined.

Lemma avail_sum_is_capacity_run :
  readAvailable
      (run_op 4096 (OpRead 2) (run_op 4096 (OpWrite sixteen 16) fresh_small_ring))
    + writeAvailable 4096
        (run_op 4096 (OpRead 2)
           (run_op 4096 (OpWrite sixteen 16) fresh_small_ring))
    = capacity 4096.
Proof.
  apply (proj1 (avail_sum_is_capacity 4096 size_4096)).
  apply reach_step; [apply reach_step; [apply reach_init|]|].
  - vm_compute. repeat split; reflexivity.
  - vm_compute. repeat split; discriminate.
  - vm_compute. repeat split; discriminate.
Defined.

Lemma call_ring_full_no_pending_run :
  Client.m_pending (Client.call_begin connected_client 1 7 huge_request 1).1.2
    = Client.m_pending connected_client
  ∧ Client.objects (Client.call_begin connected_client 1 7 huge_request 1).1.2
    = Client.objects connected_client
  ∧ (Client.call_begin connected_client 1 7 huge_request 1).2 = [].
Proof.
  apply (call_ring_full_no_pending connected_client 1 7 huge_request 1).
  vm_compute. reflexivity.
Defined.

Lemma call_signal_failure_keeps_entry_run :
  (Client.call_begin connected_client 1 7 small_request 0).1.1
    = Client.Returned RPC_ERR_DISCONNECTED
  ∧ is_Some
      (Client.m_pending (Client.call_begin connected_client 1 7
                           small_request 0).1.2
         !! Client.m_nextSeq connected_client)
  ∧ Client.m_pending
      (Client.receiver_exit
         (Client.call_begin connected_client 1 7 small_request 0).1.2)
    = Client.m_pending (Client.call_begin connected_client 1 7
                          small_request 0).1.2
  ∧ Client.m_pending
      (Client.disconnect
         (Client.call_begin connected_client 1 7 small_request 0).1.2).1
    = ∅.
Proof.
  apply (call_signal_failure_keeps_entry connected_client 1 7 small_request 0).
  - lia.
  - vm_compute. reflexivity.
Defined.

Lemma call_returns_response_status_run :
  Client.call_finish
      (Client.on_frame waiting_client sample_response [42; 0; 0; 0])
      (seq sample_response) 0%nat (Some [])
    = (s32 (aux sample_response),
       Client.set_pending
         (Client.on_frame waiting_client sample_response [42; 0; 0; 0])
         (delete (seq sample_response) (Client.m_pending waiting_client)),
       if s32 (aux sample_response) =? RPC_SUCCESS
       then Some [42; 0; 0; 0] else Some [])
  ∧ ∀ request st responsePayload,
      is_int st →
      sample_response = Service.response_header request st responsePayload →
      s32 (aux sample_response) = st.
Proof.
  apply (call_returns_response_status waiting_client 0%nat sample_response
           [42; 0; 0; 0] (Some [])).
  - vm_compute. discriminate.
  - vm_compute. reflexivity.
  - exists (Client.mkPending false RPC_SUCCESS []). vm_compute. reflexivity.
Defined.

(** A response whose status is 5: [call] returns 5 and the payload [9] of
    the frame does not reach the caller's vector. *)
Lemma positive_status_drops_payload :
  (Client.call_finish (Client.on_frame waiting_client status5_response [9])
                      1 0%nat (Some [])).1.1 = 5
  ∧ (Client.call_finish (Client.on_frame waiting_client status5_response [9])
                        1 0%nat (Some [])).2 = Some []
  ∧ (Client.call_finish (Client.on_frame waiting_client status5_response [9])
                        1 0%nat (Some [])).2 ≠ Some [9].
Proof. vm_compute. repeat split; discriminate || reflexivity. Qed.

(** After a failed signal send, the end of the receiver loop leaves the
    entry for [seq] 1 in the table. *)
Lemma receiver_exit_keeps_entry :
  (Client.call_begin connected_client 1 7 small_request 0).1.1
    = Client.Returned RPC_ERR_DISCONNECTED
  ∧ Client.m_pending
      (Client.receiver_exit
         (Client.call_begin connected_client 1 7 small_request 0).1.2) !! 1
    = Some 0%nat
  ∧ Client.m_pending
      (Client.receiver_exit
         (Client.call_begin connected_client 1 7 small_request 0).1.2) !! 1
    ≠ None.
Proof. vm_compute. repeat split; discriminate || reflexivity. Qed.

Lemma notify_delivers_to_prefix_run :
  ∃ pre c post pre' c' trs trc,
    Service.m_connections two_clients = pre ++ c :: post
    ∧ Service.m_connections
        (Service.notify two_clients 1 99 [123; 0; 0; 0] (λ _, 1)).1.2
      = pre' ++ c' :: post
    ∧ Forall3
        (Service.delivered (λ _, 1)
           (Service.notify_header 1 99 [123; 0; 0; 0]) [123; 0; 0; 0])
        pre pre' trs
    ∧ Service.failed (λ _, 1) (Service.notify_header 1 99 [123; 0; 0; 0])
        [123; 0; 0; 0] c
        (Service.notify two_clients 1 99 [123; 0; 0; 0] (λ _, 1)).1.1 c' trc
    ∧ (Service.notify two_clients 1 99 [123; 0; 0; 0] (λ _, 1)).2
      = concat trs ++ trc.
Proof.
  apply (notify_delivers_to_prefix two_clients 1 99 [123; 0; 0; 0] (λ _, 1)).
  vm_compute. discriminate.
Defined.

Lemma version_mismatch_rejected_run :
  Service.accept_one idle_service mismatch_env
    = (idle_service,
       [SysSend (Service.acc_clientFd mismatch_env) [0];
        SysClose (Service.acc_fd mismatch_env);
        SysClose (Service.acc_clientFd mismatch_env)])
  ∧ ∃ c' tr0,
      Client.connect Client.fresh_client 2 200 nack_env
        = (false, c',
           SysSendFd
             (Client.connect_attempts (Client.env_sock nack_env)
                (Client.m_socketFd Client.fresh_client) 0 (Z.to_nat 200))
             2 (Client.env_shm nack_env)
             :: tr0 ++ [SysMunmap; SysClose (Client.env_shm nack_env);
                        SysClose
                          (Client.connect_attempts (Client.env_sock nack_env)
                             (Client.m_socketFd Client.fresh_client) 0
                             (Z.to_nat 200))])
      ∧ Client.m_region c' = None ∧ Client.m_socketFd c' = -1
      ∧ Client.m_shmFd c' = -1 ∧ Client.m_running c' = false.
Proof.
  apply (version_mismatch_rejected idle_service mismatch_env
           Client.fresh_client 2 200 nack_env zero_region).
  - vm_compute. discriminate.
  - vm_compute. discriminate.
  - reflexivity.
  - vm_compute. reflexivity.
  - vm_compute. discriminate.
  - vm_compute. reflexivity.
  - vm_compute. discriminate.
  - reflexivity.
  - vm_compute. discriminate.
  - vm_compute. reflexivity.
  - intros b Hb.
    assert ((Service.accept_one idle_service mismatch_env).2
            = [SysSend 7 [0]; SysClose 8; SysClose 7]) as E
      by (vm_compute; reflexivity).
    rewrite E in Hb.
    apply elem_of_cons in Hb as [Hb|Hb]; [by injection Hb as ->|].
    apply elem_of_cons in Hb as [Hb|Hb]; [discriminate|].
    apply elem_of_cons in Hb as [Hb|Hb]; [discriminate|].
    by apply elem_of_nil in Hb.
Defined.

Lemma waiting_region_ok :
  ring_ok RING_BUFFER_SIZE (clientToServer waiting_region)
  ∧ ring_ok RING_BUFFER_SIZE (serverToClient waiting_region).
Proof. split; split; vm_compute; try split; discriminate || reflexivity. Qed.

(** The whole exchange: the client's first call, the server without
    handler, the client's receiver, the return of the call. *)
Lemma no_handler_invalid_method_run :
  ∃ conn' r' cl1,
    Service.connection_iter idle_service 1 waiting_connection
      = Some (conn', [SysSignal (Service.socketFd waiting_connection) 1])
    ∧ Service.region conn' = Some r'
    ∧ Client.receiver_iter (Client.set_region waiting_client (Some r'))
      = Some cl1
    ∧ (Client.call_finish cl1 (seq sample_request) 0%nat (Some [])).1.1
      = RPC_ERR_INVALID_METHOD
    ∧ (Client.call_finish cl1 (seq sample_request) 0%nat (Some [])).2
      = Some [].
Proof.
  destruct (no_handler_invalid_method idle_service 1 waiting_connection
              waiting_region sample_request small_request [])
    as (_ & Hserver & Hclient).
  - reflexivity.
  - vm_compute. discriminate.
  - exact sample_request_ok.
  - reflexivity.
  - destruct Hserver as (conn' & r' & Hiter & Hr & _ & Hok & Hc).
    + reflexivity.
    + exact (proj1 waiting_region_ok).
    + vm_compute. reflexivity.
    + exact (proj2 waiting_region_ok).
    + vm_compute. discriminate.
    + destruct (Hclient (Client.set_region waiting_client (Some r')) r' []
                  0%nat (Some [])) as (cl1 & Hcl & Hst & Hresp).
      * reflexivity.
      * exact Hok.
      * rewrite Hc. vm_compute. reflexivity.
      * vm_compute. reflexivity.
      * exists (Client.mkPending false RPC_SUCCESS []). vm_compute.
        reflexivity.
      * exists conn', r', cl1.
        exact (conj Hiter (conj Hr (conj Hcl (conj Hst Hresp)))).
Defined.

(** Without room for the response the claim fails.  The service, without
    handler, has sent a notification that leaves 10 bytes free in the
    [serverToClient] ring.  Its connection's receiver takes the client's
    request off the [clientToServer] ring, writes nothing (the head of
    the [serverToClient] ring stays where it was) and sends no signal
    byte; the client's receiver then finds the notification and no
    response, and the call ends with [RPC_ERR_TIMEOUT]. *)
Lemma no_handler_response_dropped :
  Service.m_handler busy_service = None
  ∧ (ring_writeAvailable ∘ serverToClient <$> Service.region busy_connection)
    = Some 10
  ∧ (ring_readAvailable ∘ clientToServer <$> Service.region busy_connection)
    = Some 28
  ∧ (snd <$> unanswered) = Some []
  ∧ unanswered ≫= (server_head ∘ fst) = server_head busy_connection
  ∧ (ring_readAvailable ∘ clientToServer
       <$> (unanswered ≫= (Service.region ∘ fst))) = Some 0
  ∧ (Client.call_finish starved_client 1 0%nat (Some [])).1.1
    = RPC_ERR_TIMEOUT
  ∧ (Client.call_finish starved_client 1 0%nat (Some [])).1.1
    ≠ RPC_ERR_INVALID_METHOD.
Proof. vm_compute. repeat split; discriminate || reflexivity. Qed.

(** The two clients of [two_clients]: the notification reaches the first,
    whose ring holds the frame and whose socket got the signal byte; the
    ring of the second is full and [notify] returns from there. *)
Lemma notify_reaches_first_client_only :
  (Service.notify two_clients 1 99 [123; 0; 0; 0] (λ _, 1)).1.1
    = RPC_ERR_RING_FULL
  ∧ (Service.notify two_clients 1 99 [123; 0; 0; 0] (λ _, 1)).2
    = [SysSignal 10 1]
  ∧ server_head
      <$> Service.m_connections
            (Service.notify two_clients 1 99 [123; 0; 0; 0] (λ _, 1)).1.2
    = [Some 28; Some RING_BUFFER_SIZE]
  ∧ server_head <$> Service.m_connections two_clients
    = [Some 0; Some RING_BUFFER_SIZE].
Proof. vm_compute. repeat split; reflexivity. Qed.

(** The round trips of the design document: add-one on method 7, and the
    same call against a service without handler. *)
Lemma round_trip_add_one :
  round_trip (Some add_one_handler) small_request
    = Some (RPC_SUCCESS, Some [42; 0; 0; 0]).
Proof. vm_compute. reflexivity. Qed.

Lemma round_trip_no_handler :
  round_trip None small_request = Some (RPC_ERR_INVALID_METHOD, Some []).
Proof. vm_compute. reflexivity. Qed.

(* ===================================================================== *)
(** * RingBuffer: a bounded queue of bytes *)

Section RingQueue.

Variable Size : Z.
Hypothesis HSize : size_ok Size.

Lemma contents_length rb :
  ring_ok Size rb → Z.of_nat (length (contents Size rb)) = readAvailable rb.
Proof. intros Hok. by destruct (contents_spec Size HSize rb Hok). Qed.

Lemma reset_contents rb :
  Z.of_nat (length (data_ rb)) = Size →
  ring_ok Size (reset rb) ∧ contents Size (reset rb) = [].
Proof.
  intros Hd. pose proof (size_ok_bounds _ HSize) as HS.
  assert (ring_ok Size (reset rb)) as Hok.
  { split; cbn [reset ctrl_head ctrl_tail data_]; try done;
      change (u32 (0 - 0)) with 0; zlia. }
  split; [done|]. apply length_zero_iff_nil.
  pose proof (contents_length _ Hok) as Hl.
  change (readAvailable (reset rb)) with 0 in Hl. lia.
Qed.

(** One operation on the ring is the same operation on the queue. *)
Lemma run_op_queue o rb :
  ring_ok Size rb → op_ok o →
  contents Size (run_op Size o rb) = queue_op Size o (contents Size rb).
Proof.
  intros Hok Hop. pose proof (size_ok_bounds _ HSize) as HS.
  destruct (ring_ok_writeAvailable Size HSize rb Hok) as [Hfree Hused].
  pose proof (contents_length rb Hok) as Hl.
  destruct o as [|data len|len|len|len]; cbn [run_op queue_op op_ok] in *.
  - apply reset_contents. by destruct Hok.
  - destruct Hop as [Hlen Hsrc]. rewrite Hl.
    destruct (Z.ltb_spec (Size - readAvailable rb) len).
    + rewrite write_failure; [done | lia].
    + destruct (write_contents Size HSize rb data len Hok)
        as (rb' & -> & _ & Hc); [zlia | lia | done].
  - rewrite (read_is_peek Size), Hl. cbn [snd].
    destruct (Z.ltb_spec (readAvailable rb) len); [done|].
    by destruct (consume_contents Size HSize rb len Hok ltac:(zlia))
      as (_ & _ & ->).
  - done.
  - rewrite skip_result, Hl. cbn [snd].
    destruct (Z.ltb_spec (readAvailable rb) len); [done|].
    by destruct (consume_contents Size HSize rb len Hok ltac:(zlia))
      as (_ & _ & ->).
Qed.

(** X1. The ring is a bounded FIFO queue of bytes.  Starting from a state
    that satisfies the class invariant, any sequence of [reset], [write],
    [read], [peek] and [skip] with [uint32_t] lengths keeps the invariant,
    and the unread bytes after it are those of the same sequence run on a
    queue of capacity [Size]: a write that fits appends its bytes, a read
    or skip that can be served drops that many bytes from the front,
    [peek] and every refused operation change nothing, [reset] empties
    the queue. *)
Theorem ring_refines_queue ops rb :
  ring_ok Size rb → Forall op_ok ops →
  ring_ok Size (run_ops Size ops rb)
  ∧ contents Size (run_ops Size ops rb)
      = queue_ops Size ops (contents Size rb).
Proof.
  intros Hok Hops. revert rb Hok.
  induction Hops as [|o ops Ho _ IH]; intros rb Hok; [done|].
  cbn [run_ops queue_ops foldl].
  rewrite <- (run_op_queue o rb Hok Ho).
  apply IH. by apply ring_ok_run_op.
Qed.

(** X2. [read] of more bytes than are readable returns false and leaves
    the ring as it is.  Otherwise, on a ring that satisfies the invariant,
    it returns the first [len] unread bytes, in the order in which they
    were written, removes exactly those from the unread contents, leaves
    [head] and the data array alone, and frees [len] bytes for the
    producer. *)
Theorem read_takes_front rb len :
  (readAvailable rb < len → read Size rb len = (None, rb))
  ∧ (ring_ok Size rb → 0 ≤ len ≤ readAvailable rb →
     ∃ rb',
       read Size rb len = (Some (take (Z.to_nat len) (contents Size rb)), rb')
       ∧ ring_ok Size rb'
       ∧ contents Size rb' = drop (Z.to_nat len) (contents Size rb)
       ∧ ctrl_head rb' = ctrl_head rb ∧ data_ rb' = data_ rb
       ∧ writeAvailable Size rb' = writeAvailable Size rb + len).
Proof.
  split.
  - intros Hlt. rewrite (read_is_peek Size). unfold peek, readAvailable in *.
    destruct (Z.ltb_spec (u32 (ctrl_head rb - ctrl_tail rb)) len); [done|lia].
  - intros Hok Hlen. rewrite (read_is_peek Size).
    rewrite (peek_contents Size HSize) by done.
    destruct (Z.ltb_spec (readAvailable rb) len); [lia|].
    destruct (consume_contents Size HSize rb len Hok Hlen)
      as (Hok' & Hused' & Hc').
    eexists. split; [reflexivity|]. split; [done|]. split; [done|].
    split; [done|]. split; [done|].
    destruct (ring_ok_writeAvailable Size HSize rb Hok) as [-> _].
    destruct (ring_ok_writeAvailable Size HSize _ Hok') as [-> _]. lia.
Qed.

(** X3. [peek] and [skip] of more bytes than are readable both fail and
    [skip] leaves the ring as it is.  Otherwise [peek] returns the same
    bytes a [read] of that length would return, the first [len] unread
    ones, and [skip] leaves the ring in the state that [read] would
    leave: a [peek] followed by a [skip] is a [read]. *)
Theorem peek_and_skip rb len :
  (readAvailable rb < len →
   peek Size rb len = None ∧ skip rb len = (false, rb))
  ∧ (ring_ok Size rb → 0 ≤ len ≤ readAvailable rb →
     peek Size rb len = fst (read Size rb len)
     ∧ peek Size rb len = Some (take (Z.to_nat len) (contents Size rb))
     ∧ skip rb len = (true, snd (read Size rb len))
     ∧ contents Size (snd (skip rb len))
         = drop (Z.to_nat len) (contents Size rb)).
Proof.
  split.
  - intros Hlt. rewrite skip_result. unfold peek, readAvailable in *.
    destruct (Z.ltb_spec (u32 (ctrl_head rb - ctrl_tail rb)) len); [done|lia].
  - intros Hok Hlen. rewrite (read_is_peek Size), skip_result. cbn [fst snd].
    destruct (Z.ltb_spec (readAvailable rb) len); [lia|].
    split; [done|]. split; [by apply peek_contents|]. split; [done|].
    by destruct (consume_contents Size HSize rb len Hok Hlen) as (_ & _ & ->).
Qed.

(** X4. On an empty ring, writing a buffer of at most [Size] bytes
    succeeds, makes exactly its length readable, and reading that many
    bytes returns the buffer and leaves the ring empty again; the ring is
    full after the write exactly when the buffer had [Size] bytes. *)
Theorem write_read_roundtrip rb data :
  ring_ok Size rb → empty rb = true →
  Z.of_nat (length data) ≤ Size →
  ∃ rb1 rb2,
    write Size rb data (Z.of_nat (length data)) = (true, rb1)
    ∧ readAvailable rb1 = Z.of_nat (length data)
    ∧ read Size rb1 (Z.of_nat (length data)) = (Some data, rb2)
    ∧ empty rb2 = true
    ∧ (full Size rb1 = true ↔ Z.of_nat (length data) = Size).
Proof.
  intros Hok Hempty Hlen. pose proof (size_ok_bounds _ HSize) as HS.
  unfold empty in Hempty. apply Z.eqb_eq in Hempty.
  destruct (ring_ok_writeAvailable Size HSize rb Hok) as [Hfree _].
  pose proof (contents_length rb Hok) as Hl.
  assert (contents Size rb = []) as Hnil
    by (apply length_zero_iff_nil; lia).
  destruct (write_contents Size HSize rb data (Z.of_nat (length data)) Hok)
    as (rb1 & Hw & Hok1 & Hc1); [lia | lia |].
  rewrite Hnil, Nat2Z.id, take_ge in Hc1 by lia. simpl in Hc1.
  pose proof (contents_length rb1 Hok1) as Hl1. rewrite Hc1 in Hl1.
  destruct (consume_contents Size HSize rb1 (Z.of_nat (length data)) Hok1)
    as (Hok2 & _ & Hc2); [lia|].
  set (rb2 := mkRing (ctrl_head rb1)
                     (u32 (ctrl_tail rb1 + Z.of_nat (length data)))
                     (data_ rb1)) in *.
  assert (read Size rb1 (Z.of_nat (length data)) = (Some data, rb2)) as Hr.
  { rewrite (read_is_peek Size), (peek_contents Size HSize) by (done || lia).
    destruct (Z.ltb_spec (readAvailable rb1) (Z.of_nat (length data)));
      [lia|].
    rewrite Hc1, Nat2Z.id, take_ge by lia. done. }
  rewrite Hc1, Nat2Z.id, drop_all in Hc2.
  exists rb1, rb2. split; [done|]. split; [done|]. split; [done|]. split.
  - unfold empty. apply Z.eqb_eq.
    pose proof (contents_length rb2 Hok2) as Hl2. rewrite Hc2 in Hl2.
    simpl in Hl2. lia.
  - unfold full. rewrite Z.eqb_eq.
    destruct (ring_ok_writeAvailable Size HSize rb1 Hok1) as [-> _]. lia.
Qed.

End RingQueue.

(* ===================================================================== *)
(** * Frame codec: from bytes to a header and back *)

Lemma slice_bytes_ok l off n : bytes_ok l → bytes_ok (slice l off n).
Proof. intros H. unfold slice. by apply Forall_take, Forall_drop. Qed.

Lemma slice_next l off n m :
  0 ≤ off → 0 ≤ n → 0 ≤ m →
  slice l off n ++ slice l (off + n) m = slice l off (n + m).
Proof.
  intros. unfold slice.
  rewrite (Z2Nat.inj_add off n), (Z2Nat.inj_add n m) by lia.
  rewrite <- drop_drop. apply take_take_drop.
Qed.

(** A field written back as it was read. *)
Lemma le_field_bytes bytes off n :
  bytes_ok bytes → 0 ≤ off → 0 ≤ n →
  off + n ≤ Z.of_nat (length bytes) →
  Z_to_little_endian n 8 (le_field bytes off n) = slice bytes off n
  ∧ 0 ≤ le_field bytes off n < 2 ^ (n * 8).
Proof.
  intros Hb Hoff Hn Hlen. unfold le_field.
  pose proof (slice_length bytes off n Hoff Hn Hlen) as Hl.
  pose proof (slice_bytes_ok bytes off n Hb) as Hs. split.
  - apply Z_to_little_endian_to_Z; [lia | lia | exact Hs].
  - pose proof (little_endian_to_Z_bound 8 (slice bytes off n) ltac:(lia) Hs)
      as Hbd.
    rewrite Hl in Hbd. exact Hbd.
Qed.

Lemma header_of_bytes_ok bytes :
  bytes_ok bytes → Z.of_nat (length bytes) = 24 →
  header_ok (header_of_bytes bytes)
  ∧ encodeFrameHeader (header_of_bytes bytes) = bytes.
Proof.
  intros Hb Hl.
  destruct (le_field_bytes bytes 0 2 Hb) as [E0 B0]; [lia..|].
  destruct (le_field_bytes bytes 2 2 Hb) as [E1 B1]; [lia..|].
  destruct (le_field_bytes bytes 4 4 Hb) as [E2 B2]; [lia..|].
  destruct (le_field_bytes bytes 8 4 Hb) as [E3 B3]; [lia..|].
  destruct (le_field_bytes bytes 12 4 Hb) as [E4 B4]; [lia..|].
  destruct (le_field_bytes bytes 16 4 Hb) as [E5 B5]; [lia..|].
  destruct (le_field_bytes bytes 20 4 Hb) as [E6 B6]; [lia..|].
  split.
  - split; cbn [header_of_bytes version flags serviceId messageId seq
                payloadBytes aux]; unfold is_u16, is_u32; assumption.
  - unfold encodeFrameHeader, le16, le32.
    cbn [header_of_bytes version flags serviceId messageId seq
         payloadBytes aux].
    rewrite E0, E1, E2, E3, E4, E5, E6.
    change 20 with (16 + 4) at 1. rewrite (slice_next bytes 16 4 4) by lia.
    change 16 with (12 + 4) at 1. rewrite (slice_next bytes 12 4 _) by lia.
    change 12 with (8 + 4) at 1. rewrite (slice_next bytes 8 4 _) by lia.
    change 8 with (4 + 4) at 1. rewrite (slice_next bytes 4 4 _) by lia.
    change 4 with (2 + 2) at 1. rewrite (slice_next bytes 2 2 _) by lia.
    change 2 with (0 + 2) at 2. rewrite (slice_next bytes 0 2 _) by lia.
    apply slice_all. simpl. lia.
Qed.

(** X5. The codec round trip in the other direction: any 24 bytes decode
    (given a non-null [out]) to a header whose fields fit their types,
    and encoding that header gives the same 24 bytes back.  No byte
    pattern is rejected by [decodeFrameHeader]. *)
Theorem encode_decode_bytes bytes out :
  bytes_ok bytes → Z.of_nat (length bytes) = 24 →
  ∃ h,
    decodeFrameHeader bytes 24 (Some out) = (true, Some h)
    ∧ header_ok h
    ∧ encodeFrameHeader h = bytes.
Proof.
  intros Hb Hl. exists (header_of_bytes bytes).
  destruct (header_of_bytes_ok bytes Hb Hl) as [Hok He].
  split; [reflexivity|]. done.
Qed.

Lemma encodeFrameHeader_bytes_ok h : bytes_ok (encodeFrameHeader h).
Proof.
  unfold encodeFrameHeader, le16, le32, bytes_ok.
  repeat apply Forall_app_2; apply Z_to_little_endian_bound; lia.
Qed.

Lemma slice_prefix l extra off n :
  0 ≤ off → 0 ≤ n → off + n ≤ Z.of_nat (length l) →
  slice (l ++ extra) off n = slice l off n.
Proof.
  intros. unfold slice. rewrite drop_app_le by lia.
  rewrite take_app_le; [done|]. rewrite length_drop. lia.
Qed.

(** X6. [decodeFrameHeader] returns false for a null [out] whatever the
    buffer and length; and with a non-null [out] and [len] of 24 or more
    it succeeds and reads only the first 24 bytes: bytes after them, and
    the amount by which [len] exceeds 24, do not change the result. *)
Theorem decode_reads_header_only bytes extra len out :
  decodeFrameHeader bytes len None = (false, None)
  ∧ (Z.of_nat (length bytes) = 24 → 24 ≤ len →
     decodeFrameHeader (bytes ++ extra) len (Some out)
       = decodeFrameHeader bytes 24 (Some out)
     ∧ fst (decodeFrameHeader (bytes ++ extra) len (Some out)) = true).
Proof.
  split; [done|]. intros Hl Hlen. unfold decodeFrameHeader, sizeof_FrameHeader.
  destruct (Z.ltb_spec len 24); [lia|]. change (24 <? 24) with false.
  split; [|done]. do 2 f_equal. unfold header_of_bytes, le_field.
  by rewrite !slice_prefix by lia.
Qed.

(* ===================================================================== *)
(** * Frames taken off a ring *)

Lemma contents_length_ring ring :
  ring_ok RING_BUFFER_SIZE ring →
  Z.of_nat (length (contents RING_BUFFER_SIZE ring)) = readAvailable ring.
Proof. apply contents_length, ring_buffer_size_ok. Qed.

(** What [take_frame] does, in terms of the unread contents. *)
Lemma take_frame_spec ring :
  ring_ok RING_BUFFER_SIZE ring →
  bytes_ok (contents RING_BUFFER_SIZE ring) →
  let c := contents RING_BUFFER_SIZE ring in
  let h := header_of_bytes (take 24 c) in
  take_frame ring =
    if (Z.of_nat (length c) <? 24)
       || (Z.of_nat (length c) <? 24 + payloadBytes h)
    then None
    else Some (h, take (Z.to_nat (payloadBytes h)) (drop 24 c),
               snd (skip (snd (skip ring 24)) (payloadBytes h)))
  .
Proof.
  intros Hok Hb c h.
  pose proof (contents_length_ring ring Hok) as Hl. fold c in Hl.
  unfold take_frame, ring_peek, ring_readAvailable, ring_skip, ring_read,
    sizeof_FrameHeader.
  destruct (Z.ltb_spec (Z.of_nat (length c)) 24) as [Hshort|Hlong].
  - cbn [orb]. unfold peek. fold (readAvailable ring).
    destruct (Z.ltb_spec (readAvailable ring) 24); [done|lia].
  - cbn [orb].
    rewrite (peek_contents _ ring_buffer_size_ok) by (done || lia).
    fold c. change (Z.to_nat 24) with 24%nat.
    assert (Z.of_nat (length (take 24 c)) = 24) as Hl24
      by (rewrite length_take; lia).
    destruct (header_of_bytes_ok (take 24 c)) as [Hhok Henc];
      [by apply Forall_take | done |]. fold h in Hhok, Henc. fold h.
    rewrite Henc. rewrite length_take.
    replace (u32 (Z.of_nat (24 `min` length c))) with 24
      by (rewrite Nat.min_l by lia; reflexivity).
    unfold decodeFrameHeader, sizeof_FrameHeader.
    change (24 <? 24) with false. cbn iota. fold h. rewrite Hl.
    destruct (Z.ltb_spec (readAvailable ring) (24 + payloadBytes h));
      [done|].
    rewrite skip_result.
    destruct (Z.ltb_spec (readAvailable ring) 24); [lia|]. cbn [snd].
    destruct (consume_contents _ ring_buffer_size_ok ring 24 Hok ltac:(lia))
      as (Hok1 & Hused1 & Hc1).
    set (ring1 := mkRing _ _ _) in *. fold c in Hc1.
    change (Z.to_nat 24) with 24%nat in Hc1.
    pose proof (ok_payloadBytes _ Hhok) as Hpb. unfold is_u32 in Hpb.
    rewrite skip_result.
    destruct (Z.ltb_spec (readAvailable ring1) (payloadBytes h)); [lia|].
    cbn [snd].
    destruct (Z.gtb_spec (payloadBytes h) 0) as [Hpos|Hzero].
    + rewrite (read_is_peek RING_BUFFER_SIZE).
      rewrite (peek_contents _ ring_buffer_size_ok) by (done || lia).
      destruct (Z.ltb_spec (readAvailable ring1) (payloadBytes h)); [lia|].
      by rewrite Hc1.
    + assert (payloadBytes h = 0) as -> by lia.
      change (Z.to_nat 0) with 0%nat. rewrite take_0. cbn [replicate].
      do 3 f_equal. unfold ring1. cbn [ctrl_head ctrl_tail data_].
      rewrite Z.add_0_r, (u32_small (u32 _)) by apply u32_range. done.
Qed.

Lemma contents_bytes_ok Size rb :
  bytes_ok (data_ rb) → bytes_ok (contents Size rb).
Proof.
  intros Hb. unfold contents, peek.
  destruct (_ <? _); [constructor|].
  destruct (_ >=? _); cbn [default].
  - by apply slice_bytes_ok.
  - apply Forall_app_2; by apply slice_bytes_ok.
Qed.

Lemma skip_data rb len : data_ (snd (skip rb len)) = data_ rb.
Proof. unfold skip. by destruct (_ <? _). Qed.

Lemma skip_head rb len : ctrl_head (snd (skip rb len)) = ctrl_head rb.
Proof. unfold skip. by destruct (_ <? _). Qed.

Lemma take_frame_some ring h p ring' :
  ring_ok RING_BUFFER_SIZE ring → bytes_ok (data_ ring) →
  take_frame ring = Some (h, p, ring') →
  header_ok h
  ∧ payloadBytes h = Z.of_nat (length p)
  ∧ contents RING_BUFFER_SIZE ring
      = encodeFrameHeader h ++ p ++ contents RING_BUFFER_SIZE ring'
  ∧ ring_ok RING_BUFFER_SIZE ring'
  ∧ data_ ring' = data_ ring ∧ ctrl_head ring' = ctrl_head ring.
Proof.
  intros Hok Hb.
  pose proof (contents_bytes_ok RING_BUFFER_SIZE ring Hb) as Hcb.
  rewrite (take_frame_spec ring Hok Hcb). cbv zeta.
  pose proof (contents_length_ring ring Hok) as Hl.
  set (c := contents RING_BUFFER_SIZE ring) in *.
  destruct (Z.ltb_spec (Z.of_nat (length c)) 24); [done|]. cbn [orb].
  destruct (header_of_bytes_ok (take 24 c)) as [Hhok Henc];
    [by apply Forall_take | rewrite length_take; lia |].
  set (h0 := header_of_bytes (take 24 c)) in *.
  destruct (Z.ltb_spec (Z.of_nat (length c)) (24 + payloadBytes h0)); [done|].
  pose proof (ok_payloadBytes _ Hhok) as Hpb. unfold is_u32 in Hpb.
  destruct (consume_contents _ ring_buffer_size_ok ring 24 Hok ltac:(lia))
    as (Hok1 & Hused1 & Hc1).
  set (ring1 := mkRing _ _ _) in *.
  destruct (consume_contents _ ring_buffer_size_ok ring1 (payloadBytes h0)
              Hok1 ltac:(lia)) as (Hok2 & _ & Hc2).
  set (ring2 := mkRing (ctrl_head ring1) _ _) in *.
  assert (snd (skip (snd (skip ring 24)) (payloadBytes h0)) = ring2) as ->.
  { rewrite (skip_result ring).
    destruct (Z.ltb_spec (readAvailable ring) 24); [lia|]. cbn [snd].
    fold ring1. rewrite (skip_result ring1).
    destruct (Z.ltb_spec (readAvailable ring1) (payloadBytes h0)); [lia|].
    done. }
  fold c in Hc1. change (Z.to_nat 24) with 24%nat in Hc1.
  intros [= <- <- <-].
  split; [done|]. split.
  { rewrite length_take, length_drop.
    change (le_field (take 24 c) 16 4) with (payloadBytes h0). zlia. }
  split; [|done].
  rewrite Hc2, Hc1, Henc, take_drop, take_drop. done.
Qed.

(** A receiver leaves a frame that is not all there. *)
Lemma take_frame_partial ring f k :
  ring_ok RING_BUFFER_SIZE ring → frame_ok f →
  (k < length (frame_bytes f))%nat →
  contents RING_BUFFER_SIZE ring = take k (frame_bytes f) →
  take_frame ring = None.
Proof.
  intros Hok [Hh Hp] Hk Hc. destruct f as [h p]. cbn [fst snd] in *.
  unfold frame_bytes in *. cbn [fst snd] in *.
  rewrite length_app, encodeFrameHeader_length in Hk.
  pose proof (contents_length_ring ring Hok) as Hl.
  rewrite Hc, length_take, length_app, encodeFrameHeader_length in Hl.
  unfold take_frame, ring_peek, ring_readAvailable, sizeof_FrameHeader.
  destruct (decide (k < 24)%nat) as [Hshort|Hlong].
  - unfold peek. fold (readAvailable ring).
    destruct (Z.ltb_spec (readAvailable ring) 24); [done|lia].
  - rewrite (peek_contents _ ring_buffer_size_ok) by (done || lia).
    rewrite Hc, take_take. change (Z.to_nat 24) with 24%nat.
    rewrite Nat.min_l by lia.
    replace 24%nat with (length (encodeFrameHeader h))
      by apply encodeFrameHeader_length.
    rewrite take_app_length, header_of_bytes_encode by done.
    rewrite encodeFrameHeader_length. change (u32 (Z.of_nat 24)) with 24.
    unfold decodeFrameHeader, sizeof_FrameHeader.
    change (24 <? 24) with false. cbn iota.
    rewrite header_of_bytes_encode by done.
    destruct (Z.ltb_spec (readAvailable ring) (24 + payloadBytes h));
      [done|lia].
Qed.

(* ===================================================================== *)
(** * The client's receiver loop *)

Lemma client_on_frame_region c h p :
  Client.m_region (Client.on_frame c h p) = Client.m_region c.
Proof.
  unfold Client.on_frame.
  destruct (negb _); [by destruct (_ !! _)|].
  destruct (negb _); [by destruct (Client.m_notifyHandler c)|done].
Qed.

Lemma client_on_frame_set_region c r h p :
  Client.on_frame (Client.set_region c r) h p
    = Client.set_region (Client.on_frame c h p) r.
Proof.
  unfold Client.on_frame. cbn [Client.set_region Client.m_pending
    Client.m_notifyHandler].
  destruct (negb _); [by destruct (_ !! _)|].
  destruct (negb _); [by destruct (Client.m_notifyHandler c)|done].
Qed.

Lemma client_set_region_twice c r1 r2 :
  Client.set_region (Client.set_region c r1) r2 = Client.set_region c r2.
Proof. done. Qed.

Lemma client_set_region_same c r :
  Client.m_region c = Some r →
  Client.set_region c (Some (set_serverToClient r (serverToClient r))) = c.
Proof. destruct c, r. cbn. by intros ->. Qed.

Lemma frames_length frames :
  24 * Z.of_nat (length frames)
    ≤ Z.of_nat (length (concat (frame_bytes <$> frames))).
Proof.
  induction frames as [|f fs IH]; [done|].
  cbn [fmap list_fmap concat length]. unfold frame_bytes at 1.
  rewrite !length_app, encodeFrameHeader_length. lia.
Qed.

Lemma drain_n_frames frames : ∀ n c r tail f k,
  (length frames < n)%nat →
  Client.m_region c = Some r →
  ring_ok RING_BUFFER_SIZE (serverToClient r) →
  Forall frame_ok frames → frame_ok f →
  (k < length (frame_bytes f))%nat → tail = take k (frame_bytes f) →
  contents RING_BUFFER_SIZE (serverToClient r)
    = concat (frame_bytes <$> frames) ++ tail →
  ∃ ring',
    ring_ok RING_BUFFER_SIZE ring'
    ∧ contents RING_BUFFER_SIZE ring' = tail
    ∧ Client.drain_n n c
      = Client.dispatch_all
          (Client.set_region c (Some (set_serverToClient r ring'))) frames.
Proof.
  induction frames as [|[h p] fs IH];
    intros n c r tail f k Hn Hreg Hok Hfs Hf Hk Htail Hc.
  - destruct n as [|n]; [simpl in Hn; lia|].
    exists (serverToClient r). split; [done|]. split; [done|].
    cbn [Client.drain_n Client.dispatch_all foldl].
    unfold Client.receiver_iter. rewrite Hreg.
    rewrite (take_frame_partial _ f k Hok Hf Hk) by (by rewrite Hc, Htail).
    by rewrite client_set_region_same.
  - destruct n as [|n]; [simpl in Hn; lia|].
    apply Forall_cons in Hfs as [[Hh Hp] Hfs]. cbn [fst snd] in Hh, Hp.
    cbn [fmap list_fmap concat] in Hc. unfold frame_bytes at 1 in Hc.
    cbn [fst snd] in Hc. rewrite <- !app_assoc in Hc.
    destruct (take_frame_contents _ h p _ Hok Hh Hp Hc)
      as (ring1 & Htake & Hok1 & Hc1).
    cbn [Client.drain_n]. unfold Client.receiver_iter.
    rewrite Hreg, Htake.
    set (r1 := set_serverToClient r ring1).
    destruct (IH n (Client.on_frame (Client.set_region c (Some r1)) h p) r1
                tail f k) as (ring' & Hok' & Hc' & Hd); try done.
    + simpl in Hn. lia.
    + by rewrite client_on_frame_region.
    + exists ring'. split; [done|]. split; [done|]. rewrite Hd.
      cbn [Client.dispatch_all foldl fst snd].
      by rewrite <- !client_on_frame_set_region.
Qed.

Lemma client_dispatch_all_region c frames :
  Client.m_region (Client.dispatch_all c frames) = Client.m_region c.
Proof.
  revert c. induction frames as [|f fs IH]; intros c; [done|].
  cbn [Client.dispatch_all foldl]. fold (Client.dispatch_all
    (Client.on_frame c f.1 f.2) fs).
  by rewrite IH, client_on_frame_region.
Qed.

(** X7. The inner loop of the client's receiver, run on a
    [serverToClient] ring that holds a sequence of whole frames followed
    by the first [k] bytes of a further frame ([k] less than that frame's
    length, possibly 0): it dispatches exactly the whole frames, in ring
    order, leaves the [k] bytes of the incomplete frame in the ring, and
    stops there (a further iteration breaks). *)
Theorem drain_dispatches_whole_frames c r frames f k :
  Client.m_region c = Some r →
  ring_ok RING_BUFFER_SIZE (serverToClient r) →
  Forall frame_ok frames → frame_ok f →
  (k < length (frame_bytes f))%nat →
  contents RING_BUFFER_SIZE (serverToClient r)
    = concat (frame_bytes <$> frames) ++ take k (frame_bytes f) →
  ∃ ring',
    ring_ok RING_BUFFER_SIZE ring'
    ∧ contents RING_BUFFER_SIZE ring' = take k (frame_bytes f)
    ∧ Client.drain c
      = Client.dispatch_all
          (Client.set_region c (Some (set_serverToClient r ring'))) frames
    ∧ Client.receiver_iter (Client.drain c) = None.
Proof.
  intros Hreg Hok Hfs Hf Hk Hc.
  destruct (drain_n_frames frames
              (S (Z.to_nat (ring_readAvailable (serverToClient r)
                            / sizeof_FrameHeader)))
              c r (take k (frame_bytes f)) f k) as (ring' & Hok' & Hc' & Hd);
    try done.
  { pose proof (contents_length_ring _ Hok) as Hl.
    rewrite Hc, length_app in Hl.
    pose proof (frames_length frames) as Hfl.
    unfold ring_readAvailable, sizeof_FrameHeader.
    assert (Z.of_nat (length frames) ≤ readAvailable (serverToClient r) / 24)
      by (apply Z.div_le_lower_bound; lia).
    lia. }
  exists ring'. split; [done|]. split; [done|].
  unfold Client.drain. rewrite Hreg. split; [done|]. rewrite Hd.
  unfold Client.receiver_iter. rewrite client_dispatch_all_region.
  cbn [Client.m_region Client.set_region serverToClient set_serverToClient].
  by rewrite (take_frame_partial ring' f k).
Qed.

(* ===================================================================== *)
(** * Client: calls *)

Lemma two_writes ring h payload :
  ring_ok RING_BUFFER_SIZE ring →
  payloadBytes h = Z.of_nat (length payload) →
  24 + Z.of_nat (length payload) ≤ ring_writeAvailable ring →
  ∃ ring1 ring2,
    ring_write ring (encodeFrameHeader h)
               (u32 (Z.of_nat (length (encodeFrameHeader h)))) = (true, ring1)
    ∧ ring_write ring1 payload (payloadBytes h) = (true, ring2)
    ∧ ring_ok RING_BUFFER_SIZE ring2
    ∧ contents RING_BUFFER_SIZE ring2
        = contents RING_BUFFER_SIZE ring ++ frame_bytes (h, payload).
Proof.
  intros Hok Hp Hroom. unfold ring_write, ring_writeAvailable in *.
  rewrite encodeFrameHeader_length. change (u32 (Z.of_nat 24)) with 24.
  destruct (write_contents _ ring_buffer_size_ok ring (encodeFrameHeader h) 24
              Hok) as (ring1 & H1 & Hok1 & Hc1);
    [lia | rewrite encodeFrameHeader_length; lia |].
  destruct (ring_ok_writeAvailable _ ring_buffer_size_ok ring Hok)
    as [Hf Hu].
  destruct (ring_ok_writeAvailable _ ring_buffer_size_ok ring1 Hok1)
    as [Hf1 Hu1].
  pose proof (contents_length_ring ring Hok) as Hl.
  pose proof (contents_length_ring ring1 Hok1) as Hl1.
  rewrite Hc1, length_app, length_take, encodeFrameHeader_length in Hl1.
  destruct (write_contents _ ring_buffer_size_ok ring1 payload
              (payloadBytes h) Hok1) as (ring2 & H2 & Hok2 & Hc2);
    [lia | lia |].
  exists ring1, ring2. split; [done|]. split; [done|]. split; [done|].
  rewrite Hc2, Hc1, <- app_assoc. unfold frame_bytes. cbn [fst snd].
  rewrite !take_ge by (rewrite ?encodeFrameHeader_length; lia). done.
Qed.

(** X8. [call] on a connected client whose [clientToServer] ring has
    room for header and request, when the signal byte is sent: the call
    waits on a new [PendingCall] (not done, not in the heap before)
    registered under the sequence number [m_nextSeq] had, [m_nextSeq] is
    incremented modulo 2^32, the ring's unread contents grow by exactly
    the encoded REQUEST header followed by the request bytes, and one
    signal byte is sent on the socket. *)
Theorem call_begin_sends_request c r serviceId methodId request sendSig :
  Client.m_running c = true → Client.m_region c = Some r →
  ring_ok RING_BUFFER_SIZE (clientToServer r) →
  Z.of_nat (length request) < 2 ^ 32 →
  24 + Z.of_nat (length request) ≤ ring_writeAvailable (clientToServer r) →
  0 < sendSig →
  let res := Client.call_begin c serviceId methodId request sendSig in
  let header :=
    Client.request_header serviceId methodId (Client.m_nextSeq c) request in
  ∃ pending ring',
    res.1.1 = Client.Waiting (Client.m_nextSeq c) pending
    ∧ Client.objects c !! pending = None
    ∧ Client.m_pending res.1.2
        = <[Client.m_nextSeq c := pending]> (Client.m_pending c)
    ∧ Client.objects res.1.2
        = <[pending := Client.mkPending false RPC_SUCCESS []]>
            (Client.objects c)
    ∧ Client.m_nextSeq res.1.2 = u32 (Client.m_nextSeq c + 1)
    ∧ Client.m_region res.1.2 = Some (set_clientToServer r ring')
    ∧ ring_ok RING_BUFFER_SIZE ring'
    ∧ contents RING_BUFFER_SIZE ring'
        = contents RING_BUFFER_SIZE (clientToServer r)
            ++ frame_bytes (header, request)
    ∧ res.2 = [SysSignal (Client.m_socketFd c) sendSig].
Proof.
  intros Hrun Hreg Hok Hlen Hroom Hsig res header.
  destruct (two_writes (clientToServer r) header request Hok)
    as (ring1 & ring2 & H1 & H2 & Hok2 & Hc2); [|done|].
  { unfold header, Client.request_header. cbn [payloadBytes].
    apply u32_small. unfold is_u32. lia. }
  subst res. unfold Client.call_begin. rewrite Hreg, Hrun. cbn [negb].
  fold header. rewrite H1. cbn [negb]. rewrite H2. cbn [negb].
  destruct (Z.leb_spec sendSig 0); [lia|].
  exists (fresh (dom (Client.objects c))), ring2. cbn [fst snd].
  split; [done|]. split; [apply not_elem_of_dom, is_fresh|]. done.
Qed.

(** X9. When the wait of [call] ends with the [PendingCall] not done,
    [call] returns [RPC_ERR_TIMEOUT], leaves the caller's vector alone
    and erases the entry for its sequence number; a RESPONSE frame with
    that sequence number dispatched afterwards finds no entry and changes
    nothing. *)
Theorem timeout_drops_late_response c seq0 p pc response :
  Client.objects c !! p = Some pc → Client.done pc = false →
  let res := Client.call_finish c seq0 p response in
  res.1.1 = RPC_ERR_TIMEOUT ∧ res.2 = response
  ∧ Client.m_pending res.1.2 = delete seq0 (Client.m_pending c)
  ∧ Client.objects res.1.2 = Client.objects c
  ∧ ∀ h payload,
      Z.land (flags h) FRAME_RESPONSE ≠ 0 → seq h = seq0 →
      Client.on_frame res.1.2 h payload = res.1.2.
Proof.
  intros Hp Hdone res. subst res. unfold Client.call_finish.
  rewrite Hp. change (default _ (Some pc)) with pc.
  rewrite Hdone. cbn [negb fst snd].
  split; [done|]. split; [done|]. split; [done|]. split; [done|].
  intros h payload Hflag <-. unfold Client.on_frame.
  destruct (Z.eqb_spec (Z.land (flags h) FRAME_RESPONSE) 0); [done|].
  cbn [negb Client.m_pending Client.set_pending].
  by rewrite lookup_delete_eq.
Qed.

(** X10. What the dispatch of one received frame can touch.  It never
    changes the pending table, the region or [m_nextSeq].  A frame with
    the RESPONSE flag changes at most the one [PendingCall] registered
    under its [seq] (none if there is no such entry) and never reaches the
    notify handler, even when the NOTIFY flag is set too.  A frame
    without the RESPONSE flag changes no [PendingCall]; with the NOTIFY
    flag and a handler installed it invokes the handler once with
    [messageId] and the payload, otherwise it does nothing. *)
Theorem client_dispatch_one_target c h payload :
  let c' := Client.on_frame c h payload in
  Client.m_pending c' = Client.m_pending c
  ∧ Client.m_region c' = Client.m_region c
  ∧ Client.m_nextSeq c' = Client.m_nextSeq c
  ∧ (Z.land (flags h) FRAME_RESPONSE ≠ 0 →
     Client.notified c' = Client.notified c
     ∧ (∀ q, Client.m_pending c !! seq h ≠ Some q →
          Client.objects c' !! q = Client.objects c !! q)
     ∧ (Client.m_pending c !! seq h = None → c' = c))
  ∧ (Z.land (flags h) FRAME_RESPONSE = 0 →
     Client.objects c' = Client.objects c
     ∧ (Z.land (flags h) FRAME_NOTIFY ≠ 0 →
        ∀ handler, Client.m_notifyHandler c = Some handler →
          Client.notified c'
            = Client.notified c ++ [(handler, messageId h, payload)])
     ∧ (Z.land (flags h) FRAME_NOTIFY = 0
        ∨ Client.m_notifyHandler c = None → c' = c)).
Proof.
  intros c'. subst c'. unfold Client.on_frame.
  destruct (Z.eqb_spec (Z.land (flags h) FRAME_RESPONSE) 0) as [Hz|Hnz];
    cbn [negb].
  - destruct (Z.eqb_spec (Z.land (flags h) FRAME_NOTIFY) 0) as [Hn|Hn];
      cbn [negb].
    + repeat split; try done; intros; done.
    + destruct (Client.m_notifyHandler c) as [handler|] eqn:Hh;
        repeat split; try done; intros; by intuition simplify_eq.
  - destruct (Client.m_pending c !! seq h) as [p|] eqn:Hp;
      repeat split; try done.
    intros q Hq. cbn [Client.objects Client.set_objects].
    apply lookup_alter_ne. congruence.
Qed.

(* ===================================================================== *)
(** * Client: failing the pending calls *)

(** [fail_pending] marks exactly the objects the table points to. *)
Lemma fail_pending_objects st c q :
  (map_Exists (λ _ p, p = q) (Client.m_pending c) →
   Client.objects (Client.fail_pending st c) !! q
   = (λ pc, Client.mkPending true st (Client.response pc))
       <$> Client.objects c !! q)
  ∧ (¬ map_Exists (λ _ p, p = q) (Client.m_pending c) →
     Client.objects (Client.fail_pending st c) !! q = Client.objects c !! q).
Proof.
  unfold Client.fail_pending. cbn [Client.objects Client.set_objects].
  generalize (Client.objects c). intros o0.
  apply (map_fold_weak_ind
           (λ r (m : gmap Z nat),
              (map_Exists (λ _ p, p = q) m →
               r !! q = (λ pc, Client.mkPending true st (Client.response pc))
                          <$> o0 !! q)
              ∧ (¬ map_Exists (λ _ p, p = q) m → r !! q = o0 !! q))).
  - split; [|done]. intros H. by apply map_Exists_empty in H.
  - intros s p m r Hs [IH1 IH2].
    destruct (decide (p = q)) as [->|Hne].
    + rewrite lookup_alter_eq. split.
      * intros _. destruct (decide (map_Exists (λ _ p, p = q) m)) as [He|Hn].
        -- rewrite IH1 by done. by destruct (o0 !! q).
        -- by rewrite IH2.
      * intros Hn. exfalso. apply Hn. by apply map_Exists_insert_2_1.
    + rewrite lookup_alter_ne by done. split.
      * intros He. apply IH1.
        apply map_Exists_insert_1 in He as [?|?]; done.
      * intros Hn. apply IH2. intros He. apply Hn.
        by apply map_Exists_insert_2_2.
Qed.

Lemma fail_pending_pending st c seq0 p pc :
  Client.m_pending c !! seq0 = Some p → Client.objects c !! p = Some pc →
  Client.objects (Client.fail_pending st c) !! p
    = Some (Client.mkPending true st (Client.response pc)).
Proof.
  intros Hp Ho. destruct (fail_pending_objects st c p) as [H1 _].
  rewrite H1, Ho; [done|]. by apply (map_Exists_lookup_2 _ _ seq0 p).
Qed.

Lemma fail_pending_other st c q :
  (∀ s, Client.m_pending c !! s ≠ Some q) →
  Client.objects (Client.fail_pending st c) !! q = Client.objects c !! q.
Proof.
  intros Hq. destruct (fail_pending_objects st c q) as [_ H2].
  apply H2. intros He.
  apply map_Exists_lookup in He as (s & p & Hs & ->). by destruct (Hq s).
Qed.

(** X11. When the receiver loop ends, every [PendingCall] still in the
    pending table is marked done with [RPC_ERR_DISCONNECTED] (objects the
    table does not point to are left alone), so a call waiting on such an
    entry returns [RPC_ERR_DISCONNECTED], leaves its caller's vector
    alone, and erases its entry. *)
Theorem receiver_exit_fails_pending_calls c seq0 p pc response :
  Client.m_pending c !! seq0 = Some p → Client.objects c !! p = Some pc →
  let c' := Client.receiver_exit c in
  Client.objects c' !! p
    = Some (Client.mkPending true RPC_ERR_DISCONNECTED (Client.response pc))
  ∧ (∀ q, (∀ s, Client.m_pending c !! s ≠ Some q) →
       Client.objects c' !! q = Client.objects c !! q)
  ∧ (Client.call_finish c' seq0 p response).1.1 = RPC_ERR_DISCONNECTED
  ∧ (Client.call_finish c' seq0 p response).2 = response
  ∧ Client.m_pending (Client.call_finish c' seq0 p response).1.2
    = delete seq0 (Client.m_pending c).
Proof.
  intros Hp Ho c'. subst c'. unfold Client.receiver_exit.
  pose proof (fail_pending_pending RPC_ERR_DISCONNECTED c seq0 p pc Hp Ho)
    as Hf.
  split; [done|]. split; [intros q; apply fail_pending_other|].
  unfold Client.call_finish. rewrite Hf.
  change (default _ (Some ?x)) with x. cbn [Client.done negb fst snd].
  split; [done|]. split; [by destruct response|done].
Qed.

Lemma disconnect_running c :
  Client.m_running c = true →
  (Client.disconnect c).1
  = Client.set_fds
      (Client.set_region
         (Client.set_pending
            (Client.fail_pending RPC_ERR_STOPPED
               (Client.fail_pending RPC_ERR_DISCONNECTED
                  (Client.set_running c false))) ∅) None) (-1) (-1).
Proof. intros H. unfold Client.disconnect. rewrite H. reflexivity. Qed.

(** A caller that returns from [call] touches nothing but its own entry
    of the table. *)
Lemma callers_return_fields woken : ∀ c,
  Client.objects (Client.callers_return c woken) = Client.objects c
  ∧ Client.m_running (Client.callers_return c woken) = Client.m_running c
  ∧ Client.m_region (Client.callers_return c woken) = Client.m_region c
  ∧ Client.m_socketFd (Client.callers_return c woken) = Client.m_socketFd c
  ∧ Client.m_shmFd (Client.callers_return c woken) = Client.m_shmFd c
  ∧ ∀ s, s ∉ woken.*1.*1 →
      Client.m_pending (Client.callers_return c woken) !! s
        = Client.m_pending c !! s.
Proof.
  unfold Client.callers_return.
  induction woken as [|[[s0 p0] r0] woken IH]; intros c; [done|].
  cbn [foldl fst snd].
  destruct (IH (Client.call_finish c s0 p0 r0).1.2)
    as (-> & -> & -> & -> & -> & Hp).
  assert (∀ c', c' = (Client.call_finish c s0 p0 r0).1.2 →
            Client.objects c' = Client.objects c
            ∧ Client.m_running c' = Client.m_running c
            ∧ Client.m_region c' = Client.m_region c
            ∧ Client.m_socketFd c' = Client.m_socketFd c
            ∧ Client.m_shmFd c' = Client.m_shmFd c
            ∧ Client.m_pending c' = delete s0 (Client.m_pending c)) as Hone.
  { intros c' ->. unfold Client.call_finish.
    by destruct (negb _). }
  destruct (Hone _ eq_refl) as (-> & -> & -> & -> & -> & Hdel).
  repeat (split; [done|]).
  intros s Hs. rewrite fmap_cons, fmap_cons in Hs. cbn [fst] in Hs.
  apply not_elem_of_cons in Hs as [Hne Hs].
  rewrite (Hp s Hs), Hdel. by apply lookup_delete_ne.
Qed.

(** X12. [disconnect] of a running client and the calls that wait.  When
    [join] has returned, every [PendingCall] of the table is done with
    [RPC_ERR_DISCONNECTED]: a caller that takes [m_pendingMutex] before
    [disconnect] does, after any number of other callers, returns
    [RPC_ERR_DISCONNECTED], leaves its vector alone and erases its entry.
    A caller whose entry is still in the table when [disconnect] takes
    the lock finds it marked [RPC_ERR_STOPPED] and returns that, its
    vector left alone.  Whichever callers came first, [disconnect] leaves
    the table empty, the client not running, the region pointer null and
    both descriptors -1, and has marked [RPC_ERR_STOPPED] only what the
    table held at the lock.  [Client.disconnect] is the case in which no
    caller came first. *)
Theorem disconnect_wakes_pending_calls c woken seq0 p pc response :
  Client.m_running c = true →
  Client.m_pending c !! seq0 = Some p → Client.objects c !! p = Some pc →
  let c1 := (Client.disconnect_join c).1 in
  let c3 := (Client.disconnect_racing c woken).1 in
  (∀ before,
     (Client.call_finish (Client.callers_return c1 before) seq0 p
                         response).1.1 = RPC_ERR_DISCONNECTED
     ∧ (Client.call_finish (Client.callers_return c1 before) seq0 p
                           response).2 = response
     ∧ Client.m_pending
         (Client.call_finish (Client.callers_return c1 before) seq0 p
                             response).1.2 !! seq0 = None)
  ∧ (seq0 ∉ woken.*1.*1 →
     Client.objects c3 !! p
       = Some (Client.mkPending true RPC_ERR_STOPPED (Client.response pc))
     ∧ (Client.call_finish c3 seq0 p response).1.1 = RPC_ERR_STOPPED
     ∧ (Client.call_finish c3 seq0 p response).2 = response)
  ∧ Client.m_pending c3 = ∅
  ∧ Client.m_running c3 = false ∧ Client.m_region c3 = None
  ∧ Client.m_socketFd c3 = -1 ∧ Client.m_shmFd c3 = -1
  ∧ Client.objects c3
    = Client.objects
        (Client.fail_pending RPC_ERR_STOPPED (Client.callers_return c1 woken))
  ∧ (Client.disconnect c).1 = (Client.disconnect_racing c []).1.
Proof.
  intros Hrun Hp Ho c1 c3.
  set (c0 := Client.set_running c false).
  assert (c1 = Client.fail_pending RPC_ERR_DISCONNECTED c0) as Hc1 by done.
  assert (Client.objects c1 !! p
          = Some (Client.mkPending true RPC_ERR_DISCONNECTED
                    (Client.response pc))) as Hobj1.
  { rewrite Hc1.
    apply (fail_pending_pending RPC_ERR_DISCONNECTED c0 seq0 p pc Hp Ho). }
  assert (c3 = Client.set_fds
                 (Client.set_region
                    (Client.set_pending
                       (Client.fail_pending RPC_ERR_STOPPED
                          (Client.callers_return c1 woken)) ∅) None)
                 (-1) (-1)) as Hc3 by done.
  split; [|split].
  - intros before.
    destruct (callers_return_fields before c1) as (Hob & _).
    unfold Client.call_finish. rewrite Hob, Hobj1.
    change (default _ (Some ?x)) with x.
    cbn [Client.done Client.status negb fst snd].
    split; [done|]. split; [by destruct response|].
    cbn [Client.m_pending Client.set_pending]. apply lookup_delete_eq.
  - intros Hnot.
    destruct (callers_return_fields woken c1) as (Hob & _ & _ & _ & _ & Hpend).
    set (c2 := Client.callers_return c1 woken) in *.
    assert (Client.objects (Client.fail_pending RPC_ERR_STOPPED c2) !! p
            = Some (Client.mkPending true RPC_ERR_STOPPED
                      (Client.response pc))) as Hf.
    { apply (fail_pending_pending RPC_ERR_STOPPED c2 seq0 p
               (Client.mkPending true RPC_ERR_DISCONNECTED
                  (Client.response pc))).
      - by rewrite (Hpend seq0 Hnot).
      - by rewrite Hob. }
    rewrite Hc3. unfold Client.call_finish.
    change (Client.objects (Client.set_fds (Client.set_region
              (Client.set_pending (Client.fail_pending RPC_ERR_STOPPED c2) ∅)
              None) (-1) (-1)))
      with (Client.objects (Client.fail_pending RPC_ERR_STOPPED c2)).
    rewrite Hf. change (default _ (Some ?x)) with x.
    cbn [Client.done Client.status negb fst snd].
    split; [done|]. split; [done|]. by destruct response.
  - destruct (callers_return_fields woken c1) as (_ & Hr & _).
    rewrite Hc3. split; [done|]. split.
    { cbn [Client.m_running Client.set_fds Client.set_region
           Client.set_pending Client.fail_pending Client.set_objects].
      by rewrite Hr. }
    repeat (split; [done|]).
    by rewrite (disconnect_running c Hrun).
Qed.

(** X13. [disconnect] is idempotent: after a [disconnect], in either
    state of the client, a second one makes no system call and changes
    nothing.  The first closes the shared-memory descriptor and then the
    socket, each once and only if it is not negative. *)
Theorem disconnect_is_idempotent c :
  Client.disconnect (Client.disconnect c).1 = ((Client.disconnect c).1, [])
  ∧ closed_fds (Client.disconnect c).2
    = (if Client.m_shmFd c >=? 0 then [Client.m_shmFd c] else [])
        ++ (if Client.m_socketFd c >=? 0 then [Client.m_socketFd c] else []).
Proof.
  unfold Client.disconnect, Client.release.
  destruct (Client.m_running c) eqn:Hrun; cbn [negb fst snd].
  - cbn [Client.m_running Client.set_fds Client.set_region Client.set_pending
         Client.fail_pending Client.set_objects Client.set_running negb
         Client.m_region Client.m_shmFd Client.m_socketFd].
    change (-1 >=? 0) with false. cbn [app]. split; [done|].
    destruct (Client.m_region c); destruct (Client.m_shmFd c >=? 0);
      destruct (Client.m_socketFd c >=? 0); done.
  - cbn [Client.m_running Client.set_fds Client.set_region negb
         Client.m_region Client.m_shmFd Client.m_socketFd].
    rewrite Hrun. cbn [negb]. change (-1 >=? 0) with false. cbn [app].
    split; [done|].
    destruct (Client.m_region c); destruct (Client.m_shmFd c >=? 0);
      destruct (Client.m_socketFd c >=? 0); done.
Qed.

(* ===================================================================== *)
(** * Client: connect and notify *)

Lemma connect_attempts_first sock fd i n k :
  (k < n)%nat → (∀ j, (j < k)%nat → sock (i + j)%nat < 0) →
  0 ≤ sock (i + k)%nat →
  Client.connect_attempts sock fd i n = sock (i + k)%nat.
Proof.
  revert fd i k. induction n as [|n IH]; intros fd i k Hk Hbefore Hnow;
    [lia|].
  cbn [Client.connect_attempts].
  destruct k as [|k].
  - rewrite Nat.add_0_r in Hnow.
    destruct (Z.geb_spec (sock i) 0); [by rewrite Nat.add_0_r|lia].
  - pose proof (Hbefore 0%nat ltac:(lia)) as H0. rewrite Nat.add_0_r in H0.
    destruct (Z.geb_spec (sock i) 0); [lia|].
    rewrite (IH _ (S i) k); [f_equal; lia|lia| |].
    + intros j Hj. replace (S i + j)%nat with (i + S j)%nat by lia.
      apply Hbefore. lia.
    + by replace (S i + k)%nat with (i + S k)%nat by lia.
Qed.

Lemma connect_attempts_none sock fd i n :
  (0 < n)%nat → (∀ j, (j < n)%nat → sock (i + j)%nat < 0) →
  Client.connect_attempts sock fd i n = sock (i + (n - 1))%nat.
Proof.
  revert fd i. induction n as [|n IH]; intros fd i Hn Hall; [lia|].
  cbn [Client.connect_attempts].
  pose proof (Hall 0%nat ltac:(lia)) as H0. rewrite Nat.add_0_r in H0.
  destruct (Z.geb_spec (sock i) 0); [lia|].
  destruct n as [|n].
  - cbn [Client.connect_attempts]. f_equal. lia.
  - rewrite IH; [f_equal; lia|lia|].
    intros j Hj. replace (S i + j)%nat with (i + S j)%nat by lia.
    apply Hall. lia.
Qed.

(** X14. The retry loop of [connect]: the socket used is the one of the
    first attempt that succeeds, among the first [maxAttempts]; if all
    [maxAttempts] (at least one) fail, [connect] returns false having
    made no further system call, with [m_socketFd] the result of the last
    attempt; with [maxAttempts] of 0 or less no attempt is made and a
    client without socket returns false unchanged. *)
Theorem connect_retries_until_socket c ver maxAttempts env :
  let res := Client.connect c ver maxAttempts env in
  (∀ k, (k < Z.to_nat maxAttempts)%nat →
        (∀ j, (j < k)%nat → Client.env_sock env j < 0) →
        0 ≤ Client.env_sock env k →
        Client.connect_attempts (Client.env_sock env) (Client.m_socketFd c)
                                0 (Z.to_nat maxAttempts)
        = Client.env_sock env k)
  ∧ (0 < maxAttempts →
     (∀ j, (j < Z.to_nat maxAttempts)%nat → Client.env_sock env j < 0) →
     res = (false,
            Client.set_fds c
              (Client.env_sock env (Z.to_nat maxAttempts - 1))
              (Client.m_shmFd c), []))
  ∧ (maxAttempts ≤ 0 → Client.m_socketFd c < 0 → res = (false, c, [])).
Proof.
  intros res. split; [|split].
  - intros k Hk Hbefore Hnow.
    by apply (connect_attempts_first _ _ 0%nat _ k).
  - intros Hn Hall. subst res. unfold Client.connect.
    rewrite (connect_attempts_none _ _ 0%nat) by (done || lia).
    cbn [Nat.add].
    pose proof (Hall (Z.to_nat maxAttempts - 1)%nat ltac:(lia)) as Hlast.
    by destruct (Z.ltb_spec
                   (Client.env_sock env (Z.to_nat maxAttempts - 1)) 0);
      [|lia].
  - intros Hn Hfd. subst res. unfold Client.connect.
    replace (Z.to_nat maxAttempts) with 0%nat by lia.
    cbn [Client.connect_attempts].
    destruct (Z.ltb_spec (Client.m_socketFd c) 0); [|lia].
    by destruct c.
Qed.

(** X15. [connect] of a client that is not running returns true exactly
    when a socket was obtained, the shared memory was created and mapped,
    the descriptor message was sent, and an ACK byte other than 0 was
    received.  It then holds the socket and the memory descriptor, both
    rings of the mapped region have been reset, the client is running,
    and the system calls made past the mapping are the descriptor message
    followed by the start of the receiver thread. *)
Theorem connect_succeeds_iff c ver maxAttempts env :
  Client.m_running c = false →
  let fd := Client.connect_attempts (Client.env_sock env)
              (Client.m_socketFd c) 0 (Z.to_nat maxAttempts) in
  let res := Client.connect c ver maxAttempts env in
  (res.1.1 = true
   ↔ 0 ≤ fd ∧ 0 ≤ Client.env_shm env ∧ is_Some (Client.env_mmap env)
     ∧ 0 < Client.env_sendfd env ∧ 0 < Client.env_recv env
     ∧ Client.env_ack env ≠ 0)
  ∧ (res.1.1 = true →
     ∃ mem, Client.env_mmap env = Some mem
       ∧ res.1.2
         = Client.set_running
             (Client.set_region (Client.set_fds c fd (Client.env_shm env))
                (Some (mkRegion (reset (clientToServer mem))
                                (reset (serverToClient mem))))) true
       ∧ res.2 = [SysSendFd fd ver (Client.env_shm env); SysSpawn]).
Proof.
  intros _ fd res. subst res. unfold Client.connect. fold fd.
  destruct (Z.ltb_spec fd 0).
  { cbn [fst snd]. split; [split; [done|lia]|done]. }
  destruct (Z.ltb_spec (Client.env_shm env) 0).
  { cbn [fst snd]. split; [split; [done|lia]|done]. }
  destruct (Client.env_mmap env) as [mem|].
  2:{ cbn [fst snd]. split; [split; [done|]|done].
      intros (_ & _ & [? [=]] & _). }
  destruct (Z.leb_spec (Client.env_sendfd env) 0).
  { destruct (Client.disconnect _) as [c2 tr]. cbn [fst snd].
    split; [split; [done|lia]|done]. }
  destruct (Z.leb_spec (Client.env_recv env) 0); cbn [orb].
  { destruct (Client.disconnect _) as [c2 tr]. cbn [fst snd].
    split; [split; [done|lia]|done]. }
  destruct (Z.eqb_spec (Client.env_ack env) 0).
  { destruct (Client.disconnect _) as [c2 tr]. cbn [fst snd].
    split; [split; [done|lia]|done]. }
  cbn [fst snd]. split; [split; [|done]|].
  - intros _. repeat (split; [lia || done|]). done.
  - intros _. by exists mem.
Qed.

(** X16. A [connect] that returns false on a client that was not
    connected leaves nothing behind: the client is not running, has no
    region and no socket, its pending table is untouched, every
    descriptor obtained on the way (the shared memory, then the socket)
    has been closed exactly once, and if the region was mapped it has
    been unmapped and no receiver thread was started. *)
Theorem connect_failure_releases c ver maxAttempts env :
  Client.m_running c = false → Client.m_region c = None →
  let fd := Client.connect_attempts (Client.env_sock env)
              (Client.m_socketFd c) 0 (Z.to_nat maxAttempts) in
  let res := Client.connect c ver maxAttempts env in
  res.1.1 = false →
  Client.m_running res.1.2 = false ∧ Client.m_region res.1.2 = None
  ∧ Client.m_socketFd res.1.2 < 0
  ∧ Client.m_pending res.1.2 = Client.m_pending c
  ∧ closed_fds res.2
    = (if fd <? 0 then []
       else (if Client.env_shm env <? 0 then [] else [Client.env_shm env])
              ++ [fd])
  ∧ (0 ≤ fd → 0 ≤ Client.env_shm env → is_Some (Client.env_mmap env) →
     SysMunmap ∈ res.2 ∧ SysSpawn ∉ res.2).
Proof.
  intros Hrun Hreg fd res. subst res. unfold Client.connect. fold fd.
  destruct (Z.ltb_spec fd 0).
  { cbn [fst snd]. intros _. repeat (split; [done|]). lia. }
  destruct (Z.ltb_spec (Client.env_shm env) 0).
  { cbn [fst snd]. intros _. repeat (split; [done|]). lia. }
  destruct (Client.env_mmap env) as [mem|].
  2:{ cbn [fst snd]. intros _. do 5 (split; [done|]).
      intros _ _ Hn. destruct (is_Some_None Hn). }
  set (c1 := Client.set_region _ _).
  assert (Client.disconnect c1
          = (Client.set_fds (Client.set_region c1 None) (-1) (-1),
             [SysMunmap; SysClose (Client.env_shm env); SysClose fd])) as Hd.
  { unfold Client.disconnect, Client.release.
    change (Client.m_running c1) with (Client.m_running c). rewrite Hrun.
    cbn [negb]. f_equal.
    change (Client.m_region c1)
      with (Some (mkRegion (reset (clientToServer mem))
                           (reset (serverToClient mem)))).
    change (Client.m_shmFd c1) with (Client.env_shm env).
    change (Client.m_socketFd c1) with fd.
    destruct (Z.geb_spec (Client.env_shm env) 0); [|lia].
    destruct (Z.geb_spec fd 0); [|lia]. done. }
  assert (SysMunmap ∈ [SysSendFd fd ver (Client.env_shm env); SysMunmap;
                       SysClose (Client.env_shm env); SysClose fd]
          ∧ SysSpawn ∉ [SysSendFd fd ver (Client.env_shm env); SysMunmap;
                       SysClose (Client.env_shm env); SysClose fd]) as Htr.
  { split; [set_solver|]. intros Hin.
    repeat (apply elem_of_cons in Hin as [?|Hin]; [done|]).
    by apply elem_of_nil in Hin. }
  destruct (Z.leb_spec (Client.env_sendfd env) 0).
  { rewrite Hd. cbn [fst snd]. intros _. repeat (split; [done|]). done. }
  destruct (Z.leb_spec (Client.env_recv env) 0); cbn [orb].
  { rewrite Hd. cbn [fst snd]. intros _. repeat (split; [done|]). done. }
  destruct (Z.eqb_spec (Client.env_ack env) 0).
  { rewrite Hd. cbn [fst snd]. intros _. repeat (split; [done|]). done. }
  cbn [fst snd]. done.
Qed.

(** X17. [Client::notify] on a connected client whose [clientToServer]
    ring has room for header and payload appends exactly the encoded
    NOTIFY header ([seq] and [aux] 0) and the payload to the ring's
    unread contents, sends one signal byte, and changes nothing else of
    the client (no pending entry, no sequence number used).  It returns
    [RPC_SUCCESS] if the signal byte was sent and [RPC_ERR_DISCONNECTED]
    otherwise, in which case the frame stays in the ring. *)
Theorem client_notify_sends_frame c r serviceId notifyId payload sendSig :
  Client.m_running c = true → Client.m_region c = Some r →
  ring_ok RING_BUFFER_SIZE (clientToServer r) →
  Z.of_nat (length payload) < 2 ^ 32 →
  24 + Z.of_nat (length payload) ≤ ring_writeAvailable (clientToServer r) →
  let res := Client.notify c serviceId notifyId payload sendSig in
  let header := Client.notify_header serviceId notifyId payload in
  ∃ ring',
    res.1.1 = (if sendSig >? 0 then RPC_SUCCESS else RPC_ERR_DISCONNECTED)
    ∧ res.1.2 = Client.set_region c (Some (set_clientToServer r ring'))
    ∧ ring_ok RING_BUFFER_SIZE ring'
    ∧ contents RING_BUFFER_SIZE ring'
        = contents RING_BUFFER_SIZE (clientToServer r)
            ++ frame_bytes (header, payload)
    ∧ res.2 = [SysSignal (Client.m_socketFd c) sendSig].
Proof.
  intros Hrun Hreg Hok Hlen Hroom res header.
  destruct (two_writes (clientToServer r) header payload Hok)
    as (ring1 & ring2 & H1 & H2 & Hok2 & Hc2); [|done|].
  { unfold header, Client.notify_header. cbn [payloadBytes].
    apply u32_small. unfold is_u32. lia. }
  subst res. unfold Client.notify. rewrite Hreg, Hrun. cbn [negb].
  fold header. rewrite H1. cbn [negb]. rewrite H2. cbn [negb].
  exists ring2. cbn [fst snd]. done.
Qed.

(* ===================================================================== *)
(** * Service: the connection loop *)

Lemma request_header_ok serviceId methodId seq0 request :
  is_u32 serviceId → is_u32 methodId → is_u32 seq0 →
  header_ok (Client.request_header serviceId methodId seq0 request).
Proof.
  intros. split; cbn; try done; try apply u32_range;
    unfold is_u16, is_u32, PROTOCOL_VERSION, FRAME_REQUEST; lia.
Qed.

Lemma response_payloadBytes h st resp :
  Z.of_nat (length resp) < 2 ^ 32 →
  payloadBytes (Service.response_header h st resp) = Z.of_nat (length resp).
Proof. intros. cbn. apply u32_small. unfold is_u32. lia. Qed.

(** One iteration of the connection loop on a REQUEST frame, when the
    response fits. *)
Lemma connection_iter_request s sendSig conn r h payload rest st resp :
  Service.region conn = Some r →
  ring_ok RING_BUFFER_SIZE (clientToServer r) →
  ring_ok RING_BUFFER_SIZE (serverToClient r) →
  header_ok h → payloadBytes h = Z.of_nat (length payload) →
  Z.land (flags h) FRAME_REQUEST ≠ 0 →
  contents RING_BUFFER_SIZE (clientToServer r)
    = frame_bytes (h, payload) ++ rest →
  Service.run_handler (Service.m_handler s) h payload = (st, resp) →
  Z.of_nat (length resp) < 2 ^ 32 →
  24 + Z.of_nat (length resp) ≤ ring_writeAvailable (serverToClient r) →
  ∃ ring1 ring2,
    Service.connection_iter s sendSig conn
      = Some (Service.set_region conn (mkRegion ring1 ring2),
              [SysSignal (Service.socketFd conn) sendSig])
    ∧ ring_ok RING_BUFFER_SIZE ring1 ∧ ring_ok RING_BUFFER_SIZE ring2
    ∧ contents RING_BUFFER_SIZE ring1 = rest
    ∧ contents RING_BUFFER_SIZE ring2
        = contents RING_BUFFER_SIZE (serverToClient r)
            ++ frame_bytes (Service.response_header h st resp, resp).
Proof.
  intros Hreg Hok1 Hok2 Hh Hp Hflag Hc Hrun Hlen Hroom.
  unfold frame_bytes in Hc. cbn [fst snd] in Hc. rewrite <- app_assoc in Hc.
  destruct (take_frame_contents _ h payload rest Hok1 Hh Hp Hc)
    as (ring1 & Htake & Hok1' & Hc1).
  destruct (two_writes (serverToClient r)
              (Service.response_header h st resp) resp Hok2)
    as (w1 & w2 & Hw1 & Hw2 & Hokw & Hcw);
    [by apply response_payloadBytes|done|].
  exists ring1, w2.
  unfold Service.connection_iter. rewrite Hreg, Htake.
  unfold Service.on_frame.
  destruct (Z.eqb_spec (Z.land (flags h) FRAME_REQUEST) 0); [done|].
  cbn [negb]. rewrite Hrun.
  change (serverToClient (set_clientToServer r ring1))
    with (serverToClient r).
  rewrite Hw1. cbn [negb]. rewrite Hw2. cbn [negb].
  split; [by destruct r|]. done.
Qed.

(** X18. One iteration of the inner loop of [connectionLoop] with a
    whole REQUEST frame at the front of the [clientToServer] ring, a
    handler result of status [st] and response [resp], and room for the
    response in the [serverToClient] ring: the request is removed from
    the front of the ring, the unread contents of the [serverToClient]
    ring grow by exactly the encoded RESPONSE header (same [seq],
    [aux] the status as [uint32_t]) followed by [resp], and one signal
    byte is sent on the connection's socket. *)
Theorem connection_answers_request s sendSig conn r h payload rest st resp :
  Service.region conn = Some r →
  ring_ok RING_BUFFER_SIZE (clientToServer r) →
  ring_ok RING_BUFFER_SIZE (serverToClient r) →
  frame_ok (h, payload) →
  Z.land (flags h) FRAME_REQUEST ≠ 0 →
  contents RING_BUFFER_SIZE (clientToServer r)
    = frame_bytes (h, payload) ++ rest →
  Service.run_handler (Service.m_handler s) h payload = (st, resp) →
  Z.of_nat (length resp) < 2 ^ 32 →
  24 + Z.of_nat (length resp) ≤ ring_writeAvailable (serverToClient r) →
  ∃ ring1 ring2,
    Service.connection_iter s sendSig conn
      = Some (Service.set_region conn (mkRegion ring1 ring2),
              [SysSignal (Service.socketFd conn) sendSig])
    ∧ ring_ok RING_BUFFER_SIZE ring1 ∧ ring_ok RING_BUFFER_SIZE ring2
    ∧ contents RING_BUFFER_SIZE ring1 = rest
    ∧ contents RING_BUFFER_SIZE ring2
        = contents RING_BUFFER_SIZE (serverToClient r)
            ++ frame_bytes (Service.response_header h st resp, resp)
    ∧ seq (Service.response_header h st resp) = seq h
    ∧ aux (Service.response_header h st resp) = u32 st.
Proof.
  intros Hreg Hok1 Hok2 [Hh Hp] Hflag Hc Hrun Hlen Hroom.
  destruct (connection_iter_request s sendSig conn r h payload rest st resp)
    as (ring1 & ring2 & H); try done.
  exists ring1, ring2. by destruct H as (? & ? & ? & ? & ?).
Qed.

(** X19. One iteration of the inner loop of [connectionLoop] with a
    whole frame at the front of the [clientToServer] ring that either
    lacks the REQUEST flag, or is a request while the [serverToClient]
    ring has less than 24 bytes free: the frame is consumed all the same,
    the [serverToClient] ring is left as it was and no signal byte is
    sent.  Such a request is lost without an answer. *)
Theorem connection_drops_unanswerable s sendSig conn r h payload rest :
  Service.region conn = Some r →
  ring_ok RING_BUFFER_SIZE (clientToServer r) →
  frame_ok (h, payload) →
  contents RING_BUFFER_SIZE (clientToServer r)
    = frame_bytes (h, payload) ++ rest →
  Z.land (flags h) FRAME_REQUEST = 0
  ∨ ring_writeAvailable (serverToClient r) < 24 →
  ∃ ring1,
    Service.connection_iter s sendSig conn
      = Some (Service.set_region conn (mkRegion ring1 (serverToClient r)), [])
    ∧ ring_ok RING_BUFFER_SIZE ring1
    ∧ contents RING_BUFFER_SIZE ring1 = rest.
Proof.
  intros Hreg Hok1 [Hh Hp] Hc Hcase. cbn [fst snd] in *.
  unfold frame_bytes in Hc. cbn [fst snd] in Hc. rewrite <- app_assoc in Hc.
  destruct (take_frame_contents _ h payload rest Hok1 Hh Hp Hc)
    as (ring1 & Htake & Hok1' & Hc1).
  exists ring1. unfold Service.connection_iter. rewrite Hreg, Htake.
  unfold Service.on_frame.
  destruct (Z.eqb_spec (Z.land (flags h) FRAME_REQUEST) 0) as [Hz|Hnz];
    cbn [negb].
  - split; [by destruct r|done].
  - destruct Hcase as [?|Hfull]; [done|].
    destruct (Service.run_handler _ _ _) as [st resp].
    change (serverToClient (set_clientToServer r ring1))
      with (serverToClient r).
    rewrite encodeFrameHeader_length. change (u32 (Z.of_nat 24)) with 24.
    unfold ring_write, ring_writeAvailable in *.
    rewrite (write_failure RING_BUFFER_SIZE) by lia.
    cbn [negb]. split; [by destruct r|done].
Qed.

(** X20. The round trip of a call.  A connected client with both rings
    empty makes a call whose request fits the ring; the connection's
    receiver handles it with a handler that returns status [st] (an
    [int]) and a response that fits the ring; the client's receiver
    takes the answer; the call then returns [st], stores the handler's
    response bytes in the caller's vector if [st] is [RPC_SUCCESS] and
    leaves the vector alone otherwise, and the pending table is as
    before the call (without an entry for the call's sequence number). *)
Theorem call_round_trip c r s serviceId methodId request sendSig sock shm
    st resp old :
  Client.m_running c = true → Client.m_region c = Some r →
  ring_ok RING_BUFFER_SIZE (clientToServer r) →
  ring_ok RING_BUFFER_SIZE (serverToClient r) →
  contents RING_BUFFER_SIZE (clientToServer r) = [] →
  contents RING_BUFFER_SIZE (serverToClient r) = [] →
  is_u32 serviceId → is_u32 methodId → is_u32 (Client.m_nextSeq c) →
  24 + Z.of_nat (length request) ≤ RING_BUFFER_SIZE →
  Service.run_handler (Service.m_handler s)
    (Client.request_header serviceId methodId (Client.m_nextSeq c) request)
    request = (st, resp) →
  is_int st → 24 + Z.of_nat (length resp) ≤ RING_BUFFER_SIZE →
  0 < sendSig →
  ∃ pending c1 tr1 conn' tr2 c2,
    Client.call_begin c serviceId methodId request sendSig
      = (Client.Waiting (Client.m_nextSeq c) pending, c1, tr1)
    ∧ Service.connection_iter s sendSig
        (Service.mkConnection sock shm (Client.m_region c1))
      = Some (conn', tr2)
    ∧ Client.receiver_iter (Client.set_region c1 (Service.region conn'))
      = Some c2
    ∧ (Client.call_finish c2 (Client.m_nextSeq c) pending (Some old)).1.1
      = st
    ∧ (Client.call_finish c2 (Client.m_nextSeq c) pending (Some old)).2
      = Some (if st =? RPC_SUCCESS then resp else old)
    ∧ Client.m_pending
        (Client.call_finish c2 (Client.m_nextSeq c) pending (Some old)).1.2
      = delete (Client.m_nextSeq c) (Client.m_pending c).
Proof.
  intros Hrun Hreg Hok1 Hok2 Hc1 Hc2 Hsid Hmid Hseq Hlen Hh Hst Hrlen Hsig.
  set (seq0 := Client.m_nextSeq c) in *.
  set (h := Client.request_header serviceId methodId seq0 request) in *.
  pose proof (contents_length_ring _ Hok1) as Hl1.
  pose proof (contents_length_ring _ Hok2) as Hl2.
  rewrite Hc1 in Hl1. rewrite Hc2 in Hl2. cbn [length] in Hl1, Hl2.
  destruct (ring_ok_writeAvailable _ ring_buffer_size_ok _ Hok1) as [Hf1 _].
  destruct (ring_ok_writeAvailable _ ring_buffer_size_ok _ Hok2) as [Hf2 _].
  assert (RING_BUFFER_SIZE < 2 ^ 32) as HR by (unfold RING_BUFFER_SIZE; zlia).
  assert (header_ok h) as Hhok by (by apply request_header_ok).
  assert (payloadBytes h = Z.of_nat (length request)) as Hpb.
  { unfold h. cbn. apply u32_small. unfold is_u32. lia. }
  (* the client writes the request *)
  destruct (two_writes (clientToServer r) h request Hok1 Hpb)
    as (w1 & w2 & Hw1 & Hw2 & Hokw & Hcw);
    [unfold ring_writeAvailable; lia|].
  rewrite Hc1 in Hcw. cbn [app] in Hcw.
  set (pending := fresh (dom (Client.objects c))).
  set (r1 := set_clientToServer r w2).
  set (c1 := Client.set_pending
               (Client.set_objects
                  (Client.set_region (Client.set_nextSeq c (u32 (seq0 + 1)))
                     (Some r1))
                  (<[pending := Client.mkPending false RPC_SUCCESS []]>
                     (Client.objects c)))
               (<[seq0 := pending]> (Client.m_pending c))).
  assert (Client.call_begin c serviceId methodId request sendSig
          = (Client.Waiting seq0 pending, c1,
             [SysSignal (Client.m_socketFd c) sendSig])) as Hbegin.
  { unfold Client.call_begin. rewrite Hreg, Hrun. cbn [negb].
    fold seq0. fold h. rewrite Hw1. cbn [negb]. rewrite Hw2. cbn [negb].
    destruct (Z.leb_spec sendSig 0); [lia|]. done. }
  (* the connection answers *)
  destruct (connection_iter_request s sendSig
              (Service.mkConnection sock shm (Some r1)) r1 h request [] st
              resp) as (q1 & q2 & Hiter & Hokq1 & Hokq2 & Hcq1 & Hcq2);
    try done.
  { by rewrite app_nil_r. }
  { lia. }
  { change (serverToClient r1) with (serverToClient r).
    unfold ring_writeAvailable. lia. }
  change (serverToClient r1) with (serverToClient r) in Hcq2.
  rewrite Hc2 in Hcq2. cbn [app] in Hcq2.
  set (rh := Service.response_header h st resp) in *.
  (* the client takes the response *)
  unfold frame_bytes in Hcq2. cbn [fst snd] in Hcq2.
  destruct (take_frame_contents q2 rh resp [] Hokq2)
    as (q3 & Htake & Hokq3 & Hcq3).
  { by apply response_header_ok. }
  { apply response_payloadBytes. lia. }
  { by rewrite app_nil_r. }
  set (c1' := Client.set_region c1
                (Some (set_serverToClient (mkRegion q1 q2) q3))).
  destruct (on_frame_response c1' rh resp pending) as [Hobj Hpend].
  { done. }
  { change (seq rh) with seq0. apply lookup_insert_eq. }
  { exists (Client.mkPending false RPC_SUCCESS []). apply lookup_insert_eq. }
  exists pending, c1, [SysSignal (Client.m_socketFd c) sendSig],
    (Service.set_region (Service.mkConnection sock shm (Some r1))
       (mkRegion q1 q2)),
    [SysSignal sock sendSig], (Client.on_frame c1' rh resp).
  split; [done|]. split; [done|].
  split.
  { unfold Client.receiver_iter.
    cbn [Client.m_region Client.set_region Service.region Service.set_region].
    change (serverToClient (mkRegion q1 q2)) with q2. by rewrite Htake. }
  unfold Client.call_finish. rewrite Hobj, Hpend.
  change (default _ (Some ?x)) with x.
  cbn [Client.done Client.status Client.response negb fst snd].
  assert (s32 (aux rh) = st) as -> by (by apply s32_u32_int).
  split; [done|]. split; [by destruct (st =? RPC_SUCCESS)|].
  cbn [Client.m_pending Client.set_pending Client.set_region c1'].
  unfold c1. cbn [Client.m_pending Client.set_pending].
  apply delete_insert_eq.
Qed.

(* ===================================================================== *)
(** * Service: notify, accept, stop *)


Lemma notify_loop_success sendSignal header payload conns :
  payloadBytes header = Z.of_nat (length payload) →
  Forall (notify_ready sendSignal payload) conns →
  let res := Service.notify_loop sendSignal header payload conns in
  res.1.1 = RPC_SUCCESS
  ∧ Forall2 (got_frame (header, payload)) conns res.1.2
  ∧ res.2 = signals_sent sendSignal conns.
Proof.
  intros Hp. induction 1 as [|a rest Ha Hrest IH]; cbn zeta.
  { cbn. done. }
  cbn [Service.notify_loop]. unfold Service.notify_one.
  unfold notify_ready in Ha.
  destruct (Service.region a) as [r|] eqn:Hreg.
  - destruct Ha as (Hok & Hroom & Hsig).
    destruct (two_writes (serverToClient r) header payload Hok Hp Hroom)
      as (ring1 & ring2 & H1 & H2 & Hok2 & Hc2).
    rewrite H1. cbn [negb]. rewrite H2. cbn [negb].
    destruct (Z.leb_spec (sendSignal (Service.socketFd a)) 0); [lia|].
    destruct (Service.notify_loop sendSignal header payload rest)
      as [[st rest'] tr'].
    cbn [fst snd] in *. destruct IH as (-> & Hf & ->).
    split; [done|]. split.
    + constructor; [|done]. unfold got_frame. rewrite Hreg.
      split; [done|]. split; [done|]. by exists ring2.
    + unfold signals_sent. cbn [flat_map]. by rewrite Hreg.
  - destruct (Service.notify_loop sendSignal header payload rest)
      as [[st rest'] tr'].
    cbn [fst snd] in *. destruct IH as (-> & Hf & ->).
    split; [done|]. split.
    + constructor; [|done]. unfold got_frame. by rewrite Hreg.
    + unfold signals_sent. cbn [flat_map]. by rewrite Hreg.
Qed.

(** X21. [Service::notify] returns [RPC_SUCCESS] when every connection
    either has no region or has room for the frame and takes the signal
    byte.  Every connection with a region then has exactly the encoded
    NOTIFY header and the payload appended to the unread contents of its
    [serverToClient] ring, connections without region are skipped, one
    signal byte is sent per connection with a region, in list order, and
    nothing else of the service changes. *)
Theorem notify_reaches_all s serviceId notifyId payload sendSignal :
  Z.of_nat (length payload) < 2 ^ 32 →
  Forall (notify_ready sendSignal payload) (Service.m_connections s) →
  let header := Service.notify_header serviceId notifyId payload in
  let res := Service.notify s serviceId notifyId payload sendSignal in
  res.1.1 = RPC_SUCCESS
  ∧ Forall2 (got_frame (header, payload))
      (Service.m_connections s) (Service.m_connections res.1.2)
  ∧ res.2 = signals_sent sendSignal (Service.m_connections s)
  ∧ Service.m_running res.1.2 = Service.m_running s
  ∧ Service.m_listenFd res.1.2 = Service.m_listenFd s
  ∧ Service.m_handler res.1.2 = Service.m_handler s.
Proof.
  intros Hlen Hready header res. subst res. unfold Service.notify.
  fold header.
  pose proof (notify_loop_success sendSignal header payload
                (Service.m_connections s)) as H.
  destruct (Service.notify_loop sendSignal header payload
              (Service.m_connections s)) as [[st conns'] tr].
  cbn [fst snd] in *.
  destruct H as (-> & Hf & ->); [|done|done].
  unfold header, Service.notify_header. cbn [payloadBytes].
  apply u32_small. unfold is_u32. lia.
Qed.

(** X22. One iteration of the accept loop registers a connection exactly
    when it accepted a socket, received a message carrying a descriptor
    and [PROTOCOL_VERSION], and mapped the memory: it then sends the ACK
    byte 1, starts the connection's thread and appends the connection at
    the end of the list.  In every other case the service is unchanged,
    no thread is started, and the descriptors obtained (the received one
    if any, then the accepted socket) are closed, each once. *)
Theorem accept_adds_connection_iff s env :
  let accepted :=
    0 ≤ Service.acc_clientFd env ∧ 0 < Service.acc_recv env
    ∧ 0 ≤ Service.acc_fd env
    ∧ Service.acc_version env = PROTOCOL_VERSION
    ∧ is_Some (Service.acc_mmap env) in
  let res := Service.accept_one s env in
  (accepted →
   ∃ mem, Service.acc_mmap env = Some mem
     ∧ res = (Service.set_connections s
                (Service.m_connections s
                   ++ [Service.mkConnection (Service.acc_clientFd env)
                         (Service.acc_fd env) (Some mem)]),
              [SysSend (Service.acc_clientFd env) [1]; SysSpawn]))
  ∧ (¬ accepted →
     res.1 = s ∧ (SysSpawn ∉ res.2)
     ∧ closed_fds res.2
       = (if Service.acc_clientFd env <? 0 then []
          else (if (Service.acc_recv env <=? 0) || (Service.acc_fd env <? 0)
                then [] else [Service.acc_fd env])
                 ++ [Service.acc_clientFd env])).
Proof.
  intros accepted res. subst accepted res. unfold Service.accept_one.
  destruct (Z.ltb_spec (Service.acc_clientFd env) 0).
  { split; [lia|]. intros _. cbn [fst snd closed_fds omap].
    split; [done|]. split; [apply not_elem_of_nil|done]. }
  destruct (Z.leb_spec (Service.acc_recv env) 0); cbn [orb].
  { change (-1 <? 0) with true. cbn [orb].
    split; [lia|]. intros _. cbn [fst snd].
    split; [done|]. split; [|done].
    intros Hin. apply elem_of_cons in Hin as [?|Hin]; [done|].
    by apply elem_of_nil in Hin. }
  destruct (Z.ltb_spec (Service.acc_fd env) 0).
  { split; [lia|]. intros _. cbn [fst snd].
    split; [done|]. split; [|done].
    intros Hin. apply elem_of_cons in Hin as [?|Hin]; [done|].
    by apply elem_of_nil in Hin. }
  destruct (Z.eqb_spec (Service.acc_version env) PROTOCOL_VERSION).
  2:{ change (0 =? 0) with true. cbn iota.
      split; [by intros (_ & _ & _ & ? & _)|]. intros _. cbn [fst snd].
      split; [done|]. split; [|done]. intros Hin.
      repeat (apply elem_of_cons in Hin as [?|Hin]; [done|]).
      by apply elem_of_nil in Hin. }
  change (1 =? 0) with false. cbn iota.
  destruct (Service.acc_mmap env) as [mem|].
  - split; [intros _; by exists mem|].
    intros Hn. exfalso. apply Hn. repeat (split; [lia || done|]). done.
  - split; [intros (_ & _ & _ & _ & Hs); destruct (is_Some_None Hs)|].
    intros _. cbn [fst snd]. split; [done|]. split; [|done]. intros Hin.
    repeat (apply elem_of_cons in Hin as [?|Hin]; [done|]).
    by apply elem_of_nil in Hin.
Qed.

Lemma closed_fds_app a b : closed_fds (a ++ b) = closed_fds a ++ closed_fds b.
Proof. unfold closed_fds. apply omap_app. Qed.

Lemma closed_fds_flat_map {A} (f : A → list Sys) l :
  closed_fds (flat_map f l) = flat_map (λ x, closed_fds (f x)) l.
Proof.
  induction l as [|x l IH]; [done|].
  cbn [flat_map]. by rewrite closed_fds_app, IH.
Qed.

Lemma closed_fds_shutdowns (l : list Service.Connection) :
  closed_fds
    (flat_map (λ c, if Service.socketFd c >=? 0
                    then [SysShutdown (Service.socketFd c)] else []) l) = [].
Proof.
  rewrite closed_fds_flat_map. induction l as [|c l IH]; [done|].
  cbn [flat_map]. rewrite IH. by destruct (_ >=? _).
Qed.

(** X23. [stop] of a running service leaves it not running, without
    connections and without listening socket, keeps the handler, and
    closes, each once and in this order, the listening socket and then
    for every connection its shared-memory descriptor and its socket
    (those that are not negative).  A second [stop] makes no system call
    and changes nothing. *)
Theorem stop_closes_everything s :
  Service.m_running s = true →
  let res := Service.stop s in
  Service.m_running res.1 = false
  ∧ Service.m_connections res.1 = []
  ∧ Service.m_listenFd res.1 < 0
  ∧ Service.m_handler res.1 = Service.m_handler s
  ∧ closed_fds res.2
    = (if Service.m_listenFd s >=? 0 then [Service.m_listenFd s] else [])
        ++ flat_map
             (λ c, (if Service.shmFd c >=? 0 then [Service.shmFd c] else [])
                     ++ (if Service.socketFd c >=? 0
                         then [Service.socketFd c] else []))
             (Service.m_connections s)
  ∧ Service.stop res.1 = (res.1, []).
Proof.
  intros Hrun res. subst res. unfold Service.stop at 1 2 3 4 5.
  rewrite Hrun. cbn [negb fst snd Service.m_running Service.m_connections
                     Service.m_listenFd Service.m_handler].
  split; [done|]. split; [done|].
  split; [destruct (Z.geb_spec (Service.m_listenFd s) 0); lia|].
  split; [done|]. split.
  - rewrite !closed_fds_app, closed_fds_shutdowns, closed_fds_flat_map.
    cbn [app]. f_equal.
    + by destruct (_ >=? _).
    + apply flat_map_ext. intros c. unfold Service.closeConnection.
      cbn [snd]. rewrite !closed_fds_app.
      destruct (Service.region c); destruct (Service.shmFd c >=? 0);
        destruct (Service.socketFd c >=? 0); done.
  - unfold Service.stop. rewrite Hrun. done.
Qed.

(* ===================================================================== *)
(** * EventDispatcher *)

Lemma ed_wakeup_fields d :
  EventDispatcher.m_running (EventDispatcher.wakeup d)
    = EventDispatcher.m_running d
  ∧ EventDispatcher.m_stopRequested (EventDispatcher.wakeup d)
    = EventDispatcher.m_stopRequested d
  ∧ EventDispatcher.m_fdEntries (EventDispatcher.wakeup d)
    = EventDispatcher.m_fdEntries d
  ∧ EventDispatcher.m_postQueue (EventDispatcher.wakeup d)
    = EventDispatcher.m_postQueue d
  ∧ EventDispatcher.log (EventDispatcher.wakeup d) = EventDispatcher.log d.
Proof. unfold EventDispatcher.wakeup. by destruct (_ <? _). Qed.

Lemma ed_removeFd_fields d fd :
  EventDispatcher.m_running (EventDispatcher.removeFd d fd).2
    = EventDispatcher.m_running d
  ∧ EventDispatcher.m_stopRequested (EventDispatcher.removeFd d fd).2
    = EventDispatcher.m_stopRequested d
  ∧ EventDispatcher.m_postQueue (EventDispatcher.removeFd d fd).2
    = EventDispatcher.m_postQueue d
  ∧ EventDispatcher.log (EventDispatcher.removeFd d fd).2
    = EventDispatcher.log d.
Proof.
  unfold EventDispatcher.removeFd. by destruct (list_find _ _) as [[i e]|].
Qed.

(** Once requested, a stop stays requested until [run] ends. *)
Lemma ed_exec_action_stop ctx d a :
  EventDispatcher.m_stopRequested d = true →
  EventDispatcher.m_stopRequested (EventDispatcher.exec_action ctx d a) = true.
Proof.
  intros H. destruct a as [id| |id|fd]; cbn [EventDispatcher.exec_action].
  - done.
  - unfold EventDispatcher.stop.
    by rewrite (proj1 (proj2 (ed_wakeup_fields _))).
  - unfold EventDispatcher.post.
    by rewrite (proj1 (proj2 (ed_wakeup_fields _))).
  - by rewrite (proj1 (proj2 (ed_removeFd_fields _ _))).
Qed.

Lemma ed_exec_stop ctx fn : ∀ d,
  EventDispatcher.m_stopRequested d = true →
  EventDispatcher.m_stopRequested (EventDispatcher.exec ctx d fn) = true.
Proof.
  unfold EventDispatcher.exec.
  induction fn as [|a fn IH]; intros d H; [done|].
  cbn [foldl]. apply IH. by apply ed_exec_action_stop.
Qed.

Lemma ed_exec_all_stop fns : ∀ d,
  EventDispatcher.m_stopRequested d = true →
  EventDispatcher.m_stopRequested (foldl (EventDispatcher.exec None) d fns)
    = true.
Proof.
  induction fns as [|fn fns IH]; intros d H; [done|].
  cbn [foldl]. apply IH. by apply ed_exec_stop.
Qed.

Lemma ed_dispatch_stop events : ∀ d,
  EventDispatcher.m_stopRequested d = true →
  EventDispatcher.m_stopRequested (EventDispatcher.dispatch d events) = true.
Proof.
  unfold EventDispatcher.dispatch.
  induction events as [|ev events IH]; intros d H; [done|].
  cbn [foldl]. apply IH. unfold EventDispatcher.dispatch_event.
  destruct (_ =? _); [done|].
  destruct (EventDispatcher.find_callback d ev.1); [|done].
  by apply ed_exec_stop.
Qed.

Lemma ed_exec_has_stop ctx fn : ∀ d,
  EventDispatcher.DoStop ∈ fn →
  EventDispatcher.m_stopRequested (EventDispatcher.exec ctx d fn) = true.
Proof.
  unfold EventDispatcher.exec. induction fn as [|a fn IH]; intros d Hin.
  - by apply elem_of_nil in Hin.
  - apply elem_of_cons in Hin as [<-|Hin]; cbn [foldl].
    + apply (ed_exec_stop ctx fn). cbn [EventDispatcher.exec_action].
      unfold EventDispatcher.stop.
      by rewrite (proj1 (proj2 (ed_wakeup_fields _))).
    + by apply IH.
Qed.

Lemma ed_exec_all_has_stop fns : ∀ d fn,
  fn ∈ fns → EventDispatcher.DoStop ∈ fn →
  EventDispatcher.m_stopRequested (foldl (EventDispatcher.exec None) d fns)
    = true.
Proof.
  induction fns as [|g fns IH]; intros d fn Hin Hs.
  - by apply elem_of_nil in Hin.
  - apply elem_of_cons in Hin as [<-|Hin]; cbn [foldl].
    + apply ed_exec_all_stop. by apply ed_exec_has_stop.
    + by apply (IH _ fn).
Qed.

(** The log under callables that only do work of their own. *)
Lemma ed_exec_notes ctx (ids : list nat) : ∀ d,
  EventDispatcher.exec ctx d (work ids)
  = EventDispatcher.set_log d (EventDispatcher.log d ++ logged ctx ids).
Proof.
  unfold EventDispatcher.exec, work, logged.
  induction ids as [|id ids IH]; intros d.
  - cbn. rewrite app_nil_r. by destruct d.
  - rewrite !fmap_cons. cbn [foldl EventDispatcher.exec_action].
    rewrite IH. cbn [EventDispatcher.log EventDispatcher.set_log].
    rewrite <- app_assoc. done.
Qed.

Lemma ed_exec_all_notes (idss : list (list nat)) : ∀ d,
  foldl (EventDispatcher.exec None) d (work <$> idss)
  = EventDispatcher.set_log d
      (EventDispatcher.log d ++ logged None (concat idss)).
Proof.
  induction idss as [|ids idss IH]; intros d.
  - cbn. rewrite app_nil_r. by destruct d.
  - rewrite fmap_cons. cbn [foldl concat]. rewrite ed_exec_notes, IH.
    cbn [EventDispatcher.log EventDispatcher.set_log].
    unfold logged. rewrite fmap_app, <- app_assoc. done.
Qed.

Lemma ed_post_all fns : ∀ d,
  EventDispatcher.m_postQueue (foldl EventDispatcher.post d fns)
    = EventDispatcher.m_postQueue d ++ fns
  ∧ EventDispatcher.log (foldl EventDispatcher.post d fns)
    = EventDispatcher.log d.
Proof.
  induction fns as [|fn fns IH]; intros d.
  - cbn. by rewrite app_nil_r.
  - cbn [foldl]. destruct (IH (EventDispatcher.post d fn)) as (-> & ->).
    unfold EventDispatcher.post.
    set (dq := EventDispatcher.set_queue d _).
    destruct (ed_wakeup_fields dq) as (_ & _ & _ & -> & ->).
    cbn. by rewrite <- app_assoc.
Qed.

(** X24. Callables posted to a dispatcher whose queue is empty are not run
    by [post]; the next loop iteration of [run] runs each of them once, in
    the order of the posts, and leaves the queue empty, so that a further
    iteration runs nothing. *)
Theorem posted_work_runs_once_in_order d (idss : list (list nat)) :
  EventDispatcher.m_postQueue d = [] →
  let d1 := foldl EventDispatcher.post d (work <$> idss) in
  let d2 := EventDispatcher.exec_batch d1 in
  EventDispatcher.log d1 = EventDispatcher.log d
  ∧ EventDispatcher.log d2
    = EventDispatcher.log d ++ logged None (concat idss)
  ∧ EventDispatcher.m_postQueue d2 = []
  ∧ EventDispatcher.exec_batch d2 = d2.
Proof.
  intros Hq d1 d2.
  destruct (ed_post_all (work <$> idss) d) as (Hq1 & Hl1).
  fold d1 in Hq1, Hl1. rewrite Hq in Hq1. cbn [app] in Hq1.
  split; [done|]. subst d2. unfold EventDispatcher.exec_batch at 1 2.
  rewrite Hq1, ed_exec_all_notes.
  cbn [EventDispatcher.log EventDispatcher.set_log EventDispatcher.set_queue
       EventDispatcher.m_postQueue].
  rewrite Hl1. split; [done|]. split; [done|].
  unfold EventDispatcher.exec_batch. rewrite Hq1, ed_exec_all_notes.
  cbn [EventDispatcher.m_postQueue EventDispatcher.set_log
       EventDispatcher.set_queue foldl].
  done.
Qed.

Lemma ed_exec_all_posts (ids : list nat) : ∀ d,
  let d' := foldl (EventDispatcher.exec None) d
              ((λ id : nat, [EventDispatcher.DoPost id]) <$> ids) in
  EventDispatcher.log d' = EventDispatcher.log d
  ∧ EventDispatcher.m_postQueue d'
    = EventDispatcher.m_postQueue d ++ ((λ id : nat, work [id]) <$> ids).
Proof.
  induction ids as [|id ids IH]; intros d; cbn zeta.
  - cbn. by rewrite app_nil_r.
  - rewrite !fmap_cons. cbn [foldl].
    destruct (IH (EventDispatcher.exec None d [EventDispatcher.DoPost id]))
      as [-> ->].
    unfold EventDispatcher.exec at 1 2.
    cbn [foldl EventDispatcher.exec_action]. unfold EventDispatcher.post.
    set (dq := EventDispatcher.set_queue d _).
    destruct (ed_wakeup_fields dq) as (_ & _ & _ & -> & ->).
    cbn. by rewrite <- app_assoc.
Qed.

Lemma concat_singletons {A} (l : list A) : concat ((λ x, [x]) <$> l) = l.
Proof. induction l as [|x l IH]; [done|]. cbn. by rewrite IH. Qed.

(** X25. A callable that calls [post] while the batch of a loop iteration
    runs does not get its callable run in that iteration: the batch was
    swapped out of the queue before it ran.  With a queue of callables
    that each post one piece of work, the iteration logs nothing and
    leaves the posted work in the queue, in order; the next iteration
    runs it. *)
Theorem nested_post_runs_next_iteration d (ids : list nat) :
  EventDispatcher.m_postQueue d
    = (λ id : nat, [EventDispatcher.DoPost id]) <$> ids →
  let d1 := EventDispatcher.exec_batch d in
  let d2 := EventDispatcher.exec_batch d1 in
  EventDispatcher.log d1 = EventDispatcher.log d
  ∧ EventDispatcher.m_postQueue d1 = (λ id : nat, work [id]) <$> ids
  ∧ EventDispatcher.log d2 = EventDispatcher.log d ++ logged None ids
  ∧ EventDispatcher.m_postQueue d2 = [].
Proof.
  intros Hq d1 d2.
  assert (EventDispatcher.log d1 = EventDispatcher.log d
          ∧ EventDispatcher.m_postQueue d1 = (λ id : nat, work [id]) <$> ids)
    as [Hl1 Hq1].
  { unfold d1, EventDispatcher.exec_batch. rewrite Hq.
    destruct (ed_exec_all_posts ids (EventDispatcher.set_queue d []))
      as [-> ->].
    done. }
  split; [done|]. split; [done|].
  unfold d2, EventDispatcher.exec_batch. rewrite Hq1.
  replace ((λ id : nat, work [id]) <$> ids)
    with (work <$> ((λ id : nat, [id]) <$> ids))
    by (rewrite <- list_fmap_compose; done).
  rewrite ed_exec_all_notes.
  cbn [EventDispatcher.log EventDispatcher.set_log EventDispatcher.set_queue
       EventDispatcher.m_postQueue].
  rewrite Hl1. by rewrite concat_singletons.
Qed.

(** X26. A [stop] made before [run] is not lost and not kept: [run]
    returns at once, without running the posted callables or taking a
    result of [epoll_wait], and clears both flags; queue, log and
    descriptor table are as before the [stop].  A second [run] then
    enters the loop and blocks. *)
Theorem stop_before_run_returns_at_once d waits :
  let res := EventDispatcher.run waits (EventDispatcher.stop d) in
  res.2 = true
  ∧ EventDispatcher.m_running res.1 = false
  ∧ EventDispatcher.m_stopRequested res.1 = false
  ∧ EventDispatcher.m_postQueue res.1 = EventDispatcher.m_postQueue d
  ∧ EventDispatcher.log res.1 = EventDispatcher.log d
  ∧ EventDispatcher.m_fdEntries res.1 = EventDispatcher.m_fdEntries d
  ∧ (EventDispatcher.run [] res.1).2 = false.
Proof.
  intros res. subst res. unfold EventDispatcher.run, EventDispatcher.stop.
  destruct (ed_wakeup_fields
              (EventDispatcher.set_flags d (EventDispatcher.m_running d) true))
    as (Hr & Hs & He & Hq & Hl).
  set (d1 := EventDispatcher.wakeup _) in *.
  set (d2 := EventDispatcher.set_flags d1 true _).
  assert (EventDispatcher.run_loop waits d2
          = (EventDispatcher.run_exit d2, true)) as ->.
  { unfold d2.
    destruct waits;
      cbn [EventDispatcher.run_loop EventDispatcher.m_stopRequested
           EventDispatcher.set_flags];
      by rewrite Hs. }
  unfold d2.
  cbn [fst snd EventDispatcher.run_exit EventDispatcher.set_flags
       EventDispatcher.m_running EventDispatcher.m_stopRequested
       EventDispatcher.m_postQueue EventDispatcher.log
       EventDispatcher.m_fdEntries EventDispatcher.run_loop].
  rewrite Hq, Hl, He. done.
Qed.

(** X27. When a posted callable calls [stop], the loop iteration goes on:
    the rest of the batch runs, [epoll_wait] is called and its events are
    dispatched; only then does [run] see the flag and return, leaving the
    later results of [epoll_wait] untaken.  If that [epoll_wait] never
    returns, neither does [run]. *)
Theorem stop_from_callable_ends_run d fn events waits :
  EventDispatcher.m_stopRequested d = false →
  fn ∈ EventDispatcher.m_postQueue d → EventDispatcher.DoStop ∈ fn →
  let d1 := EventDispatcher.set_flags d true false in
  EventDispatcher.run (events :: waits) d
    = (EventDispatcher.run_exit
         (EventDispatcher.dispatch (EventDispatcher.exec_batch d1) events),
       true)
  ∧ EventDispatcher.run [] d = (EventDispatcher.exec_batch d1, false)
  ∧ EventDispatcher.m_stopRequested (EventDispatcher.exec_batch d1) = true.
Proof.
  intros Hs Hin Hstop d1. unfold EventDispatcher.run. rewrite Hs. fold d1.
  assert (EventDispatcher.m_stopRequested (EventDispatcher.exec_batch d1)
          = true) as Hb.
  { unfold EventDispatcher.exec_batch.
    by apply (ed_exec_all_has_stop _ _ fn). }
  split; [|done].
  cbn [EventDispatcher.run_loop EventDispatcher.m_stopRequested d1
       EventDispatcher.set_flags].
  fold d1. pose proof (ed_dispatch_stop events _ Hb) as Hd.
  destruct waits; cbn [EventDispatcher.run_loop]; by rewrite Hd.
Qed.

(** The first entry for [fd], by position. *)
Lemma ed_find_first
    (entries pre post : list (Z * option EventDispatcher.Callable)) fd cb :
  entries = pre ++ (fd, cb) :: post → fd ∉ pre.*1 →
  list_find (λ e, e.1 = fd) entries = Some (length pre, (fd, cb)).
Proof.
  intros -> Hpre. apply list_find_Some. split; [|split; [done|]].
  - by rewrite lookup_app_r, Nat.sub_diag by lia.
  - intros j y Hy Hj Hfd. apply Hpre. rewrite lookup_app_l in Hy by done.
    apply list_elem_of_fmap. exists y. split; [done|].
    by apply list_elem_of_lookup_2 in Hy.
Qed.

Lemma ed_find_none
    (entries : list (Z * option EventDispatcher.Callable)) fd :
  fd ∉ entries.*1 → list_find (λ e, e.1 = fd) entries = None.
Proof.
  intros Hn. apply list_find_None, Forall_forall. intros e He Hfd.
  apply Hn, list_elem_of_fmap. by exists e.
Qed.

(** X28. For a descriptor that is not in the table: [removeFd] returns -1
    and changes nothing; [addFd] returns -1 and changes nothing when
    [epoll_ctl] fails; otherwise [addFd] returns 0, the descriptor's
    callback is the one given, and a following [removeFd] returns 0 and
    restores the dispatcher as it was. *)
Theorem fd_table_add_remove d fd cb ctl :
  fd ∉ (EventDispatcher.m_fdEntries d).*1 →
  EventDispatcher.removeFd d fd = (-1, d)
  ∧ (ctl < 0 → EventDispatcher.addFd d fd cb ctl = (-1, d))
  ∧ (0 ≤ ctl →
     (EventDispatcher.addFd d fd cb ctl).1 = 0
     ∧ EventDispatcher.find_callback (EventDispatcher.addFd d fd cb ctl).2 fd
       = cb
     ∧ EventDispatcher.removeFd (EventDispatcher.addFd d fd cb ctl).2 fd
       = (0, d)).
Proof.
  intros Hn. split; [|split].
  - unfold EventDispatcher.removeFd. by rewrite ed_find_none.
  - intros Hc. unfold EventDispatcher.addFd.
    by destruct (Z.ltb_spec ctl 0); [|lia].
  - intros Hc. unfold EventDispatcher.addFd.
    destruct (Z.ltb_spec ctl 0); [lia|]. cbn [fst snd].
    unfold EventDispatcher.find_callback, EventDispatcher.removeFd.
    cbn [EventDispatcher.m_fdEntries EventDispatcher.set_entries].
    rewrite (ed_find_first _ (EventDispatcher.m_fdEntries d) [] fd cb)
      by done.
    split; [done|]. split; [done|].
    rewrite delete_middle, app_nil_r. by destruct d.
Qed.

(** X29. An event for a descriptor other than the wakeup tag runs the
    callback of the first table entry for that descriptor, with the
    descriptor and the event mask as arguments, and no other entry's.
    If that first entry holds an empty callback, or the descriptor has no
    entry, the event changes nothing. *)
Theorem event_runs_first_callback d fd mask :
  fd ≠ EventDispatcher.WAKEUP_TAG →
  (∀ pre post ids,
     EventDispatcher.m_fdEntries d = pre ++ (fd, Some (work ids)) :: post →
     fd ∉ pre.*1 →
     EventDispatcher.dispatch_event d (fd, mask)
     = EventDispatcher.set_log d
         (EventDispatcher.log d ++ logged (Some (fd, mask)) ids))
  ∧ (∀ pre post,
       EventDispatcher.m_fdEntries d = pre ++ (fd, None) :: post →
       fd ∉ pre.*1 →
       EventDispatcher.dispatch_event d (fd, mask) = d)
  ∧ (fd ∉ (EventDispatcher.m_fdEntries d).*1 →
     EventDispatcher.dispatch_event d (fd, mask) = d).
Proof.
  intros Htag. unfold EventDispatcher.dispatch_event. cbn [fst snd].
  destruct (Z.eqb_spec fd EventDispatcher.WAKEUP_TAG); [done|].
  unfold EventDispatcher.find_callback. split; [|split].
  - intros pre post ids He Hpre.
    rewrite (ed_find_first _ pre post fd _ He Hpre).
    apply ed_exec_notes.
  - intros pre post He Hpre.
    by rewrite (ed_find_first _ pre post fd _ He Hpre).
  - intros Hn. by rewrite ed_find_none.
Qed.

Lemma ed_removed_not_found d fd :
  NoDup (EventDispatcher.m_fdEntries d).*1 →
  EventDispatcher.find_callback (EventDispatcher.removeFd d fd).2 fd = None.
Proof.
  intros Hnd. unfold EventDispatcher.removeFd, EventDispatcher.find_callback.
  destruct (list_find _ (EventDispatcher.m_fdEntries d)) as [[i e]|] eqn:Hf.
  - cbn [snd EventDispatcher.m_fdEntries EventDispatcher.set_entries].
    apply list_find_Some in Hf as (Hi & He & _).
    rewrite ed_find_none; [done|].
    rewrite <- (take_drop_middle _ _ _ Hi) in Hnd.
    rewrite delete_take_drop. rewrite fmap_app in *.
    rewrite fmap_cons in Hnd. cbn [fst] in He. rewrite He in Hnd.
    apply NoDup_app in Hnd as (_ & Hdis & Hnd).
    apply NoDup_cons in Hnd as [Hnot _].
    intros Hin. apply elem_of_app in Hin as [Hin|Hin]; [|done].
    apply (Hdis _ Hin). apply elem_of_cons. by left.
  - cbn [snd]. by rewrite Hf.
Qed.

(** X30. When [epoll_wait] returns events for two descriptors and the
    callback of the first removes the second from the table (every
    descriptor being registered once), the callback of the second is not
    run for its event, although the event was already returned: the
    outcome is the table without the second descriptor and the log of the
    first callback alone. *)
Theorem removed_fd_is_not_dispatched d fd1 fd2 m1 m2 ids :
  fd1 ≠ EventDispatcher.WAKEUP_TAG → fd2 ≠ EventDispatcher.WAKEUP_TAG →
  NoDup (EventDispatcher.m_fdEntries d).*1 →
  EventDispatcher.find_callback d fd1
    = Some (EventDispatcher.DoRemoveFd fd2 :: work ids) →
  EventDispatcher.dispatch d [(fd1, m1); (fd2, m2)]
  = EventDispatcher.set_log (EventDispatcher.removeFd d fd2).2
      (EventDispatcher.log d ++ logged (Some (fd1, m1)) ids).
Proof.
  intros H1 H2 Hnd Hcb.
  unfold EventDispatcher.dispatch. cbn [foldl].
  unfold EventDispatcher.dispatch_event at 2. cbn [fst snd].
  destruct (Z.eqb_spec fd1 EventDispatcher.WAKEUP_TAG); [done|].
  rewrite Hcb.
  change (EventDispatcher.exec (Some (fd1, m1)) d
            (EventDispatcher.DoRemoveFd fd2 :: work ids))
    with (EventDispatcher.exec (Some (fd1, m1))
            (EventDispatcher.removeFd d fd2).2 (work ids)).
  rewrite ed_exec_notes.
  rewrite (proj2 (proj2 (proj2 (ed_removeFd_fields d fd2)))).
  unfold EventDispatcher.dispatch_event. cbn [fst snd].
  destruct (Z.eqb_spec fd2 EventDispatcher.WAKEUP_TAG); [done|].
  pose proof (ed_removed_not_found d fd2 Hnd) as Hnone.
  unfold EventDispatcher.find_callback in *.
  cbn [EventDispatcher.m_fdEntries EventDispatcher.set_log].
  by rewrite Hnone.
Qed.
(* ===================================================================== *)
(** * Further sample runs *)

Lemma fresh_small_ring_ok : ring_ok 4096 fresh_small_ring.
Proof. split; vm_compute; try split; discriminate || reflexivity. Qed.

Lemma partial_ring_ok : ring_ok RING_BUFFER_SIZE partial_ring.
Proof. split; vm_compute; try split; discriminate || reflexivity. Qed.

Lemma sample_response_ok : header_ok sample_response.
Proof. split; vm_compute; split; discriminate || reflexivity. Qed.

Lemma ring_refines_queue_run :
  ring_ok 4096 (run_ops 4096 sample_ops small_ring)
  ∧ contents 4096 (run_ops 4096 sample_ops small_ring)
      = queue_ops 4096 sample_ops (contents 4096 small_ring).
Proof.
  apply (ring_refines_queue 4096 size_4096 sample_ops small_ring).
  - exact small_ring_ok.
  - repeat constructor; vm_compute; discriminate.
Defined.

Lemma read_takes_front_run :
  read 4096 small_ring 100 = (None, small_ring)
  ∧ ∃ rb',
      read 4096 small_ring 10
        = (Some (take (Z.to_nat 10) (contents 4096 small_ring)), rb')
      ∧ ring_ok 4096 rb'
      ∧ contents 4096 rb' = drop (Z.to_nat 10) (contents 4096 small_ring)
      ∧ ctrl_head rb' = ctrl_head small_ring
      ∧ data_ rb' = data_ small_ring
      ∧ writeAvailable 4096 rb' = writeAvailable 4096 small_ring + 10.
Proof.
  split.
  - apply (proj1 (read_takes_front 4096 size_4096 small_ring 100)).
    vm_compute. reflexivity.
  - apply (proj2 (read_takes_front 4096 size_4096 small_ring 10)).
    + exact small_ring_ok.
    + vm_compute. split; discriminate.
Defined.

Lemma peek_and_skip_run :
  (peek 4096 small_ring 100 = None
   ∧ skip small_ring 100 = (false, small_ring))
  ∧ peek 4096 small_ring 10 = fst (read 4096 small_ring 10)
  ∧ peek 4096 small_ring 10
    = Some (take (Z.to_nat 10) (contents 4096 small_ring))
  ∧ skip small_ring 10 = (true, snd (read 4096 small_ring 10))
  ∧ contents 4096 (snd (skip small_ring 10))
    = drop (Z.to_nat 10) (contents 4096 small_ring).
Proof.
  split.
  - apply (proj1 (peek_and_skip 4096 size_4096 small_ring 100)).
    vm_compute. reflexivity.
  - apply (proj2 (peek_and_skip 4096 size_4096 small_ring 10)).
    + exact small_ring_ok.
    + vm_compute. split; discriminate.
Defined.

Lemma write_read_roundtrip_run :
  ∃ rb1 rb2,
    write 4096 fresh_small_ring sixteen (Z.of_nat (length sixteen))
      = (true, rb1)
    ∧ readAvailable rb1 = Z.of_nat (length sixteen)
    ∧ read 4096 rb1 (Z.of_nat (length sixteen)) = (Some sixteen, rb2)
    ∧ empty rb2 = true
    ∧ (full 4096 rb1 = true ↔ Z.of_nat (length sixteen) = 4096).
Proof.
  apply (write_read_roundtrip 4096 size_4096 fresh_small_ring sixteen).
  - exact fresh_small_ring_ok.
  - reflexivity.
  - vm_compute. discriminate.
Defined.

Lemma encode_decode_bytes_run :
  ∃ h,
    decodeFrameHeader sample_bytes 24 (Some zeroHeader) = (true, Some h)
    ∧ header_ok h
    ∧ encodeFrameHeader h = sample_bytes.
Proof.
  apply (encode_decode_bytes sample_bytes zeroHeader).
  - repeat constructor; vm_compute; discriminate.
  - reflexivity.
Defined.

Lemma drain_dispatches_whole_frames_run :
  ∃ ring',
    ring_ok RING_BUFFER_SIZE ring'
    ∧ contents RING_BUFFER_SIZE ring'
      = take 10 (frame_bytes (sample_request, small_request))
    ∧ Client.drain draining_client
      = Client.dispatch_all
          (Client.set_region draining_client
             (Some (set_serverToClient (mkRegion zero_ring partial_ring)
                                       ring')))
          [(sample_response, [42; 0; 0; 0])]
    ∧ Client.receiver_iter (Client.drain draining_client) = None.
Proof.
  apply (drain_dispatches_whole_frames draining_client
           (mkRegion zero_ring partial_ring)
           [(sample_response, [42; 0; 0; 0])]
           (sample_request, small_request) 10).
  - reflexivity.
  - exact partial_ring_ok.
  - constructor; [|constructor].
    split; [exact sample_response_ok | vm_compute; reflexivity].
  - split; [exact sample_request_ok | vm_compute; reflexivity].
  - vm_compute. lia.
  - vm_compute. reflexivity.
Defined.

Lemma call_begin_sends_request_run :
  ∃ pending ring',
    (Client.call_begin connected_client 1 7 small_request 1).1.1
      = Client.Waiting (Client.m_nextSeq connected_client) pending
    ∧ Client.objects connected_client !! pending = None
    ∧ Client.m_pending (Client.call_begin connected_client 1 7
                          small_request 1).1.2
        = <[Client.m_nextSeq connected_client := pending]>
            (Client.m_pending connected_client)
    ∧ Client.objects (Client.call_begin connected_client 1 7
                        small_request 1).1.2
        = <[pending := Client.mkPending false RPC_SUCCESS []]>
            (Client.objects connected_client)
    ∧ Client.m_nextSeq (Client.call_begin connected_client 1 7
                          small_request 1).1.2
        = u32 (Client.m_nextSeq connected_client + 1)
    ∧ Client.m_region (Client.call_begin connected_client 1 7
                         small_request 1).1.2
        = Some (set_clientToServer zero_region ring')
    ∧ ring_ok RING_BUFFER_SIZE ring'
    ∧ contents RING_BUFFER_SIZE ring'
        = contents RING_BUFFER_SIZE (clientToServer zero_region)
            ++ frame_bytes
                 (Client.request_header 1 7
                    (Client.m_nextSeq connected_client) small_request,
                  small_request)
    ∧ (Client.call_begin connected_client 1 7 small_request 1).2
        = [SysSignal (Client.m_socketFd connected_client) 1].
Proof.
  apply (call_begin_sends_request connected_client zero_region 1 7
           small_request 1).
  - vm_compute. reflexivity.
  - reflexivity.
  - exact zero_ring_ok.
  - vm_compute. reflexivity.
  - vm_compute. discriminate.
  - lia.
Defined.

Lemma timeout_drops_late_response_run :
  let res := Client.call_finish waiting_client 1 0%nat (Some [7]) in
  res.1.1 = RPC_ERR_TIMEOUT ∧ res.2 = Some [7]
  ∧ Client.m_pending res.1.2 = delete 1 (Client.m_pending waiting_client)
  ∧ Client.objects res.1.2 = Client.objects waiting_client
  ∧ ∀ h payload,
      Z.land (flags h) FRAME_RESPONSE ≠ 0 → seq h = 1 →
      Client.on_frame res.1.2 h payload = res.1.2.
Proof.
  apply (timeout_drops_late_response waiting_client 1 0%nat
           (Client.mkPending false RPC_SUCCESS []) (Some [7])).
  - vm_compute. reflexivity.
  - reflexivity.
Defined.

Lemma receiver_exit_fails_pending_calls_run :
  let c' := Client.receiver_exit waiting_client in
  Client.objects c' !! 0%nat
    = Some (Client.mkPending true RPC_ERR_DISCONNECTED [])
  ∧ (∀ q, (∀ s, Client.m_pending waiting_client !! s ≠ Some q) →
       Client.objects c' !! q = Client.objects waiting_client !! q)
  ∧ (Client.call_finish c' 1 0%nat (Some [7])).1.1 = RPC_ERR_DISCONNECTED
  ∧ (Client.call_finish c' 1 0%nat (Some [7])).2 = Some [7]
  ∧ Client.m_pending (Client.call_finish c' 1 0%nat (Some [7])).1.2
    = delete 1 (Client.m_pending waiting_client).
Proof.
  apply (receiver_exit_fails_pending_calls waiting_client 1 0%nat
           (Client.mkPending false RPC_SUCCESS []) (Some [7])).
  - vm_compute. reflexivity.
  - vm_compute. reflexivity.
Defined.

Lemma disconnect_wakes_pending_calls_run :
  let c1 := (Client.disconnect_join two_waiting).1 in
  let c3 := (Client.disconnect_racing two_waiting
               [(1, 0%nat, Some [7])]).1 in
  (∀ before,
     (Client.call_finish (Client.callers_return c1 before) 2 1%nat
                         (Some [7])).1.1 = RPC_ERR_DISCONNECTED
     ∧ (Client.call_finish (Client.callers_return c1 before) 2 1%nat
                           (Some [7])).2 = Some [7]
     ∧ Client.m_pending
         (Client.call_finish (Client.callers_return c1 before) 2 1%nat
                             (Some [7])).1.2 !! 2 = None)
  ∧ (Client.objects c3 !! 1%nat
       = Some (Client.mkPending true RPC_ERR_STOPPED [])
     ∧ (Client.call_finish c3 2 1%nat (Some [7])).1.1 = RPC_ERR_STOPPED
     ∧ (Client.call_finish c3 2 1%nat (Some [7])).2 = Some [7])
  ∧ Client.m_pending c3 = ∅
  ∧ Client.m_running c3 = false ∧ Client.m_region c3 = None
  ∧ Client.m_socketFd c3 = -1 ∧ Client.m_shmFd c3 = -1
  ∧ Client.objects c3
    = Client.objects
        (Client.fail_pending RPC_ERR_STOPPED
           (Client.callers_return c1 [(1, 0%nat, Some [7])]))
  ∧ (Client.disconnect two_waiting).1
    = (Client.disconnect_racing two_waiting []).1.
Proof.
  destruct (disconnect_wakes_pending_calls two_waiting
              [(1, 0%nat, Some [7])] 2 1%nat
              (Client.mkPending false RPC_SUCCESS []) (Some [7]))
    as (Ha & Hb & Hrest).
  - vm_compute. reflexivity.
  - vm_compute. reflexivity.
  - vm_compute. reflexivity.
  - assert (2 ∉ [(1, 0%nat, Some [7])].*1.*1) as Hnot.
    { apply (bool_decide_unpack _). vm_compute. exact I. }
    exact (conj Ha (conj (Hb Hnot) Hrest)).
Defined.

Lemma connect_succeeds_iff_run :
  let fd := Client.connect_attempts (Client.env_sock good_env)
              (Client.m_socketFd Client.fresh_client) 0 (Z.to_nat 200) in
  let res := Client.connect Client.fresh_client PROTOCOL_VERSION 200
               good_env in
  res.1.1 = true
  ∧ ∃ mem, Client.env_mmap good_env = Some mem
      ∧ res.1.2
        = Client.set_running
            (Client.set_region
               (Client.set_fds Client.fresh_client fd
                  (Client.env_shm good_env))
               (Some (mkRegion (reset (clientToServer mem))
                               (reset (serverToClient mem))))) true
      ∧ res.2 = [SysSendFd fd PROTOCOL_VERSION (Client.env_shm good_env);
                 SysSpawn].
Proof.
  destruct (connect_succeeds_iff Client.fresh_client PROTOCOL_VERSION 200
              good_env) as [Hiff Hstate].
  - reflexivity.
  - assert ((Client.connect Client.fresh_client PROTOCOL_VERSION 200
               good_env).1.1 = true) as Hok.
    { apply Hiff.
      split; [vm_compute; discriminate|]. split; [vm_compute; discriminate|].
      split; [eexists; reflexivity|]. split; [reflexivity|].
      split; [reflexivity|]. vm_compute. discriminate. }
    exact (conj Hok (Hstate Hok)).
Defined.

Lemma connect_failure_releases_run :
  let fd := Client.connect_attempts (Client.env_sock nack_env)
              (Client.m_socketFd Client.fresh_client) 0 (Z.to_nat 200) in
  let res := Client.connect Client.fresh_client 2 200 nack_env in
  Client.m_running res.1.2 = false ∧ Client.m_region res.1.2 = None
  ∧ Client.m_socketFd res.1.2 < 0
  ∧ Client.m_pending res.1.2 = Client.m_pending Client.fresh_client
  ∧ closed_fds res.2
    = (if fd <? 0 then []
       else (if Client.env_shm nack_env <? 0 then []
             else [Client.env_shm nack_env]) ++ [fd])
  ∧ (0 ≤ fd → 0 ≤ Client.env_shm nack_env →
     is_Some (Client.env_mmap nack_env) →
     SysMunmap ∈ res.2 ∧ SysSpawn ∉ res.2).
Proof.
  apply (connect_failure_releases Client.fresh_client 2 200 nack_env).
  - reflexivity.
  - reflexivity.
  - vm_compute. reflexivity.
Defined.

Lemma client_notify_sends_frame_run :
  ∃ ring',
    (Client.notify connected_client 1 99 [5] 1).1.1
      = (if 1 >? 0 then RPC_SUCCESS else RPC_ERR_DISCONNECTED)
    ∧ (Client.notify connected_client 1 99 [5] 1).1.2
      = Client.set_region connected_client
          (Some (set_clientToServer zero_region ring'))
    ∧ ring_ok RING_BUFFER_SIZE ring'
    ∧ contents RING_BUFFER_SIZE ring'
        = contents RING_BUFFER_SIZE (clientToServer zero_region)
            ++ frame_bytes (Client.notify_header 1 99 [5], [5])
    ∧ (Client.notify connected_client 1 99 [5] 1).2
      = [SysSignal (Client.m_socketFd connected_client) 1].
Proof.
  apply (client_notify_sends_frame connected_client zero_region 1 99 [5] 1).
  - vm_compute. reflexivity.
  - reflexivity.
  - exact zero_ring_ok.
  - vm_compute. reflexivity.
  - vm_compute. discriminate.
Defined.

Lemma connection_answers_request_run :
  ∃ ring1 ring2,
    Service.connection_iter adding_service 1 waiting_connection
      = Some (Service.set_region waiting_connection (mkRegion ring1 ring2),
              [SysSignal (Service.socketFd waiting_connection) 1])
    ∧ ring_ok RING_BUFFER_SIZE ring1 ∧ ring_ok RING_BUFFER_SIZE ring2
    ∧ contents RING_BUFFER_SIZE ring1 = []
    ∧ contents RING_BUFFER_SIZE ring2
        = contents RING_BUFFER_SIZE (serverToClient waiting_region)
            ++ frame_bytes
                 (Service.response_header sample_request 0 [42; 0; 0; 0],
                  [42; 0; 0; 0])
    ∧ seq (Service.response_header sample_request 0 [42; 0; 0; 0])
      = seq sample_request
    ∧ aux (Service.response_header sample_request 0 [42; 0; 0; 0]) = u32 0.
Proof.
  apply (connection_answers_request adding_service 1 waiting_connection
           waiting_region sample_request small_request [] 0 [42; 0; 0; 0]).
  - reflexivity.
  - exact (proj1 waiting_region_ok).
  - exact (proj2 waiting_region_ok).
  - split; [exact sample_request_ok | vm_compute; reflexivity].
  - vm_compute. discriminate.
  - vm_compute. reflexivity.
  - vm_compute. reflexivity.
  - vm_compute. reflexivity.
  - vm_compute. discriminate.
Defined.

Lemma full_region_ok : ring_ok RING_BUFFER_SIZE (clientToServer full_region).
Proof. split; vm_compute; try split; discriminate || reflexivity. Qed.

Lemma connection_drops_unanswerable_run :
  ∃ ring1,
    Service.connection_iter adding_service 1 full_connection
      = Some (Service.set_region full_connection
                (mkRegion ring1 (serverToClient full_region)), [])
    ∧ ring_ok RING_BUFFER_SIZE ring1
    ∧ contents RING_BUFFER_SIZE ring1 = [].
Proof.
  apply (connection_drops_unanswerable adding_service 1 full_connection
           full_region sample_request small_request []).
  - reflexivity.
  - exact full_region_ok.
  - split; [exact sample_request_ok | vm_compute; reflexivity].
  - vm_compute. reflexivity.
  - right. vm_compute. reflexivity.
Defined.

Lemma call_round_trip_run :
  ∃ pending c1 tr1 conn' tr2 c2,
    Client.call_begin connected_client 1 7 small_request 1
      = (Client.Waiting (Client.m_nextSeq connected_client) pending, c1, tr1)
    ∧ Service.connection_iter adding_service 1
        (Service.mkConnection 10 20 (Client.m_region c1))
      = Some (conn', tr2)
    ∧ Client.receiver_iter (Client.set_region c1 (Service.region conn'))
      = Some c2
    ∧ (Client.call_finish c2 (Client.m_nextSeq connected_client) pending
         (Some [])).1.1 = 0
    ∧ (Client.call_finish c2 (Client.m_nextSeq connected_client) pending
         (Some [])).2
      = Some (if 0 =? RPC_SUCCESS then [42; 0; 0; 0] else [])
    ∧ Client.m_pending
        (Client.call_finish c2 (Client.m_nextSeq connected_client) pending
           (Some [])).1.2
      = delete (Client.m_nextSeq connected_client)
               (Client.m_pending connected_client).
Proof.
  apply (call_round_trip connected_client zero_region adding_service 1 7
           small_request 1 10 20 0 [42; 0; 0; 0] []).
  - vm_compute. reflexivity.
  - reflexivity.
  - exact zero_ring_ok.
  - exact zero_ring_ok.
  - vm_compute. reflexivity.
  - vm_compute. reflexivity.
  - vm_compute. split; discriminate || reflexivity.
  - vm_compute. split; discriminate || reflexivity.
  - vm_compute. split; discriminate || reflexivity.
  - vm_compute. discriminate.
  - vm_compute. reflexivity.
  - vm_compute. split; discriminate || reflexivity.
  - vm_compute. discriminate.
  - lia.
Defined.

Lemma notify_reaches_all_run :
  let header := Service.notify_header 1 99 [123; 0; 0; 0] in
  let res := Service.notify mixed_service 1 99 [123; 0; 0; 0] (λ _, 1) in
  res.1.1 = RPC_SUCCESS
  ∧ Forall2 (got_frame (header, [123; 0; 0; 0]))
      (Service.m_connections mixed_service) (Service.m_connections res.1.2)
  ∧ res.2 = signals_sent (λ _, 1) (Service.m_connections mixed_service)
  ∧ Service.m_running res.1.2 = Service.m_running mixed_service
  ∧ Service.m_listenFd res.1.2 = Service.m_listenFd mixed_service
  ∧ Service.m_handler res.1.2 = Service.m_handler mixed_service.
Proof.
  apply (notify_reaches_all mixed_service 1 99 [123; 0; 0; 0] (λ _, 1)).
  - vm_compute. reflexivity.
  - constructor; [|constructor; [exact I | constructor]].
    split; [exact zero_ring_ok|]. split; [vm_compute; discriminate | lia].
Defined.

Lemma stop_closes_everything_run :
  let res := Service.stop two_clients in
  Service.m_running res.1 = false
  ∧ Service.m_connections res.1 = []
  ∧ Service.m_listenFd res.1 < 0
  ∧ Service.m_handler res.1 = Service.m_handler two_clients
  ∧ closed_fds res.2
    = (if Service.m_listenFd two_clients >=? 0
       then [Service.m_listenFd two_clients] else [])
        ++ flat_map
             (λ c, (if Service.shmFd c >=? 0 then [Service.shmFd c] else [])
                     ++ (if Service.socketFd c >=? 0
                         then [Service.socketFd c] else []))
             (Service.m_connections two_clients)
  ∧ Service.stop res.1 = (res.1, []).
Proof.
  apply (stop_closes_everything two_clients). reflexivity.
Defined.

Lemma posted_work_runs_once_in_order_run :
  let d1 := foldl EventDispatcher.post EventDispatcher.fresh
              (work <$> [[1; 2]; [3]]%nat) in
  let d2 := EventDispatcher.exec_batch d1 in
  EventDispatcher.log d1 = EventDispatcher.log EventDispatcher.fresh
  ∧ EventDispatcher.log d2
    = EventDispatcher.log EventDispatcher.fresh
        ++ logged None (concat [[1; 2]; [3]]%nat)
  ∧ EventDispatcher.m_postQueue d2 = []
  ∧ EventDispatcher.exec_batch d2 = d2.
Proof.
  apply (posted_work_runs_once_in_order EventDispatcher.fresh
           [[1; 2]; [3]]%nat).
  reflexivity.
Defined.

Lemma nested_post_runs_next_iteration_run :
  let d := foldl EventDispatcher.post EventDispatcher.fresh
             [[EventDispatcher.DoPost 1]; [EventDispatcher.DoPost 2]] in
  let d1 := EventDispatcher.exec_batch d in
  let d2 := EventDispatcher.exec_batch d1 in
  EventDispatcher.log d1 = EventDispatcher.log d
  ∧ EventDispatcher.m_postQueue d1
    = (λ id : nat, work [id]) <$> [1; 2]%nat
  ∧ EventDispatcher.log d2 = EventDispatcher.log d ++ logged None [1; 2]%nat
  ∧ EventDispatcher.m_postQueue d2 = [].
Proof.
  apply (nested_post_runs_next_iteration
           (foldl EventDispatcher.post EventDispatcher.fresh
              [[EventDispatcher.DoPost 1]; [EventDispatcher.DoPost 2]])
           [1; 2]%nat).
  reflexivity.
Defined.

Lemma stop_from_callable_ends_run_run :
  let d := EventDispatcher.post watching
             [EventDispatcher.DoStop; EventDispatcher.Note 4] in
  let d1 := EventDispatcher.set_flags d true false in
  EventDispatcher.run [[(5, 1)]; [(5, 1)]] d
    = (EventDispatcher.run_exit
         (EventDispatcher.dispatch (EventDispatcher.exec_batch d1)
                                   [(5, 1)]),
       true)
  ∧ EventDispatcher.run [] d = (EventDispatcher.exec_batch d1, false)
  ∧ EventDispatcher.m_stopRequested (EventDispatcher.exec_batch d1) = true.
Proof.
  apply (stop_from_callable_ends_run
           (EventDispatcher.post watching
              [EventDispatcher.DoStop; EventDispatcher.Note 4])
           [EventDispatcher.DoStop; EventDispatcher.Note 4]
           [(5, 1)] [[(5, 1)]]).
  - reflexivity.
  - vm_compute. constructor.
  - constructor.
Defined.

Lemma fd_table_add_remove_run :
  EventDispatcher.removeFd watching 7 = (-1, watching)
  ∧ EventDispatcher.addFd watching 7 (Some (work [3%nat])) (-1)
    = (-1, watching)
  ∧ (EventDispatcher.addFd watching 7 (Some (work [3%nat])) 0).1 = 0
  ∧ EventDispatcher.find_callback
      (EventDispatcher.addFd watching 7 (Some (work [3%nat])) 0).2 7
    = Some (work [3%nat])
  ∧ EventDispatcher.removeFd
      (EventDispatcher.addFd watching 7 (Some (work [3%nat])) 0).2 7
    = (0, watching).
Proof.
  assert (7 ∉ (EventDispatcher.m_fdEntries watching).*1) as Hn.
  { apply (bool_decide_unpack _). vm_compute. exact I. }
  split; [|split].
  - exact (proj1 (fd_table_add_remove watching 7 (Some (work [3%nat])) 0
                    Hn)).
  - apply (proj1 (proj2 (fd_table_add_remove watching 7
                           (Some (work [3%nat])) (-1) Hn))).
    lia.
  - apply (proj2 (proj2 (fd_table_add_remove watching 7
                           (Some (work [3%nat])) 0 Hn))).
    lia.
Defined.

Lemma event_runs_first_callback_run :
  EventDispatcher.dispatch_event watching_twice (5, 1)
    = EventDispatcher.set_log watching_twice
        (EventDispatcher.log watching_twice
           ++ logged (Some (5, 1)) [1%nat])
  ∧ EventDispatcher.dispatch_event watching_twice (7, 1) = watching_twice.
Proof.
  assert (5 ≠ EventDispatcher.WAKEUP_TAG) as H5 by discriminate.
  assert (7 ≠ EventDispatcher.WAKEUP_TAG) as H7 by discriminate.
  split.
  - apply (proj1 (event_runs_first_callback watching_twice 5 1 H5)
             [(6, Some (EventDispatcher.DoRemoveFd 5 :: work [9%nat]))]
             [(5, Some (work [2%nat]))] [1%nat]).
    + reflexivity.
    + apply (bool_decide_unpack _). vm_compute. exact I.
  - apply (proj2 (proj2 (event_runs_first_callback watching_twice 7 1 H7))).
    apply (bool_decide_unpack _). vm_compute. exact I.
Defined.

Lemma removed_fd_is_not_dispatched_run :
  EventDispatcher.dispatch watching [(6, 1); (5, 1)]
  = EventDispatcher.set_log (EventDispatcher.removeFd watching 5).2
      (EventDispatcher.log watching ++ logged (Some (6, 1)) [9%nat]).
Proof.
  apply (removed_fd_is_not_dispatched watching 6 5 1 1 [9%nat]).
  - discriminate.
  - discriminate.
  - apply (bool_decide_unpack _). vm_compute. exact I.
  - reflexivity.
Defined.
